(** * Scheduling-round bookkeeping of [internal/scheduler/context/context.go]

    A shallow embedding of [SchedulingContext] (the per-executor round) and
    [QueueSchedulingContext] (the per-queue part of a round), followed by the
    properties of their counters and decision sets.

    Go pointers to a [QueueSchedulingContext] are only ever reached through
    [SchedulingContext.QueueSchedulingContexts]; a mutation through such a
    pointer is modelled by writing the updated queue context back into that
    map.  Every mutating method is a function from the state before the call
    to the value it returns together with the state after the call, so that a
    call that returns an error still exposes whatever it had written.

    Left out of the records are the clock readings ([Started], [Finished],
    [Created]), the fairness cost provider, the scheduling-key generator, the
    pod scheduling context of a decision and the back pointer from a queue
    context to its round: the methods modelled here neither read nor write
    them after construction.  Pointers and interface values handed to the
    methods are taken to be non-nil, except [PodRequirements], which the
    code tests.  Also left out is [ClearJobSpecs], which sets the [Job] field
    of every stored decision to nil and writes nothing else. *)

From Stdlib Require Import ZArith Lia.
From Stdlib Require Import Floats.SpecFloat.
From stdpp Require Import base option gmap strings list fin_maps.

Local Open Scope Z_scope.

(** ** Go's [int] *)

(** [int] is a 64-bit two's-complement integer on the platforms the scheduler
    is built for; [++] and [--] wrap around. *)
Module GoInt.

Definition min_int : Z := - 2 ^ 63.
Definition max_int : Z := 2 ^ 63 - 1.

Definition wrap (z : Z) : Z := (z + 2 ^ 63) mod 2 ^ 64 - 2 ^ 63.

Definition in_range (z : Z) : Prop := min_int <= z <= max_int.

(** [n++] *)
Definition incr (n : Z) : Z := wrap (n + 1).
(** [n--] *)
Definition decr (n : Z) : Z := wrap (n - 1).

End GoInt.

(** ** Go's [float64] *)

(** IEEE 754 binary64: 53 bits of precision, exponents below 1024, rounding
    to nearest even. *)
Module Float64.

Abbreviation t := spec_float (only parsing).

Definition zero : t := S754_zero false.

(** [x + y] *)
Definition add (x y : t) : t := SFadd 53 1024 x y.

End Float64.

(** ** Resource vectors (package [schedulerobjects]) *)

Module schedulerobjects.

(** Modelled from the spec: the package [schedulerobjects] (types
    [ResourceList] and [QuantityByTAndResourceType] with their methods
    [Add], [AddV1ResourceList], [SubV1ResourceList], [IsZero] and
    [DeepCopy]) is not part of the sources at hand.  The spec describes a
    resource vector as a sparse map from resource name to a scalar quantity
    with add, sub and a zero check and with value semantics, and a
    per-priority-class table as a map from priority-class name to resource
    vector, deep-copied on ingest.  A resource missing from a vector reads as
    zero, and subtracting a vector that lacks a resource leaves that resource
    as it is.  Quantities are exact and signed: the spec asks that an
    eviction and a later scheduling of the same job cancel, and that signed
    arithmetic be preserved rather than clamped at zero.  A quantity is an
    integer number of the smallest unit. *)
Abbreviation Quantity := Z (only parsing).
Abbreviation ResourceList := (gmap string Z) (only parsing).
(** Kubernetes' [v1.ResourceList], the type of a job's requests. *)
Abbreviation V1ResourceList := (gmap string Z) (only parsing).
Abbreviation QuantityByTAndResourceType := (gmap string (gmap string Z)) (only parsing).

(** Modelled from the spec: [rl.Get(t)], the quantity of resource [t], zero
    when absent. *)
Definition Get (rl : ResourceList) (t : string) : Quantity :=
  default 0 (rl !! t).

(** Modelled from the spec: [NewResourceListWithDefaultSize()], the empty
    vector. *)
Definition NewResourceListWithDefaultSize : ResourceList := ∅.

(** Modelled from the spec: [rl.AddV1ResourceList(other)]; every resource of
    [other] is added to the entry of [rl], which is created when missing. *)
Definition AddV1ResourceList (rl : ResourceList) (other : V1ResourceList) : ResourceList :=
  merge (λ qa qb, match qb with
                  | Some b => Some (default 0 qa + b)
                  | None => qa
                  end) rl other.

(** Modelled from the spec: [rl.SubV1ResourceList(other)]; every resource of
    [other] is subtracted from the entry of [rl], which is created when
    missing; a resource that [other] lacks is left alone. *)
Definition SubV1ResourceList (rl : ResourceList) (other : V1ResourceList) : ResourceList :=
  merge (λ qa qb, match qb with
                  | Some b => Some (default 0 qa - b)
                  | None => qa
                  end) rl other.

(** Modelled from the spec: [rl.Add(other)]. *)
Definition Add (rl other : ResourceList) : ResourceList :=
  AddV1ResourceList rl other.

(** Modelled from the spec: [rl.IsZero()]; every stored quantity is zero. *)
Definition IsZero (rl : ResourceList) : bool :=
  bool_decide (map_Forall (λ _ q, q = 0) rl).

(** Modelled from the spec: equality of resource vectors, [rl.Equal(other)];
    the same quantity of every resource, an absent entry counting as zero. *)
Definition Equal (a b : ResourceList) : Prop :=
  ∀ t, Get a t = Get b t.

End schedulerobjects.

Module QuantityByTAndResourceType.
Import schedulerobjects.

(** Modelled from the spec: [a[t]], the zero vector when [t] has no entry. *)
Definition at_ (a : QuantityByTAndResourceType) (t : string) : ResourceList :=
  default ∅ (a !! t).

(** Modelled from the spec: [a.AddV1ResourceList(t, rlb)], which adds [rlb]
    to the entry of [t]. *)
Definition AddV1ResourceList (a : QuantityByTAndResourceType) (t : string)
    (rlb : V1ResourceList) : QuantityByTAndResourceType :=
  <[t := schedulerobjects.AddV1ResourceList (at_ a t) rlb]> a.

(** Modelled from the spec: [a.SubV1ResourceList(t, rlb)], which subtracts
    [rlb] from the entry of [t]. *)
Definition SubV1ResourceList (a : QuantityByTAndResourceType) (t : string)
    (rlb : V1ResourceList) : QuantityByTAndResourceType :=
  <[t := schedulerobjects.SubV1ResourceList (at_ a t) rlb]> a.

(** Modelled from the spec: [a.IsZero()]; every entry is zero. *)
Definition IsZero (a : QuantityByTAndResourceType) : bool :=
  bool_decide (map_Forall (λ _ rl, schedulerobjects.IsZero rl = true) a).

(** Modelled from the spec: [a.DeepCopy()]; a table with value semantics is
    its own copy. *)
Definition DeepCopy (a : QuantityByTAndResourceType) : QuantityByTAndResourceType := a.

(** The sum of the entries of a table, as the loop of
    [AddQueueSchedulingContext] accumulates it. *)
Definition sum (a : QuantityByTAndResourceType) : ResourceList :=
  map_fold (λ _ rl acc, schedulerobjects.Add acc rl) NewResourceListWithDefaultSize a.

End QuantityByTAndResourceType.

(** ** Jobs and job-level decisions *)

(** A [*rate.Limiter]: nil or the identity of a limiter. *)
Abbreviation RateLimiter := (option nat) (only parsing).

(** [interfaces.LegacySchedulerJob]: what the getters of a job handle return.
    Job handles are taken to be non-nil. *)
Module Job.
Record t := mk {
  GetId : string;
  GetQueue : string;
  GetPriorityClassName : string;
  GetNodeSelector : gmap string string;
  GetAffinity : string;
  GetTolerations : list string;
  (** [GetResourceRequirements().Requests] *)
  GetRequests : gmap string Z;
  GetAnnotations : gmap string string
}.
End Job.

(** [schedulerobjects.PodRequirements], with
    [ResourceRequirements.Requests] written [Requests]. *)
Module PodRequirements.
Record t := mk {
  Requests : gmap string Z;
  Annotations : gmap string string
}.
End PodRequirements.

Module JobSchedulingContext.
Record t := mk {
  JobId : string;
  Job : Job.t;
  (** nil is [None] *)
  PodRequirements : option PodRequirements.t;
  UnschedulableReason : string
}.

Definition IsSuccessful (jctx : t) : bool :=
  bool_decide (UnschedulableReason jctx = "").
End JobSchedulingContext.

(** [GangSchedulingContext], reduced to the field the round reads. *)
Module GangSchedulingContext.
Record t := mk {
  JobSchedulingContexts : list JobSchedulingContext.t
}.
End GangSchedulingContext.

(** ** Errors and results *)

(** One constructor per [errors.Errorf] / [ErrInvalidArgument] of the file. *)
Inductive error : Type :=
| ErrQueueExists (queue : string)
| ErrAddNoQueue (jobId queue : string)
| ErrEvictNoQueue (jobId queue : string)
| ErrAddAlreadySuccessful (jobId : string)
| ErrAddAlreadyUnsuccessful (jobId : string)
| ErrAddMissingRequirements (jobId : string)
| ErrEvictAlreadyUnsuccessful (jobId : string)
| ErrEvictAlreadyEvicted (jobId : string).

(** The pair [(value, err)] a method returns: [Err e] when [err != nil]. *)
Inductive result (A : Type) : Type :=
| Ok (a : A)
| Err (e : error).
Arguments Ok {A} a.
Arguments Err {A} e.

Definition is_err {A} (r : result A) : bool :=
  match r with Ok _ => false | Err _ => true end.

(** ** The per-queue context *)

Module QueueSchedulingContext.
Import schedulerobjects.

Record t := mk {
  ExecutorId : string;
  Queue : string;
  Weight : Float64.t;
  Limiter : RateLimiter;
  Allocated : gmap string Z;
  AllocatedByPriorityClass : gmap string (gmap string Z);
  ScheduledResourcesByPriorityClass : gmap string (gmap string Z);
  EvictedResourcesByPriorityClass : gmap string (gmap string Z);
  SuccessfulJobSchedulingContexts : gmap string JobSchedulingContext.t;
  UnsuccessfulJobSchedulingContexts : gmap string JobSchedulingContext.t;
  EvictedJobsById : gmap string bool
}.

Definition set_Allocated (v : gmap string Z) (q : t) : t :=
  mk (ExecutorId q) (Queue q) (Weight q) (Limiter q) v
     (AllocatedByPriorityClass q) (ScheduledResourcesByPriorityClass q)
     (EvictedResourcesByPriorityClass q) (SuccessfulJobSchedulingContexts q)
     (UnsuccessfulJobSchedulingContexts q) (EvictedJobsById q).

Definition set_AllocatedByPriorityClass (v : gmap string (gmap string Z)) (q : t) : t :=
  mk (ExecutorId q) (Queue q) (Weight q) (Limiter q) (Allocated q)
     v (ScheduledResourcesByPriorityClass q)
     (EvictedResourcesByPriorityClass q) (SuccessfulJobSchedulingContexts q)
     (UnsuccessfulJobSchedulingContexts q) (EvictedJobsById q).

Definition set_ScheduledResourcesByPriorityClass (v : gmap string (gmap string Z)) (q : t) : t :=
  mk (ExecutorId q) (Queue q) (Weight q) (Limiter q) (Allocated q)
     (AllocatedByPriorityClass q) v
     (EvictedResourcesByPriorityClass q) (SuccessfulJobSchedulingContexts q)
     (UnsuccessfulJobSchedulingContexts q) (EvictedJobsById q).

Definition set_EvictedResourcesByPriorityClass (v : gmap string (gmap string Z)) (q : t) : t :=
  mk (ExecutorId q) (Queue q) (Weight q) (Limiter q) (Allocated q)
     (AllocatedByPriorityClass q) (ScheduledResourcesByPriorityClass q)
     v (SuccessfulJobSchedulingContexts q)
     (UnsuccessfulJobSchedulingContexts q) (EvictedJobsById q).

Definition set_SuccessfulJobSchedulingContexts (v : gmap string JobSchedulingContext.t) (q : t) : t :=
  mk (ExecutorId q) (Queue q) (Weight q) (Limiter q) (Allocated q)
     (AllocatedByPriorityClass q) (ScheduledResourcesByPriorityClass q)
     (EvictedResourcesByPriorityClass q) v
     (UnsuccessfulJobSchedulingContexts q) (EvictedJobsById q).

Definition set_UnsuccessfulJobSchedulingContexts (v : gmap string JobSchedulingContext.t) (q : t) : t :=
  mk (ExecutorId q) (Queue q) (Weight q) (Limiter q) (Allocated q)
     (AllocatedByPriorityClass q) (ScheduledResourcesByPriorityClass q)
     (EvictedResourcesByPriorityClass q) (SuccessfulJobSchedulingContexts q)
     v (EvictedJobsById q).

Definition set_EvictedJobsById (v : gmap string bool) (q : t) : t :=
  mk (ExecutorId q) (Queue q) (Weight q) (Limiter q) (Allocated q)
     (AllocatedByPriorityClass q) (ScheduledResourcesByPriorityClass q)
     (EvictedResourcesByPriorityClass q) (SuccessfulJobSchedulingContexts q)
     (UnsuccessfulJobSchedulingContexts q) v.

(** [_, ok := m[k]] *)
Definition has {V} (m : gmap string V) (k : string) : bool :=
  bool_decide (is_Some (m !! k)).

Definition AddJobSchedulingContext (jctx : JobSchedulingContext.t) (qctx : t)
    : result bool * t :=
  let jobId := JobSchedulingContext.JobId jctx in
  if has (SuccessfulJobSchedulingContexts qctx) jobId then
    (Err (ErrAddAlreadySuccessful jobId), qctx)
  else if has (UnsuccessfulJobSchedulingContexts qctx) jobId then
    (Err (ErrAddAlreadyUnsuccessful jobId), qctx)
  else
    let evictedInThisRound := has (EvictedJobsById qctx) jobId in
    if JobSchedulingContext.IsSuccessful jctx then
      match JobSchedulingContext.PodRequirements jctx with
      | None => (Err (ErrAddMissingRequirements jobId), qctx)
      | Some req =>
        let requests := PodRequirements.Requests req in
        let class := Job.GetPriorityClassName (JobSchedulingContext.Job jctx) in
        let qctx := set_Allocated (AddV1ResourceList (Allocated qctx) requests) qctx in
        let qctx :=
          set_AllocatedByPriorityClass
            (QuantityByTAndResourceType.AddV1ResourceList
               (AllocatedByPriorityClass qctx) class requests) qctx in
        let qctx :=
          if evictedInThisRound then
            let qctx := set_EvictedJobsById (delete jobId (EvictedJobsById qctx)) qctx in
            set_EvictedResourcesByPriorityClass
              (QuantityByTAndResourceType.SubV1ResourceList
                 (EvictedResourcesByPriorityClass qctx) class requests) qctx
          else
            let qctx :=
              set_SuccessfulJobSchedulingContexts
                (<[jobId := jctx]> (SuccessfulJobSchedulingContexts qctx)) qctx in
            set_ScheduledResourcesByPriorityClass
              (QuantityByTAndResourceType.AddV1ResourceList
                 (ScheduledResourcesByPriorityClass qctx) class requests) qctx in
        (Ok evictedInThisRound, qctx)
      end
    else
      let qctx :=
        set_UnsuccessfulJobSchedulingContexts
          (<[jobId := jctx]> (UnsuccessfulJobSchedulingContexts qctx)) qctx in
      (Ok evictedInThisRound, qctx).

Definition EvictJob (job : Job.t) (qctx : t) : result bool * t :=
  let jobId := Job.GetId job in
  if has (UnsuccessfulJobSchedulingContexts qctx) jobId then
    (Err (ErrEvictAlreadyUnsuccessful jobId), qctx)
  else if has (EvictedJobsById qctx) jobId then
    (Err (ErrEvictAlreadyEvicted jobId), qctx)
  else
    let rl := Job.GetRequests job in
    let class := Job.GetPriorityClassName job in
    let scheduledInThisRound := has (SuccessfulJobSchedulingContexts qctx) jobId in
    let qctx :=
      if scheduledInThisRound then
        let qctx :=
          set_ScheduledResourcesByPriorityClass
            (QuantityByTAndResourceType.SubV1ResourceList
               (ScheduledResourcesByPriorityClass qctx) class rl) qctx in
        set_SuccessfulJobSchedulingContexts
          (delete jobId (SuccessfulJobSchedulingContexts qctx)) qctx
      else
        let qctx :=
          set_EvictedResourcesByPriorityClass
            (QuantityByTAndResourceType.AddV1ResourceList
               (EvictedResourcesByPriorityClass qctx) class rl) qctx in
        set_EvictedJobsById (<[jobId := true]> (EvictedJobsById qctx)) qctx in
    let qctx := set_Allocated (SubV1ResourceList (Allocated qctx) rl) qctx in
    let qctx :=
      set_AllocatedByPriorityClass
        (QuantityByTAndResourceType.SubV1ResourceList
           (AllocatedByPriorityClass qctx) class rl) qctx in
    (Ok scheduledInThisRound, qctx).

(** [qctx.AddGangSchedulingContext]: returns at the first error. *)
Fixpoint AddGangSchedulingContext_loop (jctxs : list JobSchedulingContext.t) (qctx : t)
    : result unit * t :=
  match jctxs with
  | [] => (Ok tt, qctx)
  | jctx :: rest =>
    match AddJobSchedulingContext jctx qctx with
    | (Err e, qctx) => (Err e, qctx)
    | (Ok _, qctx) => AddGangSchedulingContext_loop rest qctx
    end
  end.

Definition AddGangSchedulingContext (gctx : GangSchedulingContext.t) (qctx : t)
    : result unit * t :=
  AddGangSchedulingContext_loop (GangSchedulingContext.JobSchedulingContexts gctx) qctx.

End QueueSchedulingContext.

(** ** The round *)

(** [types.PriorityClass], reduced to its priority (an [int32]). *)
Module PriorityClass.
Record t := mk { Priority : Z }.
End PriorityClass.

(** Modelled from the spec: [schedulerobjects.SchedulingKey] and its generator
    are not part of the sources at hand.  The spec describes a key as a
    fingerprint over (node selector, affinity, tolerations, requests,
    priority) that is compared by equality; the key is taken to be that
    tuple. *)
Abbreviation SchedulingKey :=
  (gmap string string * string * list string * gmap string Z * Z)%type (only parsing).

Module SchedulingContext.
Import schedulerobjects.

Record t := mk {
  ExecutorId : string;
  Pool : string;
  PriorityClasses : gmap string PriorityClass.t;
  DefaultPriorityClass : string;
  Limiter : RateLimiter;
  WeightSum : Float64.t;
  QueueSchedulingContexts : gmap string QueueSchedulingContext.t;
  TotalResources : gmap string Z;
  ScheduledResources : gmap string Z;
  ScheduledResourcesByPriorityClass : gmap string (gmap string Z);
  EvictedResources : gmap string Z;
  EvictedResourcesByPriorityClass : gmap string (gmap string Z);
  NumScheduledJobs : Z;
  NumScheduledGangs : Z;
  NumEvictedJobs : Z;
  TerminationReason : string;
  UnfeasibleSchedulingKeys : gmap SchedulingKey JobSchedulingContext.t
}.

Definition set_WeightSum (v : Float64.t) (s : t) : t :=
  mk (ExecutorId s) (Pool s) (PriorityClasses s) (DefaultPriorityClass s) (Limiter s)
     v (QueueSchedulingContexts s) (TotalResources s)
     (ScheduledResources s) (ScheduledResourcesByPriorityClass s)
     (EvictedResources s) (EvictedResourcesByPriorityClass s)
     (NumScheduledJobs s) (NumScheduledGangs s) (NumEvictedJobs s)
     (TerminationReason s) (UnfeasibleSchedulingKeys s).

Definition set_QueueSchedulingContexts (v : gmap string QueueSchedulingContext.t) (s : t) : t :=
  mk (ExecutorId s) (Pool s) (PriorityClasses s) (DefaultPriorityClass s) (Limiter s)
     (WeightSum s) v (TotalResources s)
     (ScheduledResources s) (ScheduledResourcesByPriorityClass s)
     (EvictedResources s) (EvictedResourcesByPriorityClass s)
     (NumScheduledJobs s) (NumScheduledGangs s) (NumEvictedJobs s)
     (TerminationReason s) (UnfeasibleSchedulingKeys s).

Definition set_ScheduledResources (v : gmap string Z) (s : t) : t :=
  mk (ExecutorId s) (Pool s) (PriorityClasses s) (DefaultPriorityClass s) (Limiter s)
     (WeightSum s) (QueueSchedulingContexts s) (TotalResources s)
     v (ScheduledResourcesByPriorityClass s)
     (EvictedResources s) (EvictedResourcesByPriorityClass s)
     (NumScheduledJobs s) (NumScheduledGangs s) (NumEvictedJobs s)
     (TerminationReason s) (UnfeasibleSchedulingKeys s).

Definition set_ScheduledResourcesByPriorityClass (v : gmap string (gmap string Z)) (s : t) : t :=
  mk (ExecutorId s) (Pool s) (PriorityClasses s) (DefaultPriorityClass s) (Limiter s)
     (WeightSum s) (QueueSchedulingContexts s) (TotalResources s)
     (ScheduledResources s) v
     (EvictedResources s) (EvictedResourcesByPriorityClass s)
     (NumScheduledJobs s) (NumScheduledGangs s) (NumEvictedJobs s)
     (TerminationReason s) (UnfeasibleSchedulingKeys s).

Definition set_EvictedResources (v : gmap string Z) (s : t) : t :=
  mk (ExecutorId s) (Pool s) (PriorityClasses s) (DefaultPriorityClass s) (Limiter s)
     (WeightSum s) (QueueSchedulingContexts s) (TotalResources s)
     (ScheduledResources s) (ScheduledResourcesByPriorityClass s)
     v (EvictedResourcesByPriorityClass s)
     (NumScheduledJobs s) (NumScheduledGangs s) (NumEvictedJobs s)
     (TerminationReason s) (UnfeasibleSchedulingKeys s).

Definition set_EvictedResourcesByPriorityClass (v : gmap string (gmap string Z)) (s : t) : t :=
  mk (ExecutorId s) (Pool s) (PriorityClasses s) (DefaultPriorityClass s) (Limiter s)
     (WeightSum s) (QueueSchedulingContexts s) (TotalResources s)
     (ScheduledResources s) (ScheduledResourcesByPriorityClass s)
     (EvictedResources s) v
     (NumScheduledJobs s) (NumScheduledGangs s) (NumEvictedJobs s)
     (TerminationReason s) (UnfeasibleSchedulingKeys s).

Definition set_NumScheduledJobs (v : Z) (s : t) : t :=
  mk (ExecutorId s) (Pool s) (PriorityClasses s) (DefaultPriorityClass s) (Limiter s)
     (WeightSum s) (QueueSchedulingContexts s) (TotalResources s)
     (ScheduledResources s) (ScheduledResourcesByPriorityClass s)
     (EvictedResources s) (EvictedResourcesByPriorityClass s)
     v (NumScheduledGangs s) (NumEvictedJobs s)
     (TerminationReason s) (UnfeasibleSchedulingKeys s).

Definition set_NumScheduledGangs (v : Z) (s : t) : t :=
  mk (ExecutorId s) (Pool s) (PriorityClasses s) (DefaultPriorityClass s) (Limiter s)
     (WeightSum s) (QueueSchedulingContexts s) (TotalResources s)
     (ScheduledResources s) (ScheduledResourcesByPriorityClass s)
     (EvictedResources s) (EvictedResourcesByPriorityClass s)
     (NumScheduledJobs s) v (NumEvictedJobs s)
     (TerminationReason s) (UnfeasibleSchedulingKeys s).

Definition set_NumEvictedJobs (v : Z) (s : t) : t :=
  mk (ExecutorId s) (Pool s) (PriorityClasses s) (DefaultPriorityClass s) (Limiter s)
     (WeightSum s) (QueueSchedulingContexts s) (TotalResources s)
     (ScheduledResources s) (ScheduledResourcesByPriorityClass s)
     (EvictedResources s) (EvictedResourcesByPriorityClass s)
     (NumScheduledJobs s) (NumScheduledGangs s) v
     (TerminationReason s) (UnfeasibleSchedulingKeys s).

Definition set_UnfeasibleSchedulingKeys (v : gmap SchedulingKey JobSchedulingContext.t) (s : t) : t :=
  mk (ExecutorId s) (Pool s) (PriorityClasses s) (DefaultPriorityClass s) (Limiter s)
     (WeightSum s) (QueueSchedulingContexts s) (TotalResources s)
     (ScheduledResources s) (ScheduledResourcesByPriorityClass s)
     (EvictedResources s) (EvictedResourcesByPriorityClass s)
     (NumScheduledJobs s) (NumScheduledGangs s) (NumEvictedJobs s)
     (TerminationReason s) v.

Definition NewSchedulingContext (executorId pool : string)
    (priorityClasses : gmap string PriorityClass.t) (defaultPriorityClass : string)
    (limiter : RateLimiter) (totalResources : gmap string Z) : t :=
  {| ExecutorId := executorId;
     Pool := pool;
     PriorityClasses := priorityClasses;
     DefaultPriorityClass := defaultPriorityClass;
     Limiter := limiter;
     WeightSum := Float64.zero;
     QueueSchedulingContexts := ∅;
     TotalResources := totalResources;
     ScheduledResources := NewResourceListWithDefaultSize;
     ScheduledResourcesByPriorityClass := ∅;
     EvictedResources := ∅;
     EvictedResourcesByPriorityClass := ∅;
     NumScheduledJobs := 0;
     NumScheduledGangs := 0;
     NumEvictedJobs := 0;
     TerminationReason := "";
     UnfeasibleSchedulingKeys := ∅ |}.

Definition SchedulingKeyFromLegacySchedulerJob (sctx : t) (job : Job.t) : SchedulingKey :=
  let priority :=
    match PriorityClasses sctx !! Job.GetPriorityClassName job with
    | Some priorityClass => PriorityClass.Priority priorityClass
    | None => 0
    end in
  (Job.GetNodeSelector job, Job.GetAffinity job, Job.GetTolerations job,
   Job.GetRequests job, priority).

Definition ClearUnfeasibleSchedulingKeys (sctx : t) : t :=
  set_UnfeasibleSchedulingKeys ∅ sctx.

(** The caller's [sctx.UnfeasibleSchedulingKeys[key] = jctx]. *)
Definition InsertUnfeasibleSchedulingKey (key : SchedulingKey)
    (jctx : JobSchedulingContext.t) (sctx : t) : t :=
  set_UnfeasibleSchedulingKeys (<[key := jctx]> (UnfeasibleSchedulingKeys sctx)) sctx.

Definition AddQueueSchedulingContext (queue : string) (weight : Float64.t)
    (initialAllocatedByPriorityClass : option (gmap string (gmap string Z)))
    (limiter : RateLimiter) (sctx : t) : result unit * t :=
  if QueueSchedulingContext.has (QueueSchedulingContexts sctx) queue then
    (Err (ErrQueueExists queue), sctx)
  else
    let initialAllocatedByPriorityClass :=
      match initialAllocatedByPriorityClass with
      | None => ∅
      | Some m => QuantityByTAndResourceType.DeepCopy m
      end in
    let allocated := QuantityByTAndResourceType.sum initialAllocatedByPriorityClass in
    let sctx := set_WeightSum (Float64.add (WeightSum sctx) weight) sctx in
    let qctx :=
      {| QueueSchedulingContext.ExecutorId := ExecutorId sctx;
         QueueSchedulingContext.Queue := queue;
         QueueSchedulingContext.Weight := weight;
         QueueSchedulingContext.Limiter := limiter;
         QueueSchedulingContext.Allocated := allocated;
         QueueSchedulingContext.AllocatedByPriorityClass := initialAllocatedByPriorityClass;
         QueueSchedulingContext.ScheduledResourcesByPriorityClass := ∅;
         QueueSchedulingContext.EvictedResourcesByPriorityClass := ∅;
         QueueSchedulingContext.SuccessfulJobSchedulingContexts := ∅;
         QueueSchedulingContext.UnsuccessfulJobSchedulingContexts := ∅;
         QueueSchedulingContext.EvictedJobsById := ∅ |} in
    (Ok tt, set_QueueSchedulingContexts (<[queue := qctx]> (QueueSchedulingContexts sctx)) sctx).

Definition GetQueue (sctx : t) (queue : string) : option QueueSchedulingContext.t :=
  QueueSchedulingContexts sctx !! queue.

Definition AddJobSchedulingContext (jctx : JobSchedulingContext.t) (sctx : t)
    : result bool * t :=
  let job := JobSchedulingContext.Job jctx in
  match QueueSchedulingContexts sctx !! Job.GetQueue job with
  | None => (Err (ErrAddNoQueue (JobSchedulingContext.JobId jctx) (Job.GetQueue job)), sctx)
  | Some qctx =>
    let '(r, qctx) := QueueSchedulingContext.AddJobSchedulingContext jctx qctx in
    let sctx :=
      set_QueueSchedulingContexts (<[Job.GetQueue job := qctx]> (QueueSchedulingContexts sctx)) sctx in
    match r with
    | Err e => (Err e, sctx)
    | Ok evictedInThisRound =>
      let sctx :=
        if JobSchedulingContext.IsSuccessful jctx then
          (* The queue context has rejected a successful decision without
             pod requirements, so [None] does not occur here. *)
          let requests :=
            match JobSchedulingContext.PodRequirements jctx with
            | Some req => PodRequirements.Requests req
            | None => ∅
            end in
          if evictedInThisRound then
            let sctx := set_EvictedResources (SubV1ResourceList (EvictedResources sctx) requests) sctx in
            let sctx :=
              set_EvictedResourcesByPriorityClass
                (QuantityByTAndResourceType.SubV1ResourceList
                   (EvictedResourcesByPriorityClass sctx) (Job.GetPriorityClassName job) requests) sctx in
            set_NumEvictedJobs (GoInt.decr (NumEvictedJobs sctx)) sctx
          else
            let sctx := set_ScheduledResources (AddV1ResourceList (ScheduledResources sctx) requests) sctx in
            let sctx :=
              set_ScheduledResourcesByPriorityClass
                (QuantityByTAndResourceType.AddV1ResourceList
                   (ScheduledResourcesByPriorityClass sctx) (Job.GetPriorityClassName job) requests) sctx in
            set_NumScheduledJobs (GoInt.incr (NumScheduledJobs sctx)) sctx
        else sctx in
      (Ok evictedInThisRound, sctx)
    end
  end.

Fixpoint AddGangSchedulingContext_loop (jctxs : list JobSchedulingContext.t)
    (allJobsEvictedInThisRound allJobsSuccessful : bool) (sctx : t)
    : result (bool * bool) * t :=
  match jctxs with
  | [] => (Ok (allJobsEvictedInThisRound, allJobsSuccessful), sctx)
  | jctx :: rest =>
    match AddJobSchedulingContext jctx sctx with
    | (Err e, sctx) => (Err e, sctx)
    | (Ok evictedInThisRound, sctx) =>
      AddGangSchedulingContext_loop rest
        (allJobsEvictedInThisRound && evictedInThisRound)
        (allJobsSuccessful && JobSchedulingContext.IsSuccessful jctx) sctx
    end
  end.

Definition AddGangSchedulingContext (gctx : GangSchedulingContext.t) (sctx : t)
    : result bool * t :=
  match AddGangSchedulingContext_loop
          (GangSchedulingContext.JobSchedulingContexts gctx) true true sctx with
  | (Err e, sctx) => (Err e, sctx)
  | (Ok (allJobsEvictedInThisRound, allJobsSuccessful), sctx) =>
    let sctx :=
      if allJobsSuccessful && negb allJobsEvictedInThisRound
      then set_NumScheduledGangs (GoInt.incr (NumScheduledGangs sctx)) sctx
      else sctx in
    (Ok allJobsEvictedInThisRound, sctx)
  end.

Definition EvictJob (job : Job.t) (sctx : t) : result bool * t :=
  match QueueSchedulingContexts sctx !! Job.GetQueue job with
  | None => (Err (ErrEvictNoQueue (Job.GetId job) (Job.GetQueue job)), sctx)
  | Some qctx =>
    let '(r, qctx) := QueueSchedulingContext.EvictJob job qctx in
    let sctx :=
      set_QueueSchedulingContexts (<[Job.GetQueue job := qctx]> (QueueSchedulingContexts sctx)) sctx in
    match r with
    | Err e => (Err e, sctx)
    | Ok scheduledInThisRound =>
      let rl := Job.GetRequests job in
      let sctx :=
        if scheduledInThisRound then
          let sctx := set_ScheduledResources (SubV1ResourceList (ScheduledResources sctx) rl) sctx in
          let sctx :=
            set_ScheduledResourcesByPriorityClass
              (QuantityByTAndResourceType.SubV1ResourceList
                 (ScheduledResourcesByPriorityClass sctx) (Job.GetPriorityClassName job) rl) sctx in
          set_NumScheduledJobs (GoInt.decr (NumScheduledJobs sctx)) sctx
        else
          let sctx := set_EvictedResources (AddV1ResourceList (EvictedResources sctx) rl) sctx in
          let sctx :=
            set_EvictedResourcesByPriorityClass
              (QuantityByTAndResourceType.AddV1ResourceList
                 (EvictedResourcesByPriorityClass sctx) (Job.GetPriorityClassName job) rl) sctx in
          set_NumEvictedJobs (GoInt.incr (NumEvictedJobs sctx)) sctx in
      (Ok scheduledInThisRound, sctx)
    end
  end.

Fixpoint EvictGang_loop (jobs : list Job.t) (allJobsScheduledInThisRound : bool) (sctx : t)
    : result bool * t :=
  match jobs with
  | [] => (Ok allJobsScheduledInThisRound, sctx)
  | job :: rest =>
    match EvictJob job sctx with
    | (Err e, sctx) => (Err e, sctx)
    | (Ok scheduledInThisRound, sctx) =>
      EvictGang_loop rest (allJobsScheduledInThisRound && scheduledInThisRound) sctx
    end
  end.

Definition EvictGang (jobs : list Job.t) (sctx : t) : result bool * t :=
  match EvictGang_loop jobs true sctx with
  | (Err e, sctx) => (Err e, sctx)
  | (Ok allJobsScheduledInThisRound, sctx) =>
    let sctx :=
      if allJobsScheduledInThisRound
      then set_NumScheduledGangs (GoInt.decr (NumScheduledGangs sctx)) sctx
      else sctx in
    (Ok allJobsScheduledInThisRound, sctx)
  end.

(** [AllocatedByQueueAndPriority]: the method reads the round and builds a
    fresh map; the round it leaves behind is returned next to that map. *)
Definition AllocatedByQueueAndPriority (sctx : t)
    : gmap string (gmap string (gmap string Z)) * t :=
  let rv :=
    map_fold
      (λ queue qctx rv,
         if negb (QuantityByTAndResourceType.IsZero
                    (QueueSchedulingContext.AllocatedByPriorityClass qctx))
         then <[queue := QuantityByTAndResourceType.DeepCopy
                           (QueueSchedulingContext.AllocatedByPriorityClass qctx)]> rv
         else rv)
      ∅ (QueueSchedulingContexts sctx) in
  (rv, sctx).

End SchedulingContext.

(** The quantity of one resource summed over the entries of a table. *)
Definition total (a : gmap string (gmap string Z)) (t : string) : Z :=
  map_fold (λ _ rl acc, schedulerobjects.Get rl t + acc) 0 a.

(** ** Sequences of public operations *)

Inductive operation : Type :=
| OpAddQueueSchedulingContext (queue : string) (weight : Float64.t)
    (initialAllocatedByPriorityClass : option (gmap string (gmap string Z)))
    (limiter : RateLimiter)
| OpAddGangSchedulingContext (gctx : GangSchedulingContext.t)
| OpAddJobSchedulingContext (jctx : JobSchedulingContext.t)
| OpEvictGang (jobs : list Job.t)
| OpEvictJob (job : Job.t)
| OpInsertUnfeasibleSchedulingKey (key : SchedulingKey) (jctx : JobSchedulingContext.t)
| OpClearUnfeasibleSchedulingKeys.

(** The round a call leaves behind, whatever it returned. *)
Definition step (sctx : SchedulingContext.t) (o : operation) : SchedulingContext.t :=
  match o with
  | OpAddQueueSchedulingContext queue weight initial limiter =>
      (SchedulingContext.AddQueueSchedulingContext queue weight initial limiter sctx).2
  | OpAddGangSchedulingContext gctx => (SchedulingContext.AddGangSchedulingContext gctx sctx).2
  | OpAddJobSchedulingContext jctx => (SchedulingContext.AddJobSchedulingContext jctx sctx).2
  | OpEvictGang jobs => (SchedulingContext.EvictGang jobs sctx).2
  | OpEvictJob job => (SchedulingContext.EvictJob job sctx).2
  | OpInsertUnfeasibleSchedulingKey key jctx =>
      SchedulingContext.InsertUnfeasibleSchedulingKey key jctx sctx
  | OpClearUnfeasibleSchedulingKeys => SchedulingContext.ClearUnfeasibleSchedulingKeys sctx
  end.

Definition run (ops : list operation) (sctx : SchedulingContext.t) : SchedulingContext.t :=
  fold_left step ops sctx.

(** Whether the call returned an error. *)
Definition fails (sctx : SchedulingContext.t) (o : operation) : bool :=
  match o with
  | OpAddQueueSchedulingContext queue weight initial limiter =>
      is_err (SchedulingContext.AddQueueSchedulingContext queue weight initial limiter sctx).1
  | OpAddGangSchedulingContext gctx => is_err (SchedulingContext.AddGangSchedulingContext gctx sctx).1
  | OpAddJobSchedulingContext jctx => is_err (SchedulingContext.AddJobSchedulingContext jctx sctx).1
  | OpEvictGang jobs => is_err (SchedulingContext.EvictGang jobs sctx).1
  | OpEvictJob job => is_err (SchedulingContext.EvictJob job sctx).1
  | OpInsertUnfeasibleSchedulingKey _ _ => false
  | OpClearUnfeasibleSchedulingKeys => false
  end.

Module Scenario.

Definition cpu_mem (cpu memory : Z) : gmap string Z :=
  <["cpu" := cpu]> (<["memory" := memory]> ∅).

Definition job (id queue class : string) (requests : gmap string Z) : Job.t :=
  Job.mk id queue class ∅ "" [] requests ∅.

(** A successful decision for [j], as [JobSchedulingContextsFromJobs] builds it. *)
Definition scheduled (j : Job.t) : JobSchedulingContext.t :=
  JobSchedulingContext.mk (Job.GetId j) j
    (Some (PodRequirements.mk (Job.GetRequests j) ∅)) "".

Definition unschedulable (j : Job.t) (reason : string) : JobSchedulingContext.t :=
  JobSchedulingContext.mk (Job.GetId j) j
    (Some (PodRequirements.mk (Job.GetRequests j) ∅)) reason.

Definition round0 : SchedulingContext.t :=
  SchedulingContext.NewSchedulingContext "executor" "pool"
    (<["p1" := PriorityClass.mk 1]> ∅) "p1" None (cpu_mem 10 100).

Definition j1 : Job.t := job "j1" "A" "p1" (cpu_mem 2 20).
Definition j2 : Job.t := job "j2" "B" "p1" (cpu_mem 5 50).
Definition j3 : Job.t := job "j3" "A" "p1" (cpu_mem 1 10).
Definition j4 : Job.t := job "j4" "A" "p1" (cpu_mem 1 10).
Definition j5 : Job.t := job "j5" "C" "p1" (cpu_mem 1 10).

(** The weights 1.0 and 2.0. *)
Definition one : Float64.t := S754_finite false 4503599627370496 (-52).
Definition two : Float64.t := S754_finite false 4503599627370496 (-51).

Definition registerA : operation := OpAddQueueSchedulingContext "A" one None None.
Definition registerB : operation :=
  OpAddQueueSchedulingContext "B" two (Some (<["p1" := cpu_mem 5 50]> ∅)) None.

End Scenario.

(** ** Stating the properties *)

Module Q := QueueSchedulingContext.
Module S := SchedulingContext.
Module J := JobSchedulingContext.
Module QBT := QuantityByTAndResourceType.

(** The fields that applying or evicting a job never writes. *)
Definition same_frame (sctx sctx' : S.t) : Prop :=
  S.NumScheduledGangs sctx' = S.NumScheduledGangs sctx ∧
  S.UnfeasibleSchedulingKeys sctx' = S.UnfeasibleSchedulingKeys sctx ∧
  S.WeightSum sctx' = S.WeightSum sctx ∧
  S.TotalResources sctx' = S.TotalResources sctx ∧
  S.PriorityClasses sctx' = S.PriorityClasses sctx.

(** Whether the job of a decision is in the evicted set of its queue. *)
Definition in_evicted_set (sctx : S.t) (jctx : J.t) : bool :=
  match S.QueueSchedulingContexts sctx !! Job.GetQueue (J.Job jctx) with
  | Some qctx => Q.has (Q.EvictedJobsById qctx) (J.JobId jctx)
  | None => false
  end.

(** For each member of a gang, whether its job was in the evicted set of its
    queue at entry, that is, when the application of that member started: the
    members are applied in order, each to the round the members before it
    left. *)
Fixpoint evicted_at_entry (sctx : S.t) (jctxs : list J.t) : list bool :=
  match jctxs with
  | [] => []
  | jctx :: rest =>
      in_evicted_set sctx jctx
      :: evicted_at_entry (S.AddJobSchedulingContext jctx sctx).2 rest
  end.

(** The condition under which a gang is counted: every decision is successful
    and at least one job was not in the evicted set of its queue at entry. *)
Definition counts_as_scheduled_gang (sctx : S.t) (gctx : GangSchedulingContext.t) : bool :=
  forallb J.IsSuccessful (GangSchedulingContext.JobSchedulingContexts gctx)
  && existsb negb (evicted_at_entry sctx (GangSchedulingContext.JobSchedulingContexts gctx)).

(** The queue and job id under which a decision is filed. *)
Definition filed_under (jctx : J.t) : string * string :=
  (Job.GetQueue (J.Job jctx), J.JobId jctx).

(** [P] holds of every queue context of the round. *)
Definition every_queue (P : Q.t → Prop) (sctx : S.t) : Prop :=
  map_Forall (λ _ qctx, P qctx) (S.QueueSchedulingContexts sctx).

(** The three decision sets have pairwise disjoint keys. *)
Definition decision_sets_disjoint (qctx : Q.t) : Prop :=
  dom (Q.SuccessfulJobSchedulingContexts qctx) ## dom (Q.UnsuccessfulJobSchedulingContexts qctx) ∧
  dom (Q.SuccessfulJobSchedulingContexts qctx) ## dom (Q.EvictedJobsById qctx) ∧
  dom (Q.UnsuccessfulJobSchedulingContexts qctx) ## dom (Q.EvictedJobsById qctx).

(** The successful set shares no key with either of the other two sets. *)
Definition successful_set_apart (qctx : Q.t) : Prop :=
  dom (Q.SuccessfulJobSchedulingContexts qctx) ## dom (Q.UnsuccessfulJobSchedulingContexts qctx) ∧
  dom (Q.SuccessfulJobSchedulingContexts qctx) ## dom (Q.EvictedJobsById qctx).

(** [Allocated] is the sum of the entries of [AllocatedByPriorityClass]. *)
Definition allocated_is_sum (qctx : Q.t) : Prop :=
  schedulerobjects.Equal (Q.Allocated qctx) (QBT.sum (Q.AllocatedByPriorityClass qctx)).

(** No key in the cache is the scheduling key of a job whose decision is
    stored as successful in some queue of the round. *)
Definition cache_avoids_successful (sctx : S.t) : Prop :=
  ∀ queue qctx id jctx,
    S.QueueSchedulingContexts sctx !! queue = Some qctx →
    Q.SuccessfulJobSchedulingContexts qctx !! id = Some jctx →
    S.UnfeasibleSchedulingKeys sctx
      !! S.SchedulingKeyFromLegacySchedulerJob sctx (J.Job jctx) = None.

(** What the caller's insertions and clearings alone do to the cache. *)
Definition cache_step (cache : gmap SchedulingKey J.t) (o : operation)
    : gmap SchedulingKey J.t :=
  match o with
  | OpInsertUnfeasibleSchedulingKey key jctx => <[key := jctx]> cache
  | OpClearUnfeasibleSchedulingKeys => ∅
  | _ => cache
  end.

(** ** Building decisions and gangs, reading a round *)

(** [GangSchedulingContext] with all its fields but [Created];
    [GangSchedulingContext.t] above is its [JobSchedulingContexts]. *)
Module Gang.
Record t := mk {
  Queue : string;
  PriorityClassName : string;
  JobSchedulingContexts : list JobSchedulingContext.t;
  TotalResourceRequests : gmap string Z;
  AllJobsEvicted : bool;
  NodeUniformityLabel : string
}.

(** [gctx.Cardinality()] *)
Definition Cardinality (gctx : t) : Z :=
  Z.of_nat (length (JobSchedulingContexts gctx)).
End Gang.

Section constructors.

(** The string constants [configuration.GangNodeUniformityLabelAnnotation]
    and [schedulerconfig.IsEvictedAnnotation], and the method
    [GetPodRequirements] of a job handle, belong to packages that are not at
    hand. *)
Variable GangNodeUniformityLabelAnnotation : string.
Variable IsEvictedAnnotation : string.
Variable GetPodRequirements :
  gmap string PriorityClass.t → Job.t → option PodRequirements.t.

Definition isEvictedJob (job : Job.t) : bool :=
  bool_decide (default "" (Job.GetAnnotations job !! IsEvictedAnnotation) = "true").

(** The loop of [NewGangSchedulingContext].  It reads
    [jctx.PodRequirements.ResourceRequirements.Requests] without testing the
    pointer: [None] is the nil dereference that stops the program. *)
Fixpoint NewGangSchedulingContext_loop (jctxs : list JobSchedulingContext.t)
    (allJobsEvicted : bool) (totalResourceRequests : gmap string Z)
    : option (bool * gmap string Z) :=
  match jctxs with
  | [] => Some (allJobsEvicted, totalResourceRequests)
  | jctx :: rest =>
    match JobSchedulingContext.PodRequirements jctx with
    | None => None
    | Some req =>
      NewGangSchedulingContext_loop rest
        (allJobsEvicted && isEvictedJob (JobSchedulingContext.Job jctx))
        (schedulerobjects.AddV1ResourceList totalResourceRequests
           (PodRequirements.Requests req))
    end
  end.

Definition NewGangSchedulingContext (jctxs : list JobSchedulingContext.t)
    : option Gang.t :=
  let '(queue, priorityClassName, nodeUniformityLabel) :=
    match jctxs with
    | [] => ("", "", "")
    | jctx0 :: _ =>
      (Job.GetQueue (JobSchedulingContext.Job jctx0),
       Job.GetPriorityClassName (JobSchedulingContext.Job jctx0),
       match JobSchedulingContext.PodRequirements jctx0 with
       | Some req =>
           default "" (PodRequirements.Annotations req !! GangNodeUniformityLabelAnnotation)
       | None => ""
       end)
    end in
  match NewGangSchedulingContext_loop jctxs true ∅ with
  | None => None
  | Some (allJobsEvicted, totalResourceRequests) =>
    Some {| Gang.Queue := queue;
            Gang.PriorityClassName := priorityClassName;
            Gang.JobSchedulingContexts := jctxs;
            Gang.TotalResourceRequests := totalResourceRequests;
            Gang.AllJobsEvicted := allJobsEvicted;
            Gang.NodeUniformityLabel := nodeUniformityLabel |}
  end.

Definition JobSchedulingContextsFromJobs (priorityClasses : gmap string PriorityClass.t)
    (jobs : list Job.t) : list JobSchedulingContext.t :=
  (λ job, {| JobSchedulingContext.JobId := Job.GetId job;
             JobSchedulingContext.Job := job;
             JobSchedulingContext.PodRequirements := GetPodRequirements priorityClasses job;
             JobSchedulingContext.UnschedulableReason := "" |}) <$> jobs.

End constructors.

(** [sctx.SuccessfulJobSchedulingContexts()]: the successful decisions of
    all queues, appended queue by queue.  Go visits the entries of a map in
    no particular order; the order of the list is that of the model's maps. *)
Definition SuccessfulJobSchedulingContexts (sctx : SchedulingContext.t)
    : list JobSchedulingContext.t :=
  map_fold
    (λ _ qctx jctxs,
       map_fold (λ _ jctx jctxs, jctxs ++ [jctx]) jctxs
         (QueueSchedulingContext.SuccessfulJobSchedulingContexts qctx))
    [] (SchedulingContext.QueueSchedulingContexts sctx).

(** [qctx.GetWeight()] *)
Definition GetWeight (qctx : QueueSchedulingContext.t) : Float64.t :=
  QueueSchedulingContext.Weight qctx.

(** ** Stating further properties *)

(** The sum of [g] over the values of a map. *)
Definition map_sum {V} (g : V → Z) (m : gmap string V) : Z :=
  map_fold (λ _ v acc, g v + acc) 0 m.

(** Whether a job is in the successful set of its queue. *)
Definition in_successful_set (sctx : SchedulingContext.t) (job : Job.t) : bool :=
  match SchedulingContext.QueueSchedulingContexts sctx !! Job.GetQueue job with
  | Some qctx =>
      QueueSchedulingContext.has
        (QueueSchedulingContext.SuccessfulJobSchedulingContexts qctx) (Job.GetId job)
  | None => false
  end.

(** The queue and id of a job. *)
Definition job_filed_under (job : Job.t) : string * string :=
  (Job.GetQueue job, Job.GetId job).

(** The job counts of the round are the sizes of the successful and of the
    evicted sets, summed over the queues, as Go [int]s. *)
Definition job_counts_match (sctx : SchedulingContext.t) : Prop :=
  SchedulingContext.NumScheduledJobs sctx
  = GoInt.wrap (map_sum (λ qctx, Z.of_nat (size (QueueSchedulingContext.SuccessfulJobSchedulingContexts qctx)))
                  (SchedulingContext.QueueSchedulingContexts sctx)) ∧
  SchedulingContext.NumEvictedJobs sctx
  = GoInt.wrap (map_sum (λ qctx, Z.of_nat (size (QueueSchedulingContext.EvictedJobsById qctx)))
                  (SchedulingContext.QueueSchedulingContexts sctx)).

(** The scheduled and evicted resources of the round are those of the
    queues, summed: in total, and class by class. *)
Definition round_sums_match (sctx : SchedulingContext.t) : Prop :=
  (∀ t, schedulerobjects.Get (SchedulingContext.ScheduledResources sctx) t
        = map_sum (λ qctx, total (QueueSchedulingContext.ScheduledResourcesByPriorityClass qctx) t)
            (SchedulingContext.QueueSchedulingContexts sctx)) ∧
  (∀ t, schedulerobjects.Get (SchedulingContext.EvictedResources sctx) t
        = map_sum (λ qctx, total (QueueSchedulingContext.EvictedResourcesByPriorityClass qctx) t)
            (SchedulingContext.QueueSchedulingContexts sctx)) ∧
  (∀ c t, schedulerobjects.Get
            (QuantityByTAndResourceType.at_
               (SchedulingContext.ScheduledResourcesByPriorityClass sctx) c) t
          = map_sum (λ qctx, schedulerobjects.Get
                               (QuantityByTAndResourceType.at_
                                  (QueueSchedulingContext.ScheduledResourcesByPriorityClass qctx) c) t)
              (SchedulingContext.QueueSchedulingContexts sctx)) ∧
  (∀ c t, schedulerobjects.Get
            (QuantityByTAndResourceType.at_
               (SchedulingContext.EvictedResourcesByPriorityClass sctx) c) t
          = map_sum (λ qctx, schedulerobjects.Get
                               (QuantityByTAndResourceType.at_
                                  (QueueSchedulingContext.EvictedResourcesByPriorityClass qctx) c) t)
              (SchedulingContext.QueueSchedulingContexts sctx)).

(** The totals of the round are the sums of its own per-class tables. *)
Definition round_totals_match (sctx : SchedulingContext.t) : Prop :=
  (∀ t, schedulerobjects.Get (SchedulingContext.ScheduledResources sctx) t
        = total (SchedulingContext.ScheduledResourcesByPriorityClass sctx) t) ∧
  (∀ t, schedulerobjects.Get (SchedulingContext.EvictedResources sctx) t
        = total (SchedulingContext.EvictedResourcesByPriorityClass sctx) t).

(** What a queue has allocated in a class, less what was scheduled and plus
    what was evicted in this round. *)
Definition balance (qctx : QueueSchedulingContext.t) (c t : string) : Z :=
  schedulerobjects.Get
    (QuantityByTAndResourceType.at_ (QueueSchedulingContext.AllocatedByPriorityClass qctx) c) t
  - schedulerobjects.Get
      (QuantityByTAndResourceType.at_
         (QueueSchedulingContext.ScheduledResourcesByPriorityClass qctx) c) t
  + schedulerobjects.Get
      (QuantityByTAndResourceType.at_
         (QueueSchedulingContext.EvictedResourcesByPriorityClass qctx) c) t.

(** Two states of one queue context in a round. *)
Definition same_queue (qctx qctx' : QueueSchedulingContext.t) : Prop :=
  QueueSchedulingContext.Queue qctx' = QueueSchedulingContext.Queue qctx ∧
  QueueSchedulingContext.ExecutorId qctx' = QueueSchedulingContext.ExecutorId qctx ∧
  QueueSchedulingContext.Weight qctx' = QueueSchedulingContext.Weight qctx ∧
  QueueSchedulingContext.Limiter qctx' = QueueSchedulingContext.Limiter qctx ∧
  ∀ c t, balance qctx' c t = balance qctx c t.

(** A queue context carries the name it is registered under and the
    executor of the round, every stored decision is filed under its own job
    id, the successful set holds successful decisions with pod requirements,
    the unsuccessful set holds unsuccessful ones, and the evicted set maps to
    [true] only.  The [Job] field of a stored decision is not read. *)
Definition queue_well_filed (queue executorId : string) (qctx : QueueSchedulingContext.t)
    : Prop :=
  QueueSchedulingContext.Queue qctx = queue ∧
  QueueSchedulingContext.ExecutorId qctx = executorId ∧
  (∀ id jctx,
     QueueSchedulingContext.SuccessfulJobSchedulingContexts qctx !! id = Some jctx →
     JobSchedulingContext.JobId jctx = id ∧
     JobSchedulingContext.IsSuccessful jctx = true ∧
     is_Some (JobSchedulingContext.PodRequirements jctx)) ∧
  (∀ id jctx,
     QueueSchedulingContext.UnsuccessfulJobSchedulingContexts qctx !! id = Some jctx →
     JobSchedulingContext.JobId jctx = id ∧
     JobSchedulingContext.IsSuccessful jctx = false) ∧
  (∀ id v, QueueSchedulingContext.EvictedJobsById qctx !! id = Some v → v = true).

Definition well_filed (sctx : SchedulingContext.t) : Prop :=
  ∀ queue qctx,
    SchedulingContext.QueueSchedulingContexts sctx !! queue = Some qctx →
    queue_well_filed queue (SchedulingContext.ExecutorId sctx) qctx.

(** The queues whose contexts a call may write. *)
Definition written_queues (o : operation) : list string :=
  match o with
  | OpAddQueueSchedulingContext queue _ _ _ => [queue]
  | OpAddGangSchedulingContext gctx =>
      (λ jctx, Job.GetQueue (JobSchedulingContext.Job jctx))
        <$> GangSchedulingContext.JobSchedulingContexts gctx
  | OpAddJobSchedulingContext jctx => [Job.GetQueue (JobSchedulingContext.Job jctx)]
  | OpEvictGang jobs => Job.GetQueue <$> jobs
  | OpEvictJob job => [Job.GetQueue job]
  | OpInsertUnfeasibleSchedulingKey _ _ => []
  | OpClearUnfeasibleSchedulingKeys => []
  end.

(** The weights of the registrations that are accepted, in order, when the
    names in [registered] are taken. *)
Fixpoint accepted_weights (registered : gset string) (ops : list operation)
    : list Float64.t :=
  match ops with
  | [] => []
  | OpAddQueueSchedulingContext queue weight _ _ :: rest =>
      if decide (queue ∈ registered) then accepted_weights registered rest
      else weight :: accepted_weights ({[queue]} ∪ registered) rest
  | _ :: rest => accepted_weights registered rest
  end.

(** The names that a sequence of operations asks to register. *)
Fixpoint requested_names (ops : list operation) : gset string :=
  match ops with
  | [] => ∅
  | OpAddQueueSchedulingContext queue _ _ _ :: rest => {[queue]} ∪ requested_names rest
  | _ :: rest => requested_names rest
  end.

(** The queue and job id of every job that a call is asked to evict. *)
Definition evicted_jobs (o : operation) : list (string * string) :=
  match o with
  | OpEvictGang jobs => job_filed_under <$> jobs
  | OpEvictJob job => [job_filed_under job]
  | _ => []
  end.

(** The queue [key.1] is registered and holds a decision for the job id
    [key.2] in its successful set. *)
Definition stored_as_successful (key : string * string) (sctx : SchedulingContext.t) : Prop :=
  ∃ qctx,
    SchedulingContext.QueueSchedulingContexts sctx !! key.1 = Some qctx ∧
    is_Some (QueueSchedulingContext.SuccessfulJobSchedulingContexts qctx !! key.2).

(** The queue [key.1] is registered and holds a decision for the job id
    [key.2] in its unsuccessful set and none in its successful set. *)
Definition stored_as_unsuccessful (key : string * string) (sctx : SchedulingContext.t) : Prop :=
  ∃ qctx,
    SchedulingContext.QueueSchedulingContexts sctx !! key.1 = Some qctx ∧
    is_Some (QueueSchedulingContext.UnsuccessfulJobSchedulingContexts qctx !! key.2) ∧
    QueueSchedulingContext.SuccessfulJobSchedulingContexts qctx !! key.2 = None.

(** ** Machine integers *)

Lemma incr_in_range n :
  GoInt.min_int <= n < GoInt.max_int → GoInt.incr n = n + 1.
Proof.
  unfold GoInt.incr, GoInt.wrap, GoInt.min_int, GoInt.max_int. intros H.
  rewrite Z.mod_small; lia.
Qed.

Lemma decr_in_range n :
  GoInt.min_int < n <= GoInt.max_int → GoInt.decr n = n - 1.
Proof.
  unfold GoInt.decr, GoInt.wrap, GoInt.min_int, GoInt.max_int. intros H.
  rewrite Z.mod_small; lia.
Qed.

Lemma decr_incr n : GoInt.in_range n → GoInt.decr (GoInt.incr n) = n.
Proof.
  intros [Hlo Hhi]. destruct (decide (n = GoInt.max_int)) as [->|Hne].
  - reflexivity.
  - rewrite incr_in_range by lia. rewrite decr_in_range; [lia|].
    unfold GoInt.min_int, GoInt.max_int in *. lia.
Qed.

(** ** Resource arithmetic *)

Section resource_arithmetic.
Import schedulerobjects.
Implicit Types (rl other : gmap string Z) (a : gmap string (gmap string Z)).

Lemma Get_AddV1ResourceList rl other t :
  Get (AddV1ResourceList rl other) t = Get rl t + Get other t.
Proof.
  unfold Get, AddV1ResourceList. rewrite lookup_merge.
  destruct (rl !! t), (other !! t); simpl; lia.
Qed.

Lemma Get_SubV1ResourceList rl other t :
  Get (SubV1ResourceList rl other) t = Get rl t - Get other t.
Proof.
  unfold Get, SubV1ResourceList. rewrite lookup_merge.
  destruct (rl !! t), (other !! t); simpl; lia.
Qed.

Lemma Get_empty t : Get ∅ t = 0.
Proof. unfold Get. by rewrite lookup_empty. Qed.

Lemma Equal_refl rl : Equal rl rl.
Proof. by intros t. Qed.

Lemma Add_Sub_cancel rl other :
  Equal (AddV1ResourceList (SubV1ResourceList rl other) other) rl.
Proof. intros t. rewrite Get_AddV1ResourceList, Get_SubV1ResourceList. lia. Qed.

Lemma Sub_Add_cancel rl other :
  Equal (SubV1ResourceList (AddV1ResourceList rl other) other) rl.
Proof. intros t. rewrite Get_SubV1ResourceList, Get_AddV1ResourceList. lia. Qed.

Lemma at_AddV1ResourceList a c c' other :
  QuantityByTAndResourceType.at_ (QuantityByTAndResourceType.AddV1ResourceList a c other) c'
  = if decide (c = c')
    then AddV1ResourceList (QuantityByTAndResourceType.at_ a c) other
    else QuantityByTAndResourceType.at_ a c'.
Proof.
  unfold QuantityByTAndResourceType.at_ at 1.
  unfold QuantityByTAndResourceType.AddV1ResourceList.
  rewrite lookup_insert. by case_decide; subst.
Qed.

Lemma at_SubV1ResourceList a c c' other :
  QuantityByTAndResourceType.at_ (QuantityByTAndResourceType.SubV1ResourceList a c other) c'
  = if decide (c = c')
    then SubV1ResourceList (QuantityByTAndResourceType.at_ a c) other
    else QuantityByTAndResourceType.at_ a c'.
Proof.
  unfold QuantityByTAndResourceType.at_ at 1.
  unfold QuantityByTAndResourceType.SubV1ResourceList.
  rewrite lookup_insert. by case_decide; subst.
Qed.

Lemma Get_sum a t : Get (QuantityByTAndResourceType.sum a) t = total a t.
Proof.
  unfold QuantityByTAndResourceType.sum, total, Add.
  induction a as [|c rl a Hc Hfold IH] using map_first_key_ind.
  - rewrite !map_fold_empty. apply Get_empty.
  - rewrite !map_fold_insert_first_key by done.
    rewrite Get_AddV1ResourceList, IH. lia.
Qed.

Lemma total_insert a c rl t :
  total (<[c := rl]> a) t = total a t - Get (QuantityByTAndResourceType.at_ a c) t + Get rl t.
Proof.
  assert (Hcomm : ∀ (m : gmap string (gmap string Z)) (j1 j2 : string) (z1 z2 : gmap string Z) (y : Z),
    j1 ≠ j2 → m !! j1 = Some z1 → m !! j2 = Some z2 →
    Get z1 t + (Get z2 t + y) = Get z2 t + (Get z1 t + y)) by (intros; lia).
  unfold total, QuantityByTAndResourceType.at_.
  rewrite <- (insert_delete_eq a).
  rewrite map_fold_insert_L; [|by apply Hcomm|by rewrite lookup_delete_eq].
  destruct (a !! c) as [rl0|] eqn:Hc; simpl.
  - rewrite (map_fold_delete_L _ _ c rl0 a); [lia|by apply Hcomm|done].
  - rewrite delete_id by done. rewrite Get_empty. lia.
Qed.

End resource_arithmetic.

(** ** The per-queue operations *)

Lemma has_true {V} (m : gmap string V) k : Q.has m k = true ↔ is_Some (m !! k).
Proof. unfold Q.has. apply bool_decide_eq_true. Qed.

Lemma has_false {V} (m : gmap string V) k : Q.has m k = false ↔ m !! k = None.
Proof.
  unfold Q.has. rewrite bool_decide_eq_false.
  rewrite <- eq_None_not_Some. done.
Qed.

Lemma has_insert {V} (m : gmap string V) k k' v :
  Q.has (<[k := v]> m) k' = if decide (k = k') then true else Q.has m k'.
Proof.
  unfold Q.has. rewrite lookup_insert. case_decide; [|done].
  apply bool_decide_eq_true. eauto.
Qed.

Lemma has_delete {V} (m : gmap string V) k k' :
  Q.has (delete k m) k' = if decide (k = k') then false else Q.has m k'.
Proof.
  unfold Q.has. rewrite lookup_delete. case_decide; [|done].
  apply bool_decide_eq_false. by intros [? ?].
Qed.

(** C5.  Adding a successful decision with pod requirements for a job that is
    in neither [successful] nor [unsuccessful] returns without error whether
    the job was in [evicted] at entry.  The pod requests are added to
    [Allocated] and to [AllocatedByPriorityClass[class]].  If the job was
    evicted, it leaves [evicted] and the requests are subtracted from
    [EvictedResourcesByPriorityClass[class]], while [successful] and
    [ScheduledResourcesByPriorityClass] stay as they were; otherwise the
    decision is stored in [successful] and the requests are added to
    [ScheduledResourcesByPriorityClass[class]], while [evicted] and
    [EvictedResourcesByPriorityClass] stay as they were. *)
Theorem queue_add_successful_job (qctx : Q.t) (jctx : J.t) (req : PodRequirements.t) :
  J.IsSuccessful jctx = true →
  J.PodRequirements jctx = Some req →
  Q.SuccessfulJobSchedulingContexts qctx !! J.JobId jctx = None →
  Q.UnsuccessfulJobSchedulingContexts qctx !! J.JobId jctx = None →
  let id := J.JobId jctx in
  let class := Job.GetPriorityClassName (J.Job jctx) in
  let requests := PodRequirements.Requests req in
  let wasEvicted := bool_decide (is_Some (Q.EvictedJobsById qctx !! id)) in
  ∃ qctx',
    Q.AddJobSchedulingContext jctx qctx = (Ok wasEvicted, qctx') ∧
    (∀ t, schedulerobjects.Get (Q.Allocated qctx') t
          = schedulerobjects.Get (Q.Allocated qctx) t + schedulerobjects.Get requests t) ∧
    (∀ t, schedulerobjects.Get (QBT.at_ (Q.AllocatedByPriorityClass qctx') class) t
          = schedulerobjects.Get (QBT.at_ (Q.AllocatedByPriorityClass qctx) class) t
            + schedulerobjects.Get requests t) ∧
    (∀ c, c ≠ class →
          QBT.at_ (Q.AllocatedByPriorityClass qctx') c = QBT.at_ (Q.AllocatedByPriorityClass qctx) c) ∧
    Q.UnsuccessfulJobSchedulingContexts qctx' = Q.UnsuccessfulJobSchedulingContexts qctx ∧
    if wasEvicted then
      Q.EvictedJobsById qctx' = delete id (Q.EvictedJobsById qctx) ∧
      (∀ t, schedulerobjects.Get (QBT.at_ (Q.EvictedResourcesByPriorityClass qctx') class) t
            = schedulerobjects.Get (QBT.at_ (Q.EvictedResourcesByPriorityClass qctx) class) t
              - schedulerobjects.Get requests t) ∧
      (∀ c, c ≠ class →
            QBT.at_ (Q.EvictedResourcesByPriorityClass qctx') c
            = QBT.at_ (Q.EvictedResourcesByPriorityClass qctx) c) ∧
      Q.SuccessfulJobSchedulingContexts qctx' = Q.SuccessfulJobSchedulingContexts qctx ∧
      Q.SuccessfulJobSchedulingContexts qctx' !! id = None ∧
      Q.ScheduledResourcesByPriorityClass qctx' = Q.ScheduledResourcesByPriorityClass qctx
    else
      Q.SuccessfulJobSchedulingContexts qctx'
      = <[id := jctx]> (Q.SuccessfulJobSchedulingContexts qctx) ∧
      (∀ t, schedulerobjects.Get (QBT.at_ (Q.ScheduledResourcesByPriorityClass qctx') class) t
            = schedulerobjects.Get (QBT.at_ (Q.ScheduledResourcesByPriorityClass qctx) class) t
              + schedulerobjects.Get requests t) ∧
      (∀ c, c ≠ class →
            QBT.at_ (Q.ScheduledResourcesByPriorityClass qctx') c
            = QBT.at_ (Q.ScheduledResourcesByPriorityClass qctx) c) ∧
      Q.EvictedJobsById qctx' = Q.EvictedJobsById qctx ∧
      Q.EvictedResourcesByPriorityClass qctx' = Q.EvictedResourcesByPriorityClass qctx.
Proof.
  intros Hok Hreq Hsucc Hunsucc id class requests wasEvicted.
  unfold Q.AddJobSchedulingContext.
  rewrite (proj2 (has_false _ _) Hsucc), (proj2 (has_false _ _) Hunsucc), Hok, Hreq.
  fold id class requests. unfold Q.has. fold wasEvicted.
  eexists. split; [reflexivity|].
  destruct wasEvicted; cbn.
  - repeat split; try done.
    + intros t. apply Get_AddV1ResourceList.
    + intros t. rewrite at_AddV1ResourceList, decide_True by done. apply Get_AddV1ResourceList.
    + intros c Hc. by rewrite at_AddV1ResourceList, decide_False.
    + intros t. rewrite at_SubV1ResourceList, decide_True by done. apply Get_SubV1ResourceList.
    + intros c Hc. by rewrite at_SubV1ResourceList, decide_False.
  - repeat split; try done.
    + intros t. apply Get_AddV1ResourceList.
    + intros t. rewrite at_AddV1ResourceList, decide_True by done. apply Get_AddV1ResourceList.
    + intros c Hc. by rewrite at_AddV1ResourceList, decide_False.
    + intros t. rewrite at_AddV1ResourceList, decide_True by done. apply Get_AddV1ResourceList.
    + intros c Hc. by rewrite at_AddV1ResourceList, decide_False.
Qed.

Lemma queue_EvictJob_fails (job : Job.t) (qctx : Q.t) :
  is_err (Q.EvictJob job qctx).1 = true ↔
  is_Some (Q.UnsuccessfulJobSchedulingContexts qctx !! Job.GetId job) ∨
  is_Some (Q.EvictedJobsById qctx !! Job.GetId job).
Proof.
  unfold Q.EvictJob.
  destruct (Q.has (Q.UnsuccessfulJobSchedulingContexts qctx) (Job.GetId job)) eqn:Hu;
    [|destruct (Q.has (Q.EvictedJobsById qctx) (Job.GetId job)) eqn:He]; cbn.
  - apply has_true in Hu. tauto.
  - apply has_true in He. tauto.
  - apply has_false in Hu, He. rewrite Hu, He.
    split; [done|]. intros [[? ?]|[? ?]]; done.
Qed.

Lemma queue_EvictJob_err (job : Job.t) (qctx : Q.t) e qctx' :
  Q.EvictJob job qctx = (Err e, qctx') → qctx' = qctx.
Proof.
  unfold Q.EvictJob. repeat case_match; congruence.
Qed.

Lemma queue_AddJobSchedulingContext_err (jctx : J.t) (qctx : Q.t) e qctx' :
  Q.AddJobSchedulingContext jctx qctx = (Err e, qctx') → qctx' = qctx.
Proof.
  unfold Q.AddJobSchedulingContext. repeat case_match; congruence.
Qed.

(** C6.  For a job whose queue is registered, [EvictJob] returns an error
    exactly when the job id is in the queue's [unsuccessful] set or in its
    [evicted] set.  Otherwise it returns whether the id was in [successful].
    If it was, the requests are subtracted from the queue's
    [ScheduledResourcesByPriorityClass[class]], the id leaves [successful],
    the round's scheduled totals decrease by the requests and
    [NumScheduledJobs] is decremented; if it was not, the requests are added
    to the queue's [EvictedResourcesByPriorityClass[class]], the id enters
    [evicted], the round's evicted totals increase by the requests and
    [NumEvictedJobs] is incremented.  In both cases the requests are
    subtracted from the queue's [Allocated] and
    [AllocatedByPriorityClass[class]]. *)
Theorem evict_job_effect (sctx : S.t) (job : Job.t) (qctx : Q.t) :
  S.QueueSchedulingContexts sctx !! Job.GetQueue job = Some qctx →
  let id := Job.GetId job in
  let class := Job.GetPriorityClassName job in
  let rl := Job.GetRequests job in
  let wasScheduled := bool_decide (is_Some (Q.SuccessfulJobSchedulingContexts qctx !! id)) in
  (is_err (S.EvictJob job sctx).1 = true ↔
     is_Some (Q.UnsuccessfulJobSchedulingContexts qctx !! id) ∨
     is_Some (Q.EvictedJobsById qctx !! id)) ∧
  (is_err (Q.EvictJob job qctx).1 = true ↔
     is_Some (Q.UnsuccessfulJobSchedulingContexts qctx !! id) ∨
     is_Some (Q.EvictedJobsById qctx !! id)) ∧
  (Q.UnsuccessfulJobSchedulingContexts qctx !! id = None →
   Q.EvictedJobsById qctx !! id = None →
   ∃ sctx' qctx',
     S.EvictJob job sctx = (Ok wasScheduled, sctx') ∧
     S.QueueSchedulingContexts sctx' = <[Job.GetQueue job := qctx']> (S.QueueSchedulingContexts sctx) ∧
     (∀ t, schedulerobjects.Get (Q.Allocated qctx') t
           = schedulerobjects.Get (Q.Allocated qctx) t - schedulerobjects.Get rl t) ∧
     (∀ t, schedulerobjects.Get (QBT.at_ (Q.AllocatedByPriorityClass qctx') class) t
           = schedulerobjects.Get (QBT.at_ (Q.AllocatedByPriorityClass qctx) class) t
             - schedulerobjects.Get rl t) ∧
     if wasScheduled then
       (∀ t, schedulerobjects.Get (QBT.at_ (Q.ScheduledResourcesByPriorityClass qctx') class) t
             = schedulerobjects.Get (QBT.at_ (Q.ScheduledResourcesByPriorityClass qctx) class) t
               - schedulerobjects.Get rl t) ∧
       Q.SuccessfulJobSchedulingContexts qctx' = delete id (Q.SuccessfulJobSchedulingContexts qctx) ∧
       Q.EvictedJobsById qctx' = Q.EvictedJobsById qctx ∧
       Q.EvictedResourcesByPriorityClass qctx' = Q.EvictedResourcesByPriorityClass qctx ∧
       (∀ t, schedulerobjects.Get (S.ScheduledResources sctx') t
             = schedulerobjects.Get (S.ScheduledResources sctx) t - schedulerobjects.Get rl t) ∧
       (∀ t, schedulerobjects.Get (QBT.at_ (S.ScheduledResourcesByPriorityClass sctx') class) t
             = schedulerobjects.Get (QBT.at_ (S.ScheduledResourcesByPriorityClass sctx) class) t
               - schedulerobjects.Get rl t) ∧
       S.NumScheduledJobs sctx' = GoInt.decr (S.NumScheduledJobs sctx) ∧
       S.EvictedResources sctx' = S.EvictedResources sctx ∧
       S.EvictedResourcesByPriorityClass sctx' = S.EvictedResourcesByPriorityClass sctx ∧
       S.NumEvictedJobs sctx' = S.NumEvictedJobs sctx
     else
       (∀ t, schedulerobjects.Get (QBT.at_ (Q.EvictedResourcesByPriorityClass qctx') class) t
             = schedulerobjects.Get (QBT.at_ (Q.EvictedResourcesByPriorityClass qctx) class) t
               + schedulerobjects.Get rl t) ∧
       Q.EvictedJobsById qctx' = <[id := true]> (Q.EvictedJobsById qctx) ∧
       Q.SuccessfulJobSchedulingContexts qctx' = Q.SuccessfulJobSchedulingContexts qctx ∧
       Q.ScheduledResourcesByPriorityClass qctx' = Q.ScheduledResourcesByPriorityClass qctx ∧
       (∀ t, schedulerobjects.Get (S.EvictedResources sctx') t
             = schedulerobjects.Get (S.EvictedResources sctx) t + schedulerobjects.Get rl t) ∧
       (∀ t, schedulerobjects.Get (QBT.at_ (S.EvictedResourcesByPriorityClass sctx') class) t
             = schedulerobjects.Get (QBT.at_ (S.EvictedResourcesByPriorityClass sctx) class) t
               + schedulerobjects.Get rl t) ∧
       S.NumEvictedJobs sctx' = GoInt.incr (S.NumEvictedJobs sctx) ∧
       S.ScheduledResources sctx' = S.ScheduledResources sctx ∧
       S.ScheduledResourcesByPriorityClass sctx' = S.ScheduledResourcesByPriorityClass sctx ∧
       S.NumScheduledJobs sctx' = S.NumScheduledJobs sctx).
Proof.
  intros Hq id class rl wasScheduled. split; [|split].
  - unfold id. rewrite <- queue_EvictJob_fails. unfold S.EvictJob. rewrite Hq.
    destruct (Q.EvictJob job qctx) as [[b|e] q']; done.
  - apply queue_EvictJob_fails.
  - intros Hu He.
    apply has_false in Hu, He.
    unfold S.EvictJob. rewrite Hq. unfold Q.EvictJob.
    fold id. rewrite Hu, He.
    change wasScheduled with (Q.has (Q.SuccessfulJobSchedulingContexts qctx) id).
    destruct (Q.has (Q.SuccessfulJobSchedulingContexts qctx) id); cbn.
    + do 2 eexists. split; [reflexivity|]. split; [reflexivity|]. cbn.
      repeat split; try done; intros t;
        rewrite ?at_SubV1ResourceList, ?decide_True by done; apply Get_SubV1ResourceList.
    + do 2 eexists. split; [reflexivity|]. split; [reflexivity|]. cbn.
      repeat split; try done; intros t;
        rewrite ?at_SubV1ResourceList, ?at_AddV1ResourceList, ?decide_True by done;
        first [apply Get_SubV1ResourceList | apply Get_AddV1ResourceList].
Qed.

(** ** Eviction followed by re-scheduling *)

Lemma evict_job_placed (sctx sctx1 : S.t) (qctx : Q.t) (job : Job.t) :
  S.QueueSchedulingContexts sctx !! Job.GetQueue job = Some qctx →
  S.EvictJob job sctx = (Ok false, sctx1) →
  Q.has (Q.UnsuccessfulJobSchedulingContexts qctx) (Job.GetId job) = false ∧
  Q.has (Q.EvictedJobsById qctx) (Job.GetId job) = false ∧
  Q.has (Q.SuccessfulJobSchedulingContexts qctx) (Job.GetId job) = false.
Proof.
  intros Hq. unfold S.EvictJob. rewrite Hq. unfold Q.EvictJob.
  destruct (Q.has (Q.UnsuccessfulJobSchedulingContexts qctx) (Job.GetId job)); [done|].
  destruct (Q.has (Q.EvictedJobsById qctx) (Job.GetId job)); [done|].
  destruct (Q.has (Q.SuccessfulJobSchedulingContexts qctx) (Job.GetId job)); [|done].
  cbn. congruence.
Qed.

(** C1.  Let [job] belong to a registered queue, let [EvictJob] place it in
    the queue's evicted set, and let a successful decision for the same job,
    with the same requests, be applied next.  That application succeeds and
    reports the job as evicted in this round, and afterwards the round's
    [ScheduledResources], [EvictedResources], [NumScheduledJobs] and
    [NumEvictedJobs], the queue's [ScheduledResourcesByPriorityClass[class]]
    and [EvictedResourcesByPriorityClass[class]], and the queue's [Allocated]
    and [AllocatedByPriorityClass[class]] all have the values they had before
    the eviction.  Resource vectors are compared quantity by quantity, and
    [NumEvictedJobs] is a Go [int]. *)
Theorem evict_then_schedule_cancels
    (sctx sctx1 : S.t) (qctx : Q.t) (job : Job.t) (jctx : J.t) (req : PodRequirements.t) :
  S.QueueSchedulingContexts sctx !! Job.GetQueue job = Some qctx →
  J.Job jctx = job →
  J.JobId jctx = Job.GetId job →
  J.IsSuccessful jctx = true →
  J.PodRequirements jctx = Some req →
  PodRequirements.Requests req = Job.GetRequests job →
  GoInt.in_range (S.NumEvictedJobs sctx) →
  S.EvictJob job sctx = (Ok false, sctx1) →
  let class := Job.GetPriorityClassName job in
  ∃ sctx2 qctx1 qctx2,
    S.QueueSchedulingContexts sctx1 !! Job.GetQueue job = Some qctx1 ∧
    Q.EvictedJobsById qctx1 !! Job.GetId job = Some true ∧
    S.AddJobSchedulingContext jctx sctx1 = (Ok true, sctx2) ∧
    S.QueueSchedulingContexts sctx2 !! Job.GetQueue job = Some qctx2 ∧
    schedulerobjects.Equal (S.ScheduledResources sctx2) (S.ScheduledResources sctx) ∧
    schedulerobjects.Equal (S.EvictedResources sctx2) (S.EvictedResources sctx) ∧
    S.NumScheduledJobs sctx2 = S.NumScheduledJobs sctx ∧
    S.NumEvictedJobs sctx2 = S.NumEvictedJobs sctx ∧
    schedulerobjects.Equal
      (QBT.at_ (Q.ScheduledResourcesByPriorityClass qctx2) class)
      (QBT.at_ (Q.ScheduledResourcesByPriorityClass qctx) class) ∧
    schedulerobjects.Equal
      (QBT.at_ (Q.EvictedResourcesByPriorityClass qctx2) class)
      (QBT.at_ (Q.EvictedResourcesByPriorityClass qctx) class) ∧
    schedulerobjects.Equal (Q.Allocated qctx2) (Q.Allocated qctx) ∧
    schedulerobjects.Equal
      (QBT.at_ (Q.AllocatedByPriorityClass qctx2) class)
      (QBT.at_ (Q.AllocatedByPriorityClass qctx) class).
Proof.
  intros Hq Hjob Hid Hok Hreq Hrl Hrange Hevict class.
  destruct (evict_job_placed _ _ _ _ Hq Hevict) as (Hu & He & Hs).
  revert Hevict. unfold S.EvictJob. rewrite Hq. unfold Q.EvictJob.
  rewrite Hu, He, Hs. cbn. intros [= <-].
  unfold S.AddJobSchedulingContext. rewrite Hjob. cbn.
  rewrite lookup_insert_eq. unfold Q.AddJobSchedulingContext.
  rewrite Hid, Hok, Hreq, Hjob, Hrl. cbn.
  rewrite Hs, Hu, has_insert, decide_True by done. cbn.
  do 3 eexists.
  split; [reflexivity|]. split; [apply lookup_insert_eq|].
  split; [reflexivity|]. cbn. split; [apply lookup_insert_eq|]. cbn.
  fold class.
  split; [apply Equal_refl|].
  split; [apply Sub_Add_cancel|].
  split; [reflexivity|].
  split; [by apply decr_incr|].
  split; [apply Equal_refl|].
  split.
  { rewrite at_SubV1ResourceList, decide_True by done.
    rewrite at_AddV1ResourceList, decide_True by done. apply Sub_Add_cancel. }
  split; [apply Add_Sub_cancel|].
  rewrite at_AddV1ResourceList, decide_True by done.
  rewrite at_SubV1ResourceList, decide_True by done. apply Add_Sub_cancel.
Qed.

(** ** Gangs without members *)

(** C10.  [EvictGang] of the empty job list returns true and decrements
    [NumScheduledGangs], every other field of the round keeping its value;
    applying a gang decision without job decisions returns true and leaves
    the round, and with it [NumScheduledGangs], as it was. *)
Theorem empty_gang (sctx : S.t) :
  (∃ sctx',
     S.EvictGang [] sctx = (Ok true, sctx') ∧
     S.NumScheduledGangs sctx' = GoInt.decr (S.NumScheduledGangs sctx) ∧
     S.ScheduledResources sctx' = S.ScheduledResources sctx ∧
     S.ScheduledResourcesByPriorityClass sctx' = S.ScheduledResourcesByPriorityClass sctx ∧
     S.EvictedResources sctx' = S.EvictedResources sctx ∧
     S.EvictedResourcesByPriorityClass sctx' = S.EvictedResourcesByPriorityClass sctx ∧
     S.NumScheduledJobs sctx' = S.NumScheduledJobs sctx ∧
     S.NumEvictedJobs sctx' = S.NumEvictedJobs sctx ∧
     S.QueueSchedulingContexts sctx' = S.QueueSchedulingContexts sctx ∧
     S.TotalResources sctx' = S.TotalResources sctx ∧
     S.WeightSum sctx' = S.WeightSum sctx ∧
     S.UnfeasibleSchedulingKeys sctx' = S.UnfeasibleSchedulingKeys sctx) ∧
  S.AddGangSchedulingContext (GangSchedulingContext.mk []) sctx = (Ok true, sctx).
Proof.
  split; [|reflexivity].
  eexists. split; [reflexivity|]. cbn. repeat split.
Qed.

(** ** Calls that return an error *)

Lemma set_QueueSchedulingContexts_id (sctx : S.t) (queue : string) (qctx : Q.t) :
  S.QueueSchedulingContexts sctx !! queue = Some qctx →
  S.set_QueueSchedulingContexts (<[queue := qctx]> (S.QueueSchedulingContexts sctx)) sctx = sctx.
Proof. intros H. rewrite insert_id by done. by destruct sctx. Qed.

Lemma AddQueueSchedulingContext_err queue weight initial limiter (sctx sctx' : S.t) e :
  S.AddQueueSchedulingContext queue weight initial limiter sctx = (Err e, sctx') → sctx' = sctx.
Proof. unfold S.AddQueueSchedulingContext. case_match; congruence. Qed.

Lemma AddJobSchedulingContext_err (jctx : J.t) (sctx sctx' : S.t) e :
  S.AddJobSchedulingContext jctx sctx = (Err e, sctx') → sctx' = sctx.
Proof.
  unfold S.AddJobSchedulingContext.
  destruct (S.QueueSchedulingContexts sctx !! _) as [qctx|] eqn:Hq; [|congruence].
  destruct (Q.AddJobSchedulingContext jctx qctx) as [[b|e0] qctx'] eqn:Hadd; [done|].
  apply queue_AddJobSchedulingContext_err in Hadd as ->.
  intros [= _ <-]. by apply set_QueueSchedulingContexts_id.
Qed.

Lemma EvictJob_err (job : Job.t) (sctx sctx' : S.t) e :
  S.EvictJob job sctx = (Err e, sctx') → sctx' = sctx.
Proof.
  unfold S.EvictJob.
  destruct (S.QueueSchedulingContexts sctx !! _) as [qctx|] eqn:Hq; [|congruence].
  destruct (Q.EvictJob job qctx) as [[b|e0] qctx'] eqn:Hev; [done|].
  apply queue_EvictJob_err in Hev as ->.
  intros [= _ <-]. by apply set_QueueSchedulingContexts_id.
Qed.

Lemma AddGangSchedulingContext_loop_err (jctxs : list J.t) (ae asucc : bool) (sctx sctx' : S.t) e :
  S.AddGangSchedulingContext_loop jctxs ae asucc sctx = (Err e, sctx') →
  ∃ applied failing rest,
    jctxs = applied ++ failing :: rest ∧
    sctx' = run (OpAddJobSchedulingContext <$> applied) sctx ∧
    S.AddJobSchedulingContext failing sctx' = (Err e, sctx') ∧
    ∀ before jctx after, applied = before ++ jctx :: after →
      fails (run (OpAddJobSchedulingContext <$> before) sctx)
        (OpAddJobSchedulingContext jctx) = false.
Proof.
  revert ae asucc sctx. induction jctxs as [|jctx jctxs IH]; intros ae asucc sctx; [done|].
  cbn. destruct (S.AddJobSchedulingContext jctx sctx) as [[b|e0] s1] eqn:Hadd.
  - intros (applied & failing & rest & -> & -> & Hfail & Hall)%IH.
    exists (jctx :: applied), failing, rest. cbn. rewrite Hadd.
    split; [done|]. split; [done|]. split; [done|].
    intros [|j0 before] j after Heq; simplify_eq/=.
    + by rewrite Hadd.
    + rewrite Hadd. cbn. by eapply Hall.
  - intros [= <- <-]. exists [], jctx, jctxs.
    pose proof (AddJobSchedulingContext_err _ _ _ _ Hadd) as ->.
    split; [done|]. split; [done|]. split; [done|]. by intros [|??] ?? ?.
Qed.

Lemma EvictGang_loop_err (jobs : list Job.t) (acc : bool) (sctx sctx' : S.t) e :
  S.EvictGang_loop jobs acc sctx = (Err e, sctx') →
  ∃ evicted failing rest,
    jobs = evicted ++ failing :: rest ∧
    sctx' = run (OpEvictJob <$> evicted) sctx ∧
    S.EvictJob failing sctx' = (Err e, sctx') ∧
    ∀ before job after, evicted = before ++ job :: after →
      fails (run (OpEvictJob <$> before) sctx) (OpEvictJob job) = false.
Proof.
  revert acc sctx. induction jobs as [|job jobs IH]; intros acc sctx; [done|].
  cbn. destruct (S.EvictJob job sctx) as [[b|e0] s1] eqn:Hev.
  - intros (evicted & failing & rest & -> & -> & Hfail & Hall)%IH.
    exists (job :: evicted), failing, rest. cbn. rewrite Hev.
    split; [done|]. split; [done|]. split; [done|].
    intros [|j0 before] j after Heq; simplify_eq/=.
    + by rewrite Hev.
    + rewrite Hev. cbn. by eapply Hall.
  - intros [= <- <-]. exists [], job, jobs.
    pose proof (EvictJob_err _ _ _ _ Hev) as ->.
    split; [done|]. split; [done|]. split; [done|]. by intros [|??] ?? ?.
Qed.

Lemma same_frame_refl sctx : same_frame sctx sctx.
Proof. by repeat split. Qed.

Lemma same_frame_trans s1 s2 s3 : same_frame s1 s2 → same_frame s2 s3 → same_frame s1 s3.
Proof. unfold same_frame. intros (?&?&?&?&?) (?&?&?&?&?). repeat split; congruence. Qed.

Lemma AddJobSchedulingContext_frame (jctx : J.t) (sctx : S.t) :
  same_frame sctx (S.AddJobSchedulingContext jctx sctx).2.
Proof.
  unfold S.AddJobSchedulingContext.
  destruct (S.QueueSchedulingContexts sctx !! _) as [qctx|]; [|apply same_frame_refl].
  destruct (Q.AddJobSchedulingContext jctx qctx) as [[b|e0] qctx']; [|by repeat split].
  destruct (J.IsSuccessful jctx), b; by repeat split.
Qed.

Lemma EvictJob_frame (job : Job.t) (sctx : S.t) :
  same_frame sctx (S.EvictJob job sctx).2.
Proof.
  unfold S.EvictJob.
  destruct (S.QueueSchedulingContexts sctx !! _) as [qctx|]; [|apply same_frame_refl].
  destruct (Q.EvictJob job qctx) as [[b|e0] qctx']; [|by repeat split].
  destruct b; by repeat split.
Qed.

Lemma run_AddJobSchedulingContext_frame (jctxs : list J.t) (sctx : S.t) :
  same_frame sctx (run (OpAddJobSchedulingContext <$> jctxs) sctx).
Proof.
  revert sctx. induction jctxs as [|jctx jctxs IH]; intros sctx; [apply same_frame_refl|].
  cbn. eapply same_frame_trans; [apply AddJobSchedulingContext_frame|apply IH].
Qed.

Lemma run_EvictJob_frame (jobs : list Job.t) (sctx : S.t) :
  same_frame sctx (run (OpEvictJob <$> jobs) sctx).
Proof.
  revert sctx. induction jobs as [|job jobs IH]; intros sctx; [apply same_frame_refl|].
  cbn. eapply same_frame_trans; [apply EvictJob_frame|apply IH].
Qed.

(** C4, as the spec states it, fails: a gang decision of two jobs of queue A
    whose second member already has an unsuccessful decision returns an error
    after the first member has been stored and counted. *)
Lemma gang_error_keeps_applied_members :
  let sctx := run [Scenario.registerA;
                   OpAddJobSchedulingContext
                     (Scenario.unschedulable Scenario.j4 "no node fits")]
                Scenario.round0 in
  let gctx := GangSchedulingContext.mk [Scenario.scheduled Scenario.j3;
                                        Scenario.scheduled Scenario.j4] in
  fails sctx (OpAddGangSchedulingContext gctx) = true ∧
  S.NumScheduledJobs sctx = 0 ∧
  S.NumScheduledJobs (step sctx (OpAddGangSchedulingContext gctx)) = 1 ∧
  in_successful_set sctx Scenario.j3 = false ∧
  in_successful_set (step sctx (OpAddGangSchedulingContext gctx)) Scenario.j3 = true ∧
  step sctx (OpAddGangSchedulingContext gctx) ≠ sctx.
Proof.
  cbv zeta. split; [by vm_compute|]. split; [by vm_compute|].
  assert (H1 : S.NumScheduledJobs
                 (step (run [Scenario.registerA;
                             OpAddJobSchedulingContext
                               (Scenario.unschedulable Scenario.j4 "no node fits")]
                          Scenario.round0)
                    (OpAddGangSchedulingContext
                       (GangSchedulingContext.mk [Scenario.scheduled Scenario.j3;
                                                  Scenario.scheduled Scenario.j4]))) = 1)
    by (by vm_compute).
  split; [exact H1|]. split; [by vm_compute|]. split; [by vm_compute|].
  intros Heq. rewrite Heq in H1. vm_compute in H1. discriminate.
Qed.

(** C4, amended.  A queue registration, a job apply or a job evict that
    returns an error leaves the round exactly as it was.  A gang apply or a
    gang evict that returns an error stops at its first failing member: every
    member before it was applied (evicted) without error, in order, the round
    is left as those applications (evictions) left it, the failing member
    contributes no change, and [NumScheduledGangs], [WeightSum] and the
    infeasible-key cache keep their values. *)
Theorem error_leaves_applied_prefix (sctx : S.t) (o : operation) :
  fails sctx o = true →
  match o with
  | OpAddGangSchedulingContext gctx =>
      ∃ applied failing rest,
        GangSchedulingContext.JobSchedulingContexts gctx = applied ++ failing :: rest ∧
        (∀ before jctx after, applied = before ++ jctx :: after →
           fails (run (OpAddJobSchedulingContext <$> before) sctx)
             (OpAddJobSchedulingContext jctx) = false) ∧
        step sctx o = run (OpAddJobSchedulingContext <$> applied) sctx ∧
        fails (step sctx o) (OpAddJobSchedulingContext failing) = true ∧
        step (step sctx o) (OpAddJobSchedulingContext failing) = step sctx o ∧
        S.NumScheduledGangs (step sctx o) = S.NumScheduledGangs sctx ∧
        S.WeightSum (step sctx o) = S.WeightSum sctx ∧
        S.UnfeasibleSchedulingKeys (step sctx o) = S.UnfeasibleSchedulingKeys sctx
  | OpEvictGang jobs =>
      ∃ evicted failing rest,
        jobs = evicted ++ failing :: rest ∧
        (∀ before job after, evicted = before ++ job :: after →
           fails (run (OpEvictJob <$> before) sctx) (OpEvictJob job) = false) ∧
        step sctx o = run (OpEvictJob <$> evicted) sctx ∧
        fails (step sctx o) (OpEvictJob failing) = true ∧
        step (step sctx o) (OpEvictJob failing) = step sctx o ∧
        S.NumScheduledGangs (step sctx o) = S.NumScheduledGangs sctx ∧
        S.WeightSum (step sctx o) = S.WeightSum sctx ∧
        S.UnfeasibleSchedulingKeys (step sctx o) = S.UnfeasibleSchedulingKeys sctx
  | _ => step sctx o = sctx
  end.
Proof.
  destruct o as [queue weight initial limiter|gctx|jctx|jobs|job|key jctx|]; cbn.
  - destruct (S.AddQueueSchedulingContext _ _ _ _ _) as [[u|e] s'] eqn:H; [done|].
    intros _. by apply AddQueueSchedulingContext_err in H.
  - unfold S.AddGangSchedulingContext.
    destruct (S.AddGangSchedulingContext_loop _ _ _ _) as [[[ae asucc]|e] s'] eqn:H; [done|].
    intros _. cbn.
    apply AddGangSchedulingContext_loop_err in H
      as (applied & failing & rest & Hl & -> & Hf & Hall).
    exists applied, failing, rest. split; [done|]. split; [exact Hall|]. split; [done|].
    split; [by rewrite Hf|]. split; [by rewrite Hf|].
    destruct (run_AddJobSchedulingContext_frame applied sctx) as (?&?&?&?&?). done.
  - destruct (S.AddJobSchedulingContext _ _) as [[u|e] s'] eqn:H; [done|].
    intros _. by apply AddJobSchedulingContext_err in H.
  - unfold S.EvictGang.
    destruct (S.EvictGang_loop _ _ _) as [[b|e] s'] eqn:H; [done|].
    intros _. cbn.
    apply EvictGang_loop_err in H as (evicted & failing & rest & Hl & -> & Hf & Hall).
    exists evicted, failing, rest. split; [done|]. split; [exact Hall|]. split; [done|].
    split; [by rewrite Hf|]. split; [by rewrite Hf|].
    destruct (run_EvictJob_frame evicted sctx) as (?&?&?&?&?). done.
  - destruct (S.EvictJob _ _) as [[u|e] s'] eqn:H; [done|].
    intros _. by apply EvictJob_err in H.
  - done.
  - done.
Qed.

(** ** Counting scheduled gangs *)

Lemma queue_AddJobSchedulingContext_evicted_other (jctx : J.t) (qctx : Q.t) (id : string) :
  J.JobId jctx ≠ id →
  Q.has (Q.EvictedJobsById (Q.AddJobSchedulingContext jctx qctx).2) id
  = Q.has (Q.EvictedJobsById qctx) id.
Proof.
  intros Hne. unfold Q.AddJobSchedulingContext.
  repeat case_match; cbn; try done.
  by rewrite has_delete, decide_False.
Qed.

Lemma queue_AddJobSchedulingContext_returns (jctx : J.t) (qctx qctx' : Q.t) b :
  Q.AddJobSchedulingContext jctx qctx = (Ok b, qctx') →
  b = Q.has (Q.EvictedJobsById qctx) (J.JobId jctx).
Proof.
  unfold Q.AddJobSchedulingContext. repeat case_match; congruence.
Qed.

Lemma AddJobSchedulingContext_queues (jctx : J.t) (sctx : S.t) (qctx : Q.t) :
  S.QueueSchedulingContexts sctx !! Job.GetQueue (J.Job jctx) = Some qctx →
  S.QueueSchedulingContexts (S.AddJobSchedulingContext jctx sctx).2
  = <[Job.GetQueue (J.Job jctx) := (Q.AddJobSchedulingContext jctx qctx).2]>
      (S.QueueSchedulingContexts sctx).
Proof.
  intros Hq. unfold S.AddJobSchedulingContext. rewrite Hq.
  destruct (Q.AddJobSchedulingContext jctx qctx) as [[b|e0] qctx']; [|done].
  destruct (J.IsSuccessful jctx), b; done.
Qed.

Lemma AddJobSchedulingContext_no_queue (jctx : J.t) (sctx : S.t) :
  S.QueueSchedulingContexts sctx !! Job.GetQueue (J.Job jctx) = None →
  (S.AddJobSchedulingContext jctx sctx).2 = sctx.
Proof. intros Hq. unfold S.AddJobSchedulingContext. by rewrite Hq. Qed.

Lemma AddJobSchedulingContext_returns (jctx : J.t) (sctx sctx' : S.t) b :
  S.AddJobSchedulingContext jctx sctx = (Ok b, sctx') →
  b = in_evicted_set sctx jctx.
Proof.
  unfold S.AddJobSchedulingContext, in_evicted_set.
  destruct (S.QueueSchedulingContexts sctx !! _) as [qctx|]; [|done].
  destruct (Q.AddJobSchedulingContext jctx qctx) as [[b0|e0] qctx'] eqn:Hadd; [|done].
  intros [= <- _]. by eapply queue_AddJobSchedulingContext_returns.
Qed.

Lemma in_evicted_set_other (jctx other : J.t) (sctx : S.t) :
  filed_under jctx ≠ filed_under other →
  in_evicted_set (S.AddJobSchedulingContext jctx sctx).2 other = in_evicted_set sctx other.
Proof.
  intros Hne. unfold in_evicted_set.
  destruct (S.QueueSchedulingContexts sctx !! Job.GetQueue (J.Job jctx)) as [qctx|] eqn:Hq.
  - rewrite (AddJobSchedulingContext_queues _ _ _ Hq), lookup_insert.
    case_decide as Hqueue; [|done].
    rewrite <- Hqueue, Hq. apply queue_AddJobSchedulingContext_evicted_other.
    intros Hid. apply Hne. unfold filed_under. by rewrite Hqueue, Hid.
  - by rewrite AddJobSchedulingContext_no_queue.
Qed.

Lemma evicted_at_entry_start (jctxs : list J.t) (s0 sctx : S.t) :
  NoDup (filed_under <$> jctxs) →
  (∀ jctx, jctx ∈ jctxs → in_evicted_set sctx jctx = in_evicted_set s0 jctx) →
  evicted_at_entry sctx jctxs = in_evicted_set s0 <$> jctxs.
Proof.
  revert sctx. induction jctxs as [|jctx jctxs IH]; intros sctx Hnd Hsame; [done|].
  rewrite fmap_cons in Hnd. apply NoDup_cons in Hnd as [Hnotin Hnd].
  cbn. rewrite Hsame by apply list_elem_of_here. f_equal.
  apply IH; [done|]. intros other Hin.
  rewrite <- Hsame by by apply list_elem_of_further.
  apply in_evicted_set_other. intros Heq. apply Hnotin. rewrite Heq.
  by apply list_elem_of_fmap_2.
Qed.

Lemma AddGangSchedulingContext_loop_ok (jctxs : list J.t) (sctx sctx' : S.t)
    (ae asucc ae' asucc' : bool) :
  S.AddGangSchedulingContext_loop jctxs ae asucc sctx = (Ok (ae', asucc'), sctx') →
  ae' = ae && forallb id (evicted_at_entry sctx jctxs) ∧
  asucc' = asucc && forallb J.IsSuccessful jctxs ∧
  same_frame sctx sctx'.
Proof.
  revert sctx ae asucc.
  induction jctxs as [|jctx jctxs IH]; intros sctx ae asucc; cbn.
  - intros [= <- <- <-]. rewrite !andb_true_r. split; [done|]. split; [done|].
    apply same_frame_refl.
  - pose proof (AddJobSchedulingContext_frame jctx sctx) as Hframe1.
    destruct (S.AddJobSchedulingContext jctx sctx) as [[b|e0] s1] eqn:Hadd; [|done].
    intros Hloop. apply IH in Hloop as (-> & -> & Hframe).
    rewrite (AddJobSchedulingContext_returns _ _ _ _ Hadd). rewrite !andb_assoc.
    split; [done|]. split; [done|].
    eapply same_frame_trans; [exact Hframe1|exact Hframe].
Qed.

Lemma negb_forallb {A} (f : A → bool) (l : list A) :
  negb (forallb f l) = existsb (λ x, negb (f x)) l.
Proof.
  induction l as [|x l IH]; [done|].
  cbn. rewrite negb_andb. by rewrite IH.
Qed.

(** When the same decision occurs twice in a gang and its job is in the
    evicted set, the first application takes the job out of that set and the
    second one stores it as newly scheduled: the second member was not in the
    evicted set at entry, and the gang is counted. *)
Lemma repeated_member_counts_gang :
  let sctx := run [Scenario.registerB; OpEvictJob Scenario.j2] Scenario.round0 in
  let gctx := GangSchedulingContext.mk [Scenario.scheduled Scenario.j2;
                                        Scenario.scheduled Scenario.j2] in
  fails sctx (OpAddGangSchedulingContext gctx) = false ∧
  in_evicted_set sctx <$> GangSchedulingContext.JobSchedulingContexts gctx = [true; true] ∧
  evicted_at_entry sctx (GangSchedulingContext.JobSchedulingContexts gctx) = [true; false] ∧
  S.NumScheduledGangs sctx = 0 ∧
  S.NumScheduledGangs (S.AddGangSchedulingContext gctx sctx).2 = 1.
Proof. cbv zeta. repeat split; by vm_compute. Qed.

(** C3.  When applying a gang decision returns without error,
    [NumScheduledGangs] is incremented, as a Go [int], if every member is
    successful and at least one member's job was not in the evicted set of
    its queue at entry, that is, when the application of that member started;
    otherwise it keeps its value.  The call returns whether every member's
    job was in that evicted set at entry.  When no queue and job id occurs
    twice among the members, a member's job was in the evicted set at entry
    exactly when it was there when the gang call started. *)
Theorem gang_counted_once (sctx sctx' : S.t) (gctx : GangSchedulingContext.t) (b : bool) :
  S.AddGangSchedulingContext gctx sctx = (Ok b, sctx') →
  S.NumScheduledGangs sctx'
  = (if counts_as_scheduled_gang sctx gctx
     then GoInt.incr (S.NumScheduledGangs sctx)
     else S.NumScheduledGangs sctx) ∧
  b = forallb id (evicted_at_entry sctx (GangSchedulingContext.JobSchedulingContexts gctx)) ∧
  (NoDup (filed_under <$> GangSchedulingContext.JobSchedulingContexts gctx) →
   evicted_at_entry sctx (GangSchedulingContext.JobSchedulingContexts gctx)
   = in_evicted_set sctx <$> GangSchedulingContext.JobSchedulingContexts gctx).
Proof.
  unfold S.AddGangSchedulingContext, counts_as_scheduled_gang.
  destruct (S.AddGangSchedulingContext_loop _ _ _ _) as [[[ae asucc]|e] s1] eqn:Hloop; [|done].
  apply AddGangSchedulingContext_loop_ok in Hloop as (-> & -> & Hn & _).
  cbn. intros [= <- <-]. split; [|split; [reflexivity|]].
  - replace (existsb negb
               (evicted_at_entry sctx (GangSchedulingContext.JobSchedulingContexts gctx)))
      with (negb (forallb id
                    (evicted_at_entry sctx (GangSchedulingContext.JobSchedulingContexts gctx))))
      by apply negb_forallb.
    destruct (forallb J.IsSuccessful _), (forallb id _); cbn; congruence.
  - intros Hnd. by apply evicted_at_entry_start.
Qed.

(** ** Properties of every queue context of a round *)

Lemma EvictJob_queues (job : Job.t) (sctx : S.t) (qctx : Q.t) :
  S.QueueSchedulingContexts sctx !! Job.GetQueue job = Some qctx →
  S.QueueSchedulingContexts (S.EvictJob job sctx).2
  = <[Job.GetQueue job := (Q.EvictJob job qctx).2]> (S.QueueSchedulingContexts sctx).
Proof.
  intros Hq. unfold S.EvictJob. rewrite Hq.
  destruct (Q.EvictJob job qctx) as [[b|e0] qctx']; [|done].
  by destruct b.
Qed.

Lemma EvictJob_no_queue (job : Job.t) (sctx : S.t) :
  S.QueueSchedulingContexts sctx !! Job.GetQueue job = None →
  (S.EvictJob job sctx).2 = sctx.
Proof. intros Hq. unfold S.EvictJob. by rewrite Hq. Qed.

Section queue_invariant.

Variable P : Q.t → Prop.
Hypothesis P_add : ∀ jctx qctx, P qctx → P (Q.AddJobSchedulingContext jctx qctx).2.
Hypothesis P_evict : ∀ job qctx, P qctx → P (Q.EvictJob job qctx).2.
Hypothesis P_new : ∀ executorId queue weight limiter initial,
  P (Q.mk executorId queue weight limiter (QBT.sum initial) initial ∅ ∅ ∅ ∅ ∅).

Lemma holds_after_queue_gang gctx qctx :
  P qctx → P (Q.AddGangSchedulingContext gctx qctx).2.
Proof.
  unfold Q.AddGangSchedulingContext.
  generalize (GangSchedulingContext.JobSchedulingContexts gctx). intros jctxs.
  revert qctx. induction jctxs as [|jctx jctxs IH]; intros qctx HP; [done|].
  cbn. pose proof (P_add jctx qctx HP) as H1.
  destruct (Q.AddJobSchedulingContext jctx qctx) as [[b|e0] q1]; [|done].
  by apply IH.
Qed.

Lemma every_queue_AddJobSchedulingContext jctx sctx :
  every_queue P sctx → every_queue P (S.AddJobSchedulingContext jctx sctx).2.
Proof.
  intros Hall.
  destruct (S.QueueSchedulingContexts sctx !! Job.GetQueue (J.Job jctx)) as [qctx|] eqn:Hq.
  - unfold every_queue. rewrite (AddJobSchedulingContext_queues _ _ _ Hq).
    apply map_Forall_insert_2; [|done]. apply P_add. by apply (Hall _ _ Hq).
  - by rewrite AddJobSchedulingContext_no_queue.
Qed.

Lemma every_queue_EvictJob job sctx :
  every_queue P sctx → every_queue P (S.EvictJob job sctx).2.
Proof.
  intros Hall.
  destruct (S.QueueSchedulingContexts sctx !! Job.GetQueue job) as [qctx|] eqn:Hq.
  - unfold every_queue. rewrite (EvictJob_queues _ _ _ Hq).
    apply map_Forall_insert_2; [|done]. apply P_evict. by apply (Hall _ _ Hq).
  - by rewrite EvictJob_no_queue.
Qed.

Lemma every_queue_AddGangSchedulingContext_loop jctxs ae asucc sctx :
  every_queue P sctx → every_queue P (S.AddGangSchedulingContext_loop jctxs ae asucc sctx).2.
Proof.
  revert ae asucc sctx. induction jctxs as [|jctx jctxs IH]; intros ae asucc sctx Hall; [done|].
  cbn. pose proof (every_queue_AddJobSchedulingContext jctx sctx Hall) as H1.
  destruct (S.AddJobSchedulingContext jctx sctx) as [[b|e0] s1]; [|done].
  by apply IH.
Qed.

Lemma every_queue_EvictGang_loop jobs acc sctx :
  every_queue P sctx → every_queue P (S.EvictGang_loop jobs acc sctx).2.
Proof.
  revert acc sctx. induction jobs as [|job jobs IH]; intros acc sctx Hall; [done|].
  cbn. pose proof (every_queue_EvictJob job sctx Hall) as H1.
  destruct (S.EvictJob job sctx) as [[b|e0] s1]; [|done].
  by apply IH.
Qed.

Lemma every_queue_step sctx o : every_queue P sctx → every_queue P (step sctx o).
Proof.
  intros Hall.
  destruct o as [queue weight initial limiter|gctx|jctx|jobs|job|key jctx|]; cbn.
  - unfold S.AddQueueSchedulingContext. case_match; [done|]. cbn.
    unfold every_queue. cbn. apply map_Forall_insert_2; [|done]. apply P_new.
  - unfold S.AddGangSchedulingContext.
    pose proof (every_queue_AddGangSchedulingContext_loop
                  (GangSchedulingContext.JobSchedulingContexts gctx) true true sctx Hall) as H1.
    destruct (S.AddGangSchedulingContext_loop _ _ _ _) as [[[ae asucc]|e] s1]; [|done].
    cbn. by destruct (asucc && negb ae).
  - by apply every_queue_AddJobSchedulingContext.
  - unfold S.EvictGang.
    pose proof (every_queue_EvictGang_loop jobs true sctx Hall) as H1.
    destruct (S.EvictGang_loop _ _ _) as [[b|e] s1]; [|done].
    cbn. by destruct b.
  - by apply every_queue_EvictJob.
  - done.
  - done.
Qed.

Lemma every_queue_run ops sctx : every_queue P sctx → every_queue P (run ops sctx).
Proof.
  revert sctx. induction ops as [|o ops IH]; intros sctx Hall; [done|].
  cbn. apply IH. by apply every_queue_step.
Qed.

Lemma every_queue_reachable executorId pool priorityClasses defaultPriorityClass limiter
    totalResources ops :
  every_queue P
    (run ops (S.NewSchedulingContext executorId pool priorityClasses defaultPriorityClass
                limiter totalResources)).
Proof. apply every_queue_run. unfold every_queue. cbn. apply map_Forall_empty. Qed.

End queue_invariant.

(** ** The decision sets of a queue *)

Lemma has_true_dom {V} (m : gmap string V) k : Q.has m k = true → k ∈ dom m.
Proof. rewrite has_true. apply elem_of_dom. Qed.

Lemma has_false_dom {V} (m : gmap string V) k : Q.has m k = false → k ∉ dom m.
Proof. rewrite has_false. apply not_elem_of_dom. Qed.

Lemma disjoint_add_l (X Y : gset string) (x : string) :
  x ∉ Y → X ## Y → ({[x]} ∪ X) ## Y.
Proof.
  intros Hx HXY y [Hy|Hy]%elem_of_union HyY.
  - apply elem_of_singleton in Hy as ->. by apply Hx.
  - by apply (HXY y).
Qed.

Lemma disjoint_add_r (X Y : gset string) (x : string) :
  x ∉ X → X ## Y → X ## ({[x]} ∪ Y).
Proof.
  intros Hx HXY y HyX [Hy|Hy]%elem_of_union.
  - apply elem_of_singleton in Hy as ->. by apply Hx.
  - by apply (HXY y).
Qed.

Lemma disjoint_remove_l (X Y : gset string) (x : string) :
  X ## Y → (X ∖ {[x]}) ## Y.
Proof. intros HXY y [Hy _]%elem_of_difference HyY. by apply (HXY y). Qed.

Lemma disjoint_remove_r (X Y : gset string) (x : string) :
  X ## Y → X ## (Y ∖ {[x]}).
Proof. intros HXY y HyX [Hy _]%elem_of_difference. by apply (HXY y). Qed.

Lemma successful_set_apart_add jctx qctx :
  successful_set_apart qctx → successful_set_apart (Q.AddJobSchedulingContext jctx qctx).2.
Proof.
  intros [H1 H2]. unfold Q.AddJobSchedulingContext.
  destruct (Q.has (Q.SuccessfulJobSchedulingContexts qctx) _) eqn:Hs; [done|].
  destruct (Q.has (Q.UnsuccessfulJobSchedulingContexts qctx) _) eqn:Hu; [done|].
  apply has_false_dom in Hs, Hu.
  destruct (J.IsSuccessful jctx).
  - destruct (J.PodRequirements jctx) as [req|]; [|done].
    destruct (Q.has (Q.EvictedJobsById qctx) _) eqn:He; unfold successful_set_apart; cbn.
    + rewrite dom_delete_L. split; [done|]. by apply disjoint_remove_r.
    + apply has_false_dom in He. rewrite dom_insert_L.
      split; by apply disjoint_add_l.
  - unfold successful_set_apart; cbn. rewrite dom_insert_L.
    split; [|done]. by apply disjoint_add_r.
Qed.

Lemma successful_set_apart_evict job qctx :
  successful_set_apart qctx → successful_set_apart (Q.EvictJob job qctx).2.
Proof.
  intros [H1 H2]. unfold Q.EvictJob.
  destruct (Q.has (Q.UnsuccessfulJobSchedulingContexts qctx) _) eqn:Hu; [done|].
  destruct (Q.has (Q.EvictedJobsById qctx) _) eqn:He; [done|].
  apply has_false_dom in He, Hu.
  destruct (Q.has (Q.SuccessfulJobSchedulingContexts qctx) _) eqn:Hs;
    unfold successful_set_apart; cbn.
  - rewrite dom_delete_L. split; by apply disjoint_remove_l.
  - apply has_false_dom in Hs. rewrite dom_insert_L.
    split; [done|]. by apply disjoint_add_r.
Qed.

(** C2, as the spec states it, fails: an evicted job that then receives an
    unsuccessful decision is in both [unsuccessful] and [evicted]. *)
Lemma unsuccessful_evicted_overlap :
  let sctx := run [Scenario.registerA; OpEvictJob Scenario.j1;
                   OpAddJobSchedulingContext (Scenario.unschedulable Scenario.j1 "no node fits")]
                  Scenario.round0 in
  ∃ qctx, S.QueueSchedulingContexts sctx !! "A" = Some qctx ∧
          ¬ decision_sets_disjoint qctx.
Proof.
  cbv zeta. eexists. split; [vm_compute; reflexivity|].
  intros (_ & _ & H). apply (H "j1"); apply elem_of_dom; vm_compute; eauto.
Qed.

(** C2, amended.  After any sequence of public operations on a new round, in
    every queue context the successful set shares no job id with the
    unsuccessful set and none with the evicted set. *)
Theorem successful_set_stays_apart
    executorId pool priorityClasses defaultPriorityClass limiter totalResources
    (ops : list operation) (queue : string) (qctx : Q.t) :
  S.QueueSchedulingContexts
    (run ops (S.NewSchedulingContext executorId pool priorityClasses defaultPriorityClass
                limiter totalResources)) !! queue = Some qctx →
  dom (Q.SuccessfulJobSchedulingContexts qctx) ## dom (Q.UnsuccessfulJobSchedulingContexts qctx) ∧
  dom (Q.SuccessfulJobSchedulingContexts qctx) ## dom (Q.EvictedJobsById qctx).
Proof.
  intros Hq.
  eapply (every_queue_reachable successful_set_apart); [| | |exact Hq].
  - apply successful_set_apart_add.
  - apply successful_set_apart_evict.
  - intros. unfold successful_set_apart. cbn. rewrite dom_empty_L.
    split; apply disjoint_empty_l.
Qed.

(** ** The allocation of a queue *)

Lemma allocated_is_sum_add jctx qctx :
  allocated_is_sum qctx → allocated_is_sum (Q.AddJobSchedulingContext jctx qctx).2.
Proof.
  intros H. unfold Q.AddJobSchedulingContext.
  destruct (Q.has (Q.SuccessfulJobSchedulingContexts qctx) _); [done|].
  destruct (Q.has (Q.UnsuccessfulJobSchedulingContexts qctx) _); [done|].
  destruct (J.IsSuccessful jctx); [|done].
  destruct (J.PodRequirements jctx) as [req|]; [|done].
  assert (Hgoal : schedulerobjects.Equal
    (schedulerobjects.AddV1ResourceList (Q.Allocated qctx) (PodRequirements.Requests req))
    (QBT.sum (QBT.AddV1ResourceList (Q.AllocatedByPriorityClass qctx)
                (Job.GetPriorityClassName (J.Job jctx)) (PodRequirements.Requests req)))).
  { intros t. rewrite Get_AddV1ResourceList, Get_sum. unfold QBT.AddV1ResourceList.
    rewrite total_insert, Get_AddV1ResourceList, <- Get_sum, (H t). lia. }
  destruct (Q.has (Q.EvictedJobsById qctx) _); exact Hgoal.
Qed.

Lemma allocated_is_sum_evict job qctx :
  allocated_is_sum qctx → allocated_is_sum (Q.EvictJob job qctx).2.
Proof.
  intros H. unfold Q.EvictJob.
  destruct (Q.has (Q.UnsuccessfulJobSchedulingContexts qctx) _); [done|].
  destruct (Q.has (Q.EvictedJobsById qctx) _); [done|].
  assert (Hgoal : schedulerobjects.Equal
    (schedulerobjects.SubV1ResourceList (Q.Allocated qctx) (Job.GetRequests job))
    (QBT.sum (QBT.SubV1ResourceList (Q.AllocatedByPriorityClass qctx)
                (Job.GetPriorityClassName job) (Job.GetRequests job)))).
  { intros t. rewrite Get_SubV1ResourceList, Get_sum. unfold QBT.SubV1ResourceList.
    rewrite total_insert, Get_SubV1ResourceList, <- Get_sum, (H t). lia. }
  destruct (Q.has (Q.SuccessfulJobSchedulingContexts qctx) _); exact Hgoal.
Qed.

(** C7.  After any sequence of public operations on a new round, the
    [Allocated] vector of every queue context equals the sum over the
    priority classes of its [AllocatedByPriorityClass]: resource by resource,
    the quantity in [Allocated] is the total of the per-class quantities. *)
Theorem allocated_equals_sum_over_classes
    executorId pool priorityClasses defaultPriorityClass limiter totalResources
    (ops : list operation) (queue : string) (qctx : Q.t) :
  S.QueueSchedulingContexts
    (run ops (S.NewSchedulingContext executorId pool priorityClasses defaultPriorityClass
                limiter totalResources)) !! queue = Some qctx →
  schedulerobjects.Equal (Q.Allocated qctx) (QBT.sum (Q.AllocatedByPriorityClass qctx)) ∧
  ∀ t, schedulerobjects.Get (Q.Allocated qctx) t = total (Q.AllocatedByPriorityClass qctx) t.
Proof.
  intros Hq.
  assert (H : allocated_is_sum qctx).
  { eapply (every_queue_reachable allocated_is_sum); [| | |exact Hq].
    - apply allocated_is_sum_add.
    - apply allocated_is_sum_evict.
    - intros. apply Equal_refl. }
  split; [exact H|]. intros t. rewrite <- Get_sum. apply H.
Qed.

(** ** The cache of unfeasible scheduling keys *)

Lemma AddGangSchedulingContext_loop_frame jctxs ae asucc sctx :
  same_frame sctx (S.AddGangSchedulingContext_loop jctxs ae asucc sctx).2.
Proof.
  revert ae asucc sctx. induction jctxs as [|jctx jctxs IH]; intros ae asucc sctx;
    [apply same_frame_refl|].
  cbn. pose proof (AddJobSchedulingContext_frame jctx sctx) as H1.
  destruct (S.AddJobSchedulingContext jctx sctx) as [[b|e0] s1]; [|done].
  eapply same_frame_trans; [exact H1|apply IH].
Qed.

Lemma EvictGang_loop_frame jobs acc sctx :
  same_frame sctx (S.EvictGang_loop jobs acc sctx).2.
Proof.
  revert acc sctx. induction jobs as [|job jobs IH]; intros acc sctx;
    [apply same_frame_refl|].
  cbn. pose proof (EvictJob_frame job sctx) as H1.
  destruct (S.EvictJob job sctx) as [[b|e0] s1]; [|done].
  eapply same_frame_trans; [exact H1|apply IH].
Qed.

Lemma cache_after_step sctx o :
  S.UnfeasibleSchedulingKeys (step sctx o) = cache_step (S.UnfeasibleSchedulingKeys sctx) o.
Proof.
  destruct o as [queue weight initial limiter|gctx|jctx|jobs|job|key jctx|]; cbn.
  - unfold S.AddQueueSchedulingContext. by case_match.
  - unfold S.AddGangSchedulingContext.
    pose proof (AddGangSchedulingContext_loop_frame
                  (GangSchedulingContext.JobSchedulingContexts gctx) true true sctx) as (_&H&_).
    destruct (S.AddGangSchedulingContext_loop _ _ _ _) as [[[ae asucc]|e] s1]; [|done].
    cbn. by destruct (asucc && negb ae).
  - apply AddJobSchedulingContext_frame.
  - unfold S.EvictGang.
    pose proof (EvictGang_loop_frame jobs true sctx) as (_&H&_).
    destruct (S.EvictGang_loop _ _ _) as [[b|e] s1]; [|done].
    cbn. by destruct b.
  - apply EvictJob_frame.
  - done.
  - done.
Qed.

(** C8, as the spec states it, fails: the cache is written by the caller
    only.  Job j3 is scheduled; job j4, with the same requirements and hence
    the same scheduling key, then finds no room and its key is put in the
    cache, which now holds the key of the successfully scheduled j3. *)
Lemma cache_keeps_key_of_scheduled_job :
  let key := S.SchedulingKeyFromLegacySchedulerJob Scenario.round0 Scenario.j4 in
  let sctx := run [Scenario.registerA;
                   OpAddJobSchedulingContext (Scenario.scheduled Scenario.j3);
                   OpAddJobSchedulingContext (Scenario.unschedulable Scenario.j4 "no node fits");
                   OpInsertUnfeasibleSchedulingKey key
                     (Scenario.unschedulable Scenario.j4 "no node fits")]
                  Scenario.round0 in
  ¬ cache_avoids_successful sctx.
Proof.
  cbv zeta. intros H.
  set (sctx := run _ Scenario.round0) in *.
  assert (∃ qctx, S.QueueSchedulingContexts sctx !! "A" = Some qctx ∧
                  Q.SuccessfulJobSchedulingContexts qctx !! "j3"
                  = Some (Scenario.scheduled Scenario.j3)) as (qctx & Hq & Hj).
  { eexists. split; [vm_compute; reflexivity|]. vm_compute. reflexivity. }
  specialize (H _ _ _ _ Hq Hj). vm_compute in H. discriminate.
Qed.

(** C8, amended.  After any sequence of public operations the cache of
    unfeasible scheduling keys is what the caller's insertions and clearings
    made it: registering a queue and applying or evicting jobs and gangs
    neither add nor remove an entry. *)
Theorem cache_written_by_caller_only (ops : list operation) (sctx : S.t) :
  S.UnfeasibleSchedulingKeys (run ops sctx)
  = fold_left cache_step ops (S.UnfeasibleSchedulingKeys sctx).
Proof.
  revert sctx. induction ops as [|o ops IH]; intros sctx; [done|].
  cbn. by rewrite IH, cache_after_step.
Qed.

(** ** Reading the allocation *)

Lemma ResourceList_IsZero_spec (rl : gmap string Z) :
  schedulerobjects.IsZero rl = true ↔ ∀ t, schedulerobjects.Get rl t = 0.
Proof.
  unfold schedulerobjects.IsZero, schedulerobjects.Get.
  rewrite bool_decide_eq_true, map_Forall_lookup. split.
  - intros H t. destruct (rl !! t) as [q|] eqn:Ht; [|done]. by apply (H t).
  - intros H t q Ht. specialize (H t). by rewrite Ht in H.
Qed.

Lemma IsZero_spec (a : gmap string (gmap string Z)) :
  QBT.IsZero a = true ↔ ∀ p t, schedulerobjects.Get (QBT.at_ a p) t = 0.
Proof.
  unfold QBT.IsZero, QBT.at_.
  rewrite bool_decide_eq_true, map_Forall_lookup. split.
  - intros H p t. destruct (a !! p) as [rl|] eqn:Hp; [|apply Get_empty].
    by apply ResourceList_IsZero_spec, (H p).
  - intros H p rl Hp. apply ResourceList_IsZero_spec. intros t.
    specialize (H p t). by rewrite Hp in H.
Qed.

(** C9.  [AllocatedByQueueAndPriority] leaves the round as it is.  The map it
    returns has an entry for exactly the registered queues whose
    [AllocatedByPriorityClass] is not zero throughout, and the entry of such a
    queue is that queue's [AllocatedByPriorityClass]. *)
Theorem allocated_by_queue_and_priority (sctx : S.t) :
  (S.AllocatedByQueueAndPriority sctx).2 = sctx ∧
  (∀ queue,
     (S.AllocatedByQueueAndPriority sctx).1 !! queue
     = match S.QueueSchedulingContexts sctx !! queue with
       | Some qctx =>
           if QBT.IsZero (Q.AllocatedByPriorityClass qctx) then None
           else Some (Q.AllocatedByPriorityClass qctx)
       | None => None
       end) ∧
  (∀ queue,
     is_Some ((S.AllocatedByQueueAndPriority sctx).1 !! queue) ↔
     ∃ qctx, S.QueueSchedulingContexts sctx !! queue = Some qctx ∧
             ¬ ∀ p t, schedulerobjects.Get (QBT.at_ (Q.AllocatedByPriorityClass qctx) p) t = 0).
Proof.
  assert (Hlookup : ∀ queue,
     (S.AllocatedByQueueAndPriority sctx).1 !! queue
     = match S.QueueSchedulingContexts sctx !! queue with
       | Some qctx =>
           if QBT.IsZero (Q.AllocatedByPriorityClass qctx) then None
           else Some (Q.AllocatedByPriorityClass qctx)
       | None => None
       end).
  { unfold S.AllocatedByQueueAndPriority. cbn.
    induction (S.QueueSchedulingContexts sctx) as [|q qctx m Hq Hfirst IH]
      using map_first_key_ind; intros queue.
    - by rewrite map_fold_empty, !lookup_empty.
    - rewrite map_fold_insert_first_key by done.
      rewrite (lookup_insert m). case_decide as Heq.
      + subst queue. destruct (QBT.IsZero (Q.AllocatedByPriorityClass qctx)); cbn.
        * by rewrite IH, Hq.
        * unfold QBT.DeepCopy. by rewrite lookup_insert_eq.
      + destruct (QBT.IsZero (Q.AllocatedByPriorityClass qctx)); cbn.
        * apply IH.
        * rewrite lookup_insert_ne by done. apply IH. }
  split; [done|]. split; [exact Hlookup|].
  intros queue. rewrite Hlookup.
  destruct (S.QueueSchedulingContexts sctx !! queue) as [qctx|].
  - destruct (QBT.IsZero (Q.AllocatedByPriorityClass qctx)) eqn:Hz.
    + split; [by intros [? ?]|]. intros (? & [= <-] & Hnz).
      exfalso. by apply Hnz, IsZero_spec.
    + split; [|by eauto]. intros _. exists qctx. split; [done|].
      intros Hzero. apply IsZero_spec in Hzero. congruence.
  - split; [by intros [? ?]|]. by intros (? & ? & _).
Qed.

(** ** The theorems at concrete rounds *)

(** Queue B starts with 5 cpu and 50 memory allocated in class p1; job j2 is
    evicted and then scheduled again. *)
Lemma evict_then_schedule_cancels_witness :
  let sctx := run [Scenario.registerB] Scenario.round0 in
  let sctx1 := step sctx (OpEvictJob Scenario.j2) in
  S.EvictJob Scenario.j2 sctx = (Ok false, sctx1) ∧
  GoInt.in_range (S.NumEvictedJobs sctx) ∧
  ∃ sctx2, S.AddJobSchedulingContext (Scenario.scheduled Scenario.j2) sctx1 = (Ok true, sctx2) ∧
           S.NumEvictedJobs sctx2 = S.NumEvictedJobs sctx ∧
           schedulerobjects.Equal (S.EvictedResources sctx2) (S.EvictedResources sctx).
Proof.
  cbv zeta.
  assert (Hevict : S.EvictJob Scenario.j2 (run [Scenario.registerB] Scenario.round0)
                   = (Ok false, step (run [Scenario.registerB] Scenario.round0)
                                  (OpEvictJob Scenario.j2)))
    by (vm_compute; reflexivity).
  assert (Hrange : GoInt.in_range
                     (S.NumEvictedJobs (run [Scenario.registerB] Scenario.round0)))
    by (vm_compute; split; discriminate).
  split; [exact Hevict|]. split; [exact Hrange|].
  destruct (S.QueueSchedulingContexts (run [Scenario.registerB] Scenario.round0) !! "B")
    as [qctx|] eqn:Hq; [|vm_compute in Hq; discriminate].
  destruct (evict_then_schedule_cancels
               (run [Scenario.registerB] Scenario.round0)
               (step (run [Scenario.registerB] Scenario.round0) (OpEvictJob Scenario.j2))
               qctx Scenario.j2
               (Scenario.scheduled Scenario.j2) (PodRequirements.mk (Scenario.cpu_mem 5 50) ∅)
               Hq eq_refl eq_refl eq_refl eq_refl eq_refl Hrange Hevict)
    as (sctx2 & qctx1 & qctx2 & _ & _ & Hadd & _ & _ & Hev & _ & Hn & _).
  exists sctx2. split; [exact Hadd|]. split; [exact Hn|exact Hev].
Defined.

(** An empty queue context receives a successful decision for job j1. *)
Lemma queue_add_successful_job_witness :
  let qctx := Q.mk "executor" "A" Scenario.one None ∅ ∅ ∅ ∅ ∅ ∅ ∅ in
  let jctx := Scenario.scheduled Scenario.j1 in
  J.IsSuccessful jctx = true ∧
  Q.SuccessfulJobSchedulingContexts qctx !! J.JobId jctx = None ∧
  Q.UnsuccessfulJobSchedulingContexts qctx !! J.JobId jctx = None ∧
  ∃ qctx', Q.AddJobSchedulingContext jctx qctx = (Ok false, qctx') ∧
           schedulerobjects.Get (Q.Allocated qctx') "cpu" = 0 + 2.
Proof.
  cbv zeta.
  assert (Hok : J.IsSuccessful (Scenario.scheduled Scenario.j1) = true) by reflexivity.
  assert (Hs : Q.SuccessfulJobSchedulingContexts
                 (Q.mk "executor" "A" Scenario.one None ∅ ∅ ∅ ∅ ∅ ∅ ∅)
                 !! J.JobId (Scenario.scheduled Scenario.j1) = None) by reflexivity.
  assert (Hu : Q.UnsuccessfulJobSchedulingContexts
                 (Q.mk "executor" "A" Scenario.one None ∅ ∅ ∅ ∅ ∅ ∅ ∅)
                 !! J.JobId (Scenario.scheduled Scenario.j1) = None) by reflexivity.
  split; [exact Hok|]. split; [exact Hs|]. split; [exact Hu|].
  destruct (queue_add_successful_job
              (Q.mk "executor" "A" Scenario.one None ∅ ∅ ∅ ∅ ∅ ∅ ∅)
              (Scenario.scheduled Scenario.j1)
              (PodRequirements.mk (Scenario.cpu_mem 2 20) ∅)
              Hok eq_refl Hs Hu)
    as (qctx' & Hadd & Halloc & _).
  exists qctx'. split; [exact Hadd|]. exact (Halloc "cpu").
Defined.

(** Job j1 is scheduled in queue A and then evicted. *)
Lemma evict_job_effect_witness :
  let sctx := run [Scenario.registerA;
                   OpAddJobSchedulingContext (Scenario.scheduled Scenario.j1)] Scenario.round0 in
  ∃ qctx, S.QueueSchedulingContexts sctx !! "A" = Some qctx ∧
          Q.UnsuccessfulJobSchedulingContexts qctx !! "j1" = None ∧
          Q.EvictedJobsById qctx !! "j1" = None ∧
          ∃ sctx', S.EvictJob Scenario.j1 sctx = (Ok true, sctx').
Proof.
  cbv zeta.
  destruct (S.QueueSchedulingContexts
              (run [Scenario.registerA;
                    OpAddJobSchedulingContext (Scenario.scheduled Scenario.j1)] Scenario.round0)
              !! "A") as [qctx|] eqn:Hq; [|vm_compute in Hq; discriminate].
  assert (Hu : Q.UnsuccessfulJobSchedulingContexts qctx !! "j1" = None).
  { vm_compute in Hq. injection Hq as <-. reflexivity. }
  assert (He : Q.EvictedJobsById qctx !! "j1" = None).
  { vm_compute in Hq. injection Hq as <-. reflexivity. }
  exists qctx. split; [reflexivity|]. split; [exact Hu|]. split; [exact He|].
  destruct (evict_job_effect _ Scenario.j1 qctx Hq) as (_ & _ & Heffect).
  destruct (Heffect Hu He) as (sctx' & qctx' & Hev & _).
  assert (Hs : bool_decide (is_Some (Q.SuccessfulJobSchedulingContexts qctx
                                       !! Job.GetId Scenario.j1)) = true).
  { vm_compute in Hq. injection Hq as <-. reflexivity. }
  rewrite Hs in Hev.
  exists sctx'. exact Hev.
Defined.

(** Job j1 of queue A was evicted; a gang of j1 and j3 reschedules j1 and
    schedules j3 and is counted. *)
Lemma gang_counted_once_witness :
  let sctx := run [Scenario.registerA; OpEvictJob Scenario.j1] Scenario.round0 in
  let gctx := GangSchedulingContext.mk [Scenario.scheduled Scenario.j1;
                                        Scenario.scheduled Scenario.j3] in
  S.AddGangSchedulingContext gctx sctx = (Ok false, step sctx (OpAddGangSchedulingContext gctx)) ∧
  evicted_at_entry sctx (GangSchedulingContext.JobSchedulingContexts gctx) = [true; false] ∧
  S.NumScheduledGangs (step sctx (OpAddGangSchedulingContext gctx))
  = GoInt.incr (S.NumScheduledGangs sctx).
Proof.
  cbv zeta.
  set (sctx := run [Scenario.registerA; OpEvictJob Scenario.j1] Scenario.round0).
  set (gctx := GangSchedulingContext.mk [Scenario.scheduled Scenario.j1;
                                         Scenario.scheduled Scenario.j3]).
  assert (Hadd : S.AddGangSchedulingContext gctx sctx
                 = (Ok false, step sctx (OpAddGangSchedulingContext gctx)))
    by (vm_compute; reflexivity).
  assert (Hentry : evicted_at_entry sctx (GangSchedulingContext.JobSchedulingContexts gctx)
                   = [true; false])
    by (vm_compute; reflexivity).
  assert (Hcounts : counts_as_scheduled_gang sctx gctx = true)
    by (vm_compute; reflexivity).
  split; [exact Hadd|]. split; [exact Hentry|].
  destruct (gang_counted_once sctx _ gctx false Hadd) as [Hn _].
  rewrite Hn, Hcounts. reflexivity.
Defined.

(** A gang of three jobs of queue A whose second member, j4, already has an
    unsuccessful decision: the first member is applied, the gang stops at j4
    and the third member is not reached. *)
Lemma error_leaves_applied_prefix_witness :
  let sctx := run [Scenario.registerA;
                   OpAddJobSchedulingContext
                     (Scenario.unschedulable Scenario.j4 "no node fits")]
                Scenario.round0 in
  let o := OpAddGangSchedulingContext
             (GangSchedulingContext.mk [Scenario.scheduled Scenario.j3;
                                        Scenario.scheduled Scenario.j4;
                                        Scenario.scheduled Scenario.j1]) in
  fails sctx o = true ∧
  step sctx o = run [OpAddJobSchedulingContext (Scenario.scheduled Scenario.j3)] sctx ∧
  ∃ applied failing rest,
    [Scenario.scheduled Scenario.j3; Scenario.scheduled Scenario.j4;
     Scenario.scheduled Scenario.j1] = applied ++ failing :: rest ∧
    step sctx o = run (OpAddJobSchedulingContext <$> applied) sctx ∧
    fails (step sctx o) (OpAddJobSchedulingContext failing) = true ∧
    S.NumScheduledGangs (step sctx o) = S.NumScheduledGangs sctx.
Proof.
  cbv zeta.
  set (sctx := run [Scenario.registerA;
                    OpAddJobSchedulingContext
                      (Scenario.unschedulable Scenario.j4 "no node fits")]
                 Scenario.round0).
  set (gctx := GangSchedulingContext.mk [Scenario.scheduled Scenario.j3;
                                         Scenario.scheduled Scenario.j4;
                                         Scenario.scheduled Scenario.j1]).
  assert (Hfails : fails sctx (OpAddGangSchedulingContext gctx) = true)
    by (vm_compute; reflexivity).
  split; [exact Hfails|]. split; [vm_compute; reflexivity|].
  destruct (error_leaves_applied_prefix sctx (OpAddGangSchedulingContext gctx) Hfails)
    as (applied & failing & rest & Hl & _ & Hrun & Hfailing & _ & Hgangs & _).
  exists applied, failing, rest.
  split; [exact Hl|]. split; [exact Hrun|]. split; [exact Hfailing|exact Hgangs].
Defined.

(** Queue A after job j1 was evicted and then received an unsuccessful
    decision. *)
Lemma successful_set_stays_apart_witness :
  let sctx := run [Scenario.registerA; OpEvictJob Scenario.j1;
                   OpAddJobSchedulingContext (Scenario.unschedulable Scenario.j1 "no node fits")]
                  Scenario.round0 in
  ∃ qctx, S.QueueSchedulingContexts sctx !! "A" = Some qctx ∧
          dom (Q.SuccessfulJobSchedulingContexts qctx) ## dom (Q.EvictedJobsById qctx).
Proof.
  cbv zeta.
  destruct (S.QueueSchedulingContexts
              (run [Scenario.registerA; OpEvictJob Scenario.j1;
                    OpAddJobSchedulingContext
                      (Scenario.unschedulable Scenario.j1 "no node fits")]
                 Scenario.round0) !! "A") as [qctx|] eqn:Hq; [|vm_compute in Hq; discriminate].
  exists qctx. split; [reflexivity|].
  exact (proj2 (successful_set_stays_apart _ _ _ _ _ _ _ "A" qctx Hq)).
Defined.

(** Queue B after job j2 was evicted. *)
Lemma allocated_equals_sum_over_classes_witness :
  let sctx := run [Scenario.registerB; OpEvictJob Scenario.j2] Scenario.round0 in
  ∃ qctx, S.QueueSchedulingContexts sctx !! "B" = Some qctx ∧
          schedulerobjects.Get (Q.Allocated qctx) "cpu"
          = total (Q.AllocatedByPriorityClass qctx) "cpu".
Proof.
  cbv zeta.
  destruct (S.QueueSchedulingContexts
              (run [Scenario.registerB; OpEvictJob Scenario.j2] Scenario.round0) !! "B")
    as [qctx|] eqn:Hq; [|vm_compute in Hq; discriminate].
  exists qctx. split; [reflexivity|].
  exact (proj2 (allocated_equals_sum_over_classes _ _ _ _ _ _ _ "B" qctx Hq) "cpu").
Defined.

(** ** The end-to-end scenarios *)

(** A single job is scheduled in queue A. *)
Example scenario_single_scheduling :
  let sctx := run [Scenario.registerA;
                   OpAddJobSchedulingContext (Scenario.scheduled Scenario.j1)] Scenario.round0 in
  S.ScheduledResources sctx = Scenario.cpu_mem 2 20 ∧
  S.NumScheduledJobs sctx = 1 ∧
  Q.Allocated <$> S.QueueSchedulingContexts sctx !! "A" = Some (Scenario.cpu_mem 2 20) ∧
  Q.AllocatedByPriorityClass <$> S.QueueSchedulingContexts sctx !! "A"
  = Some (<["p1" := Scenario.cpu_mem 2 20]> ∅) ∧
  Q.ScheduledResourcesByPriorityClass <$> S.QueueSchedulingContexts sctx !! "A"
  = Some (<["p1" := Scenario.cpu_mem 2 20]> ∅).
Proof. cbv zeta. repeat split; vm_compute; reflexivity. Qed.

(** The job scheduled in this round is evicted again. *)
Example scenario_evict_freshly_scheduled :
  let sctx := run [Scenario.registerA;
                   OpAddJobSchedulingContext (Scenario.scheduled Scenario.j1);
                   OpEvictJob Scenario.j1] Scenario.round0 in
  S.ScheduledResources sctx = Scenario.cpu_mem 0 0 ∧
  S.NumScheduledJobs sctx = 0 ∧
  S.NumEvictedJobs sctx = 0 ∧
  Q.Allocated <$> S.QueueSchedulingContexts sctx !! "A" = Some (Scenario.cpu_mem 0 0).
Proof. cbv zeta. repeat split; vm_compute; reflexivity. Qed.

(** A job of queue B is evicted and scheduled again. *)
Example scenario_evict_then_schedule :
  let sctx := run [Scenario.registerB; OpEvictJob Scenario.j2;
                   OpAddJobSchedulingContext (Scenario.scheduled Scenario.j2)] Scenario.round0 in
  Q.Allocated <$> S.QueueSchedulingContexts sctx !! "B" = Some (Scenario.cpu_mem 5 50) ∧
  Q.EvictedJobsById <$> S.QueueSchedulingContexts sctx !! "B" = Some ∅ ∧
  S.EvictedResources sctx = Scenario.cpu_mem 0 0 ∧
  S.ScheduledResources sctx = ∅ ∧
  S.NumScheduledJobs sctx = 0 ∧
  S.NumEvictedJobs sctx = 0.
Proof. cbv zeta. repeat split; vm_compute; reflexivity. Qed.

(** A gang of two jobs of which the second cannot be scheduled. *)
Example scenario_gang_partial_failure :
  let gctx := GangSchedulingContext.mk [Scenario.scheduled Scenario.j3;
                                        Scenario.unschedulable Scenario.j4 "no node fits"] in
  let sctx := run [Scenario.registerA; OpAddGangSchedulingContext gctx] Scenario.round0 in
  S.NumScheduledGangs sctx = 0 ∧
  S.ScheduledResources sctx = Scenario.cpu_mem 1 10 ∧
  S.NumScheduledJobs sctx = 1 ∧
  dom <$> (Q.UnsuccessfulJobSchedulingContexts <$> S.QueueSchedulingContexts sctx !! "A")
  = Some {["j4"]}.
Proof. cbv zeta. repeat split; vm_compute; reflexivity. Qed.

(** Queue A is registered twice. *)
Example scenario_duplicate_queue :
  let sctx := run [Scenario.registerA] Scenario.round0 in
  S.AddQueueSchedulingContext "A" Scenario.one None None sctx = (Err (ErrQueueExists "A"), sctx) ∧
  S.WeightSum sctx = Scenario.one.
Proof. cbv zeta. split; vm_compute; reflexivity. Qed.

(** * Further properties of the round *)

(** Reduces the projections of updated records, and nothing else. *)
Ltac fields :=
  cbn [S.ExecutorId S.Pool S.PriorityClasses S.DefaultPriorityClass S.Limiter S.WeightSum
       S.QueueSchedulingContexts S.TotalResources S.ScheduledResources
       S.ScheduledResourcesByPriorityClass S.EvictedResources
       S.EvictedResourcesByPriorityClass S.NumScheduledJobs S.NumScheduledGangs
       S.NumEvictedJobs S.TerminationReason S.UnfeasibleSchedulingKeys
       S.set_WeightSum S.set_QueueSchedulingContexts S.set_ScheduledResources
       S.set_ScheduledResourcesByPriorityClass S.set_EvictedResources
       S.set_EvictedResourcesByPriorityClass S.set_NumScheduledJobs
       S.set_NumScheduledGangs S.set_NumEvictedJobs S.set_UnfeasibleSchedulingKeys
       Q.ExecutorId Q.Queue Q.Weight Q.Limiter Q.Allocated Q.AllocatedByPriorityClass
       Q.ScheduledResourcesByPriorityClass Q.EvictedResourcesByPriorityClass
       Q.SuccessfulJobSchedulingContexts Q.UnsuccessfulJobSchedulingContexts
       Q.EvictedJobsById
       Q.set_Allocated Q.set_AllocatedByPriorityClass
       Q.set_ScheduledResourcesByPriorityClass Q.set_EvictedResourcesByPriorityClass
       Q.set_SuccessfulJobSchedulingContexts Q.set_UnsuccessfulJobSchedulingContexts
       Q.set_EvictedJobsById
       J.JobId J.Job J.PodRequirements J.UnschedulableReason
       fst snd is_err].


(** ** A gang is its members in order *)

Lemma AddGangSchedulingContext_loop_run (jctxs : list J.t) (ae asucc : bool)
    (sctx sctx' : S.t) (r : bool * bool) :
  S.AddGangSchedulingContext_loop jctxs ae asucc sctx = (Ok r, sctx') →
  sctx' = run (OpAddJobSchedulingContext <$> jctxs) sctx ∧
  ∀ before jctx after, jctxs = before ++ jctx :: after →
    fails (run (OpAddJobSchedulingContext <$> before) sctx)
      (OpAddJobSchedulingContext jctx) = false.
Proof.
  revert ae asucc sctx. induction jctxs as [|jctx jctxs IH]; intros ae asucc sctx; cbn.
  - intros [= _ <-]. split; [done|]. by intros [|??] ?? ?.
  - destruct (S.AddJobSchedulingContext jctx sctx) as [[b|e0] s1] eqn:Hadd; [|done].
    intros [-> Hall]%IH. split; [done|].
    intros [|j0 before] j after Heq; simplify_eq/=.
    + by rewrite Hadd.
    + rewrite Hadd. cbn. by eapply Hall.
Qed.

Lemma EvictGang_loop_run (jobs : list Job.t) (acc : bool) (sctx sctx' : S.t) (r : bool) :
  S.EvictGang_loop jobs acc sctx = (Ok r, sctx') →
  sctx' = run (OpEvictJob <$> jobs) sctx ∧
  ∀ before job after, jobs = before ++ job :: after →
    fails (run (OpEvictJob <$> before) sctx) (OpEvictJob job) = false.
Proof.
  revert acc sctx. induction jobs as [|job jobs IH]; intros acc sctx; cbn.
  - intros [= _ <-]. split; [done|]. by intros [|??] ?? ?.
  - destruct (S.EvictJob job sctx) as [[b|e0] s1] eqn:Hev; [|done].
    intros [-> Hall]%IH. split; [done|].
    intros [|j0 before] j after Heq; simplify_eq/=.
    + by rewrite Hev.
    + rewrite Hev. cbn. by eapply Hall.
Qed.

Lemma set_NumScheduledGangs_id (sctx : S.t) :
  S.set_NumScheduledGangs (S.NumScheduledGangs sctx) sctx = sctx.
Proof. by destruct sctx. Qed.

(** X1.  A gang decision that is applied without error leaves the round as
    applying its members one after the other with [AddJobSchedulingContext]
    leaves it, up to [NumScheduledGangs]; none of those applications returns
    an error. *)
Theorem applied_gang_is_its_members (gctx : GangSchedulingContext.t) (sctx sctx' : S.t)
    (b : bool) :
  S.AddGangSchedulingContext gctx sctx = (Ok b, sctx') →
  sctx' = S.set_NumScheduledGangs (S.NumScheduledGangs sctx')
            (run (OpAddJobSchedulingContext <$> GangSchedulingContext.JobSchedulingContexts gctx)
               sctx) ∧
  ∀ before jctx after,
    GangSchedulingContext.JobSchedulingContexts gctx = before ++ jctx :: after →
    fails (run (OpAddJobSchedulingContext <$> before) sctx)
      (OpAddJobSchedulingContext jctx) = false.
Proof.
  unfold S.AddGangSchedulingContext.
  destruct (S.AddGangSchedulingContext_loop _ _ _ _) as [[[ae asucc]|e] s1] eqn:Hloop; [|done].
  apply AddGangSchedulingContext_loop_run in Hloop as [-> Hall].
  intros [= _ <-]. split; [|exact Hall].
  destruct (asucc && negb ae); cbn.
  - done.
  - by rewrite set_NumScheduledGangs_id.
Qed.

(** X2.  An [EvictGang] that returns without error leaves the round as
    evicting the jobs one after the other with [EvictJob] leaves it, up to
    [NumScheduledGangs]; none of those evictions returns an error. *)
Theorem evicted_gang_is_its_members (jobs : list Job.t) (sctx sctx' : S.t) (b : bool) :
  S.EvictGang jobs sctx = (Ok b, sctx') →
  sctx' = S.set_NumScheduledGangs (S.NumScheduledGangs sctx')
            (run (OpEvictJob <$> jobs) sctx) ∧
  ∀ before job after, jobs = before ++ job :: after →
    fails (run (OpEvictJob <$> before) sctx) (OpEvictJob job) = false.
Proof.
  unfold S.EvictGang.
  destruct (S.EvictGang_loop _ _ _) as [[r|e] s1] eqn:Hloop; [|done].
  apply EvictGang_loop_run in Hloop as [-> Hall].
  intros [= _ <-]. split; [|exact Hall].
  destruct r; cbn.
  - done.
  - by rewrite set_NumScheduledGangs_id.
Qed.

(** ** Scheduling followed by eviction *)

Lemma add_job_scheduled (sctx sctx1 : S.t) (qctx : Q.t) (jctx : J.t) :
  S.QueueSchedulingContexts sctx !! Job.GetQueue (J.Job jctx) = Some qctx →
  J.IsSuccessful jctx = true →
  S.AddJobSchedulingContext jctx sctx = (Ok false, sctx1) →
  Q.has (Q.SuccessfulJobSchedulingContexts qctx) (J.JobId jctx) = false ∧
  Q.has (Q.UnsuccessfulJobSchedulingContexts qctx) (J.JobId jctx) = false ∧
  Q.has (Q.EvictedJobsById qctx) (J.JobId jctx) = false ∧
  is_Some (J.PodRequirements jctx).
Proof.
  intros Hq Hok. unfold S.AddJobSchedulingContext. rewrite Hq.
  unfold Q.AddJobSchedulingContext. rewrite Hok.
  destruct (Q.has (Q.SuccessfulJobSchedulingContexts qctx) _); [done|].
  destruct (Q.has (Q.UnsuccessfulJobSchedulingContexts qctx) _); [done|].
  destruct (J.PodRequirements jctx); [|done].
  destruct (Q.has (Q.EvictedJobsById qctx) _); [done|]. eauto.
Qed.

(** X3.  Let a successful decision for a job of a registered queue be applied
    and stored as newly scheduled, and let the job be evicted next, with the
    same requests.  The eviction succeeds and reports the job as scheduled in
    this round, and afterwards the round's scheduled and evicted totals and
    job counts, the queue's allocation and three decision sets, and the
    entries of the job's priority class in the per-class tables of the round
    and of the queue, have the values they had before the decision was
    applied.  Resource vectors are compared quantity by quantity, and
    [NumScheduledJobs] is a Go [int]. *)
Theorem schedule_then_evict_cancels
    (sctx sctx1 : S.t) (qctx : Q.t) (job : Job.t) (jctx : J.t) (req : PodRequirements.t) :
  S.QueueSchedulingContexts sctx !! Job.GetQueue job = Some qctx →
  J.Job jctx = job →
  J.JobId jctx = Job.GetId job →
  J.IsSuccessful jctx = true →
  J.PodRequirements jctx = Some req →
  PodRequirements.Requests req = Job.GetRequests job →
  GoInt.in_range (S.NumScheduledJobs sctx) →
  S.AddJobSchedulingContext jctx sctx = (Ok false, sctx1) →
  let class := Job.GetPriorityClassName job in
  ∃ sctx2 qctx2,
    S.EvictJob job sctx1 = (Ok true, sctx2) ∧
    S.QueueSchedulingContexts sctx2 !! Job.GetQueue job = Some qctx2 ∧
    schedulerobjects.Equal (S.ScheduledResources sctx2) (S.ScheduledResources sctx) ∧
    schedulerobjects.Equal
      (QBT.at_ (S.ScheduledResourcesByPriorityClass sctx2) class)
      (QBT.at_ (S.ScheduledResourcesByPriorityClass sctx) class) ∧
    S.EvictedResources sctx2 = S.EvictedResources sctx ∧
    S.EvictedResourcesByPriorityClass sctx2 = S.EvictedResourcesByPriorityClass sctx ∧
    S.NumScheduledJobs sctx2 = S.NumScheduledJobs sctx ∧
    S.NumEvictedJobs sctx2 = S.NumEvictedJobs sctx ∧
    S.NumScheduledGangs sctx2 = S.NumScheduledGangs sctx ∧
    schedulerobjects.Equal
      (QBT.at_ (Q.ScheduledResourcesByPriorityClass qctx2) class)
      (QBT.at_ (Q.ScheduledResourcesByPriorityClass qctx) class) ∧
    Q.EvictedResourcesByPriorityClass qctx2 = Q.EvictedResourcesByPriorityClass qctx ∧
    schedulerobjects.Equal (Q.Allocated qctx2) (Q.Allocated qctx) ∧
    schedulerobjects.Equal
      (QBT.at_ (Q.AllocatedByPriorityClass qctx2) class)
      (QBT.at_ (Q.AllocatedByPriorityClass qctx) class) ∧
    Q.SuccessfulJobSchedulingContexts qctx2 = Q.SuccessfulJobSchedulingContexts qctx ∧
    Q.UnsuccessfulJobSchedulingContexts qctx2 = Q.UnsuccessfulJobSchedulingContexts qctx ∧
    Q.EvictedJobsById qctx2 = Q.EvictedJobsById qctx.
Proof.
  intros Hq Hjob Hid Hok Hreq Hrl Hrange Hadd class. subst job.
  destruct (add_job_scheduled _ _ _ _ Hq Hok Hadd) as (Hs & Hu & He & _).
  revert Hadd. unfold S.AddJobSchedulingContext. rewrite Hq.
  unfold Q.AddJobSchedulingContext. rewrite Hs, Hu, He, Hok, Hreq. cbn.
  intros [= <-].
  unfold S.EvictJob. cbn.
  rewrite lookup_insert_eq. unfold Q.EvictJob. cbn.
  rewrite <- Hid, Hu, He, has_insert, decide_True by done. cbn.
  rewrite Hrl. fold class.
  do 2 eexists.
  split; [reflexivity|]. cbn. split; [apply lookup_insert_eq|]. cbn.
  split; [apply Sub_Add_cancel|].
  split.
  { rewrite at_SubV1ResourceList, decide_True by done.
    rewrite at_AddV1ResourceList, decide_True by done. apply Sub_Add_cancel. }
  split; [reflexivity|]. split; [reflexivity|].
  split; [by apply decr_incr|].
  split; [reflexivity|]. split; [reflexivity|].
  split.
  { rewrite at_SubV1ResourceList, decide_True by done.
    rewrite at_AddV1ResourceList, decide_True by done. apply Sub_Add_cancel. }
  split; [reflexivity|].
  split; [apply Sub_Add_cancel|].
  split.
  { rewrite at_SubV1ResourceList, decide_True by done.
    rewrite at_AddV1ResourceList, decide_True by done. apply Sub_Add_cancel. }
  split; [|done].
  apply delete_insert_id. by apply has_false.
Qed.

(** ** When applying a decision fails *)

Lemma queue_AddJobSchedulingContext_fails (jctx : J.t) (qctx : Q.t) :
  is_err (Q.AddJobSchedulingContext jctx qctx).1 = true ↔
  is_Some (Q.SuccessfulJobSchedulingContexts qctx !! J.JobId jctx) ∨
  is_Some (Q.UnsuccessfulJobSchedulingContexts qctx !! J.JobId jctx) ∨
  (J.IsSuccessful jctx = true ∧ J.PodRequirements jctx = None).
Proof.
  unfold Q.AddJobSchedulingContext.
  destruct (Q.has (Q.SuccessfulJobSchedulingContexts qctx) _) eqn:Hs.
  { apply has_true in Hs. cbn. tauto. }
  destruct (Q.has (Q.UnsuccessfulJobSchedulingContexts qctx) _) eqn:Hu.
  { apply has_true in Hu. cbn. tauto. }
  apply has_false in Hs, Hu. rewrite Hs, Hu.
  destruct (J.IsSuccessful jctx); [destruct (J.PodRequirements jctx)|]; cbn.
  - split; [done|]. intros [[? ?]|[[? ?]|[_ ?]]]; done.
  - tauto.
  - split; [done|]. intros [[? ?]|[[? ?]|[? _]]]; done.
Qed.

(** X4.  Applying a job decision to a round returns an error exactly when the
    job's queue is not registered, or the job id is already in the queue's
    successful or unsuccessful set, or the decision is successful and has no
    pod requirements.  A call that returns without error returns whether the
    job id was in the queue's evicted set. *)
Theorem add_job_fails_exactly_when (jctx : J.t) (sctx : S.t) :
  (is_err (S.AddJobSchedulingContext jctx sctx).1 = true ↔
   S.QueueSchedulingContexts sctx !! Job.GetQueue (J.Job jctx) = None ∨
   ∃ qctx, S.QueueSchedulingContexts sctx !! Job.GetQueue (J.Job jctx) = Some qctx ∧
           (is_Some (Q.SuccessfulJobSchedulingContexts qctx !! J.JobId jctx) ∨
            is_Some (Q.UnsuccessfulJobSchedulingContexts qctx !! J.JobId jctx) ∨
            (J.IsSuccessful jctx = true ∧ J.PodRequirements jctx = None))) ∧
  (is_err (S.AddJobSchedulingContext jctx sctx).1 = false →
   (S.AddJobSchedulingContext jctx sctx).1 = Ok (in_evicted_set sctx jctx)).
Proof.
  split.
  - unfold S.AddJobSchedulingContext.
    destruct (S.QueueSchedulingContexts sctx !! _) as [qctx|] eqn:Hq; cbn.
    + pose proof (queue_AddJobSchedulingContext_fails jctx qctx) as Hfail.
      destruct (Q.AddJobSchedulingContext jctx qctx) as [[b|e] qctx']; cbn in *.
      * split; [done|]. intros [?|(? & [= <-] & H)]; [done|]. by apply Hfail.
      * split; [|done]. intros _. right. exists qctx. split; [done|]. by apply Hfail.
    + split; [by left|done].
  - destruct (S.AddJobSchedulingContext jctx sctx) as [[b|e] s'] eqn:Hadd; [|done].
    intros _. cbn. f_equal. by eapply AddJobSchedulingContext_returns.
Qed.

(** ** Decisions and evictions that come twice *)

Lemma EvictJob_returns (job : Job.t) (sctx sctx' : S.t) (b : bool) :
  S.EvictJob job sctx = (Ok b, sctx') → b = in_successful_set sctx job.
Proof.
  unfold S.EvictJob, in_successful_set.
  destruct (S.QueueSchedulingContexts sctx !! _) as [qctx|]; [|done].
  unfold Q.EvictJob.
  destruct (Q.has (Q.UnsuccessfulJobSchedulingContexts qctx) _); [done|].
  destruct (Q.has (Q.EvictedJobsById qctx) _); [done|].
  cbn. congruence.
Qed.

Lemma EvictJob_err_result (job : Job.t) (sctx : S.t) (e : error) :
  (S.EvictJob job sctx).1 = Err e → S.EvictJob job sctx = (Err e, sctx).
Proof.
  destruct (S.EvictJob job sctx) as [r s'] eqn:Hev. cbn. intros ->.
  by rewrite (EvictJob_err _ _ _ _ Hev).
Qed.

(** X6.  A job that [EvictJob] has placed in the evicted set cannot be evicted
    again, and a job with a stored unsuccessful decision cannot be evicted:
    the call returns the error naming that set and leaves the round as it
    is.  A job that was scheduled in this round and evicted is in none of the
    sets any more, so evicting it once more succeeds as the eviction of a job
    that was not scheduled in this round. *)
Theorem eviction_after_eviction_or_failure (job : Job.t) (sctx sctx1 : S.t) :
  (∀ again, S.EvictJob job sctx = (Ok false, sctx1) →
     job_filed_under again = job_filed_under job →
     S.EvictJob again sctx1 = (Err (ErrEvictAlreadyEvicted (Job.GetId job)), sctx1)) ∧
  (∀ jctx b, S.AddJobSchedulingContext jctx sctx = (Ok b, sctx1) →
     J.IsSuccessful jctx = false →
     job_filed_under job = filed_under jctx →
     S.EvictJob job sctx1 = (Err (ErrEvictAlreadyUnsuccessful (Job.GetId job)), sctx1)) ∧
  (S.EvictJob job sctx = (Ok true, sctx1) →
     ∃ sctx2 qctx2,
       S.EvictJob job sctx1 = (Ok false, sctx2) ∧
       S.QueueSchedulingContexts sctx2 !! Job.GetQueue job = Some qctx2 ∧
       Q.EvictedJobsById qctx2 !! Job.GetId job = Some true ∧
       S.NumEvictedJobs sctx2 = GoInt.incr (S.NumEvictedJobs sctx1)).
Proof.
  split; [|split].
  - intros again Hev [= Hqueue Hid].
    destruct (S.QueueSchedulingContexts sctx !! Job.GetQueue job) as [qctx|] eqn:Hq;
      [|by unfold S.EvictJob in Hev; rewrite Hq in Hev].
    destruct (evict_job_placed _ _ _ _ Hq Hev) as (Hu & He & Hs).
    apply EvictJob_err_result.
    revert Hev. unfold S.EvictJob at 1. rewrite Hq. unfold Q.EvictJob at 1.
    rewrite Hu, He, Hs. fields. intros [= <-].
    unfold S.EvictJob. rewrite Hqueue. fields. rewrite lookup_insert_eq.
    unfold Q.EvictJob. fields. rewrite Hid, Hu, has_insert, decide_True by done.
    done.
  - intros jctx b Hadd Hok [= Hqueue Hid]. revert Hadd.
    unfold S.AddJobSchedulingContext.
    destruct (S.QueueSchedulingContexts sctx !! _) as [qctx|] eqn:Hq; [|done].
    unfold Q.AddJobSchedulingContext. rewrite Hok.
    destruct (Q.has (Q.SuccessfulJobSchedulingContexts qctx) _) eqn:Hs; [done|].
    destruct (Q.has (Q.UnsuccessfulJobSchedulingContexts qctx) _) eqn:Hu; [done|].
    fields. intros [= _ <-]. apply EvictJob_err_result.
    unfold S.EvictJob. fields. rewrite Hqueue, lookup_insert_eq.
    unfold Q.EvictJob. fields. by rewrite Hid, has_insert, decide_True.
  - unfold S.EvictJob at 1.
    destruct (S.QueueSchedulingContexts sctx !! _) as [qctx|] eqn:Hq; [|done].
    unfold Q.EvictJob.
    destruct (Q.has (Q.UnsuccessfulJobSchedulingContexts qctx) _) eqn:Hu; [done|].
    destruct (Q.has (Q.EvictedJobsById qctx) _) eqn:He; [done|].
    destruct (Q.has (Q.SuccessfulJobSchedulingContexts qctx) _) eqn:Hs; [|done].
    fields. intros [= <-].
    unfold S.EvictJob. fields. rewrite lookup_insert_eq.
    unfold Q.EvictJob. fields. rewrite Hu, He, has_delete, decide_True by done. fields.
    do 2 eexists. split; [reflexivity|]. fields.
    split; [apply lookup_insert_eq|]. fields. split; [apply lookup_insert_eq|done].
Qed.

(** ** Counting evicted gangs *)

Lemma queue_EvictJob_successful_other (job : Job.t) (qctx : Q.t) (id : string) :
  Job.GetId job ≠ id →
  Q.has (Q.SuccessfulJobSchedulingContexts (Q.EvictJob job qctx).2) id
  = Q.has (Q.SuccessfulJobSchedulingContexts qctx) id.
Proof.
  intros Hne. unfold Q.EvictJob.
  repeat case_match; fields; try done.
  by rewrite has_delete, decide_False.
Qed.

Lemma in_successful_set_other (job other : Job.t) (sctx : S.t) :
  job_filed_under job ≠ job_filed_under other →
  in_successful_set (S.EvictJob job sctx).2 other = in_successful_set sctx other.
Proof.
  intros Hne. unfold in_successful_set.
  destruct (S.QueueSchedulingContexts sctx !! Job.GetQueue job) as [qctx|] eqn:Hq.
  - rewrite (EvictJob_queues _ _ _ Hq), lookup_insert.
    case_decide as Hqueue; [|done].
    rewrite <- Hqueue, Hq. apply queue_EvictJob_successful_other.
    intros Hid. apply Hne. unfold job_filed_under. by rewrite Hqueue, Hid.
  - by rewrite EvictJob_no_queue.
Qed.

Lemma EvictGang_loop_ok (jobs : list Job.t) (s0 sctx sctx' : S.t) (acc acc' : bool) :
  NoDup (job_filed_under <$> jobs) →
  (∀ job, job ∈ jobs → in_successful_set sctx job = in_successful_set s0 job) →
  S.EvictGang_loop jobs acc sctx = (Ok acc', sctx') →
  acc' = acc && forallb (in_successful_set s0) jobs ∧
  S.NumScheduledGangs sctx' = S.NumScheduledGangs sctx.
Proof.
  revert sctx acc.
  induction jobs as [|job jobs IH]; intros sctx acc Hnd Hsame; cbn.
  - intros [= <- <-]. by rewrite andb_true_r.
  - destruct (S.EvictJob job sctx) as [[b|e0] s1] eqn:Hev; [|done].
    intros Hloop. rewrite fmap_cons in Hnd. apply NoDup_cons in Hnd as [Hnotin Hnd].
    apply IH in Hloop as (-> & Hn); [| done |].
    + rewrite (EvictJob_returns _ _ _ _ Hev).
      rewrite Hsame by apply list_elem_of_here. rewrite !andb_assoc.
      split; [done|]. rewrite Hn.
      pose proof (EvictJob_frame job sctx) as [H _]. by rewrite Hev in H.
    + intros other Hin. rewrite <- Hsame by by apply list_elem_of_further.
      replace s1 with (S.EvictJob job sctx).2 by by rewrite Hev.
      apply in_successful_set_other. intros Heq. apply Hnotin. rewrite Heq.
      by apply list_elem_of_fmap_2.
Qed.

(** X7.  When no queue and job id occurs twice among the jobs and [EvictGang]
    returns without error, it returns whether every job was in the successful
    set of its queue when the call started, and decrements
    [NumScheduledGangs] in that case and in no other. *)
Theorem evicted_gang_counted_once (jobs : list Job.t) (sctx sctx' : S.t) (b : bool) :
  NoDup (job_filed_under <$> jobs) →
  S.EvictGang jobs sctx = (Ok b, sctx') →
  b = forallb (in_successful_set sctx) jobs ∧
  S.NumScheduledGangs sctx'
  = if b then GoInt.decr (S.NumScheduledGangs sctx) else S.NumScheduledGangs sctx.
Proof.
  intros Hnd. unfold S.EvictGang.
  destruct (S.EvictGang_loop jobs true sctx) as [[r|e] s1] eqn:Hloop; [|done].
  apply (EvictGang_loop_ok _ sctx) in Hloop as (-> & Hn); [|done..].
  cbn. intros [= <- <-]. split; [done|].
  destruct (forallb (in_successful_set sctx) jobs); fields; congruence.
Qed.

(** ** Properties of a round as a whole *)

Ltac invert_add_job H :=
  revert H; unfold S.AddJobSchedulingContext;
  let qctx := fresh "qctx" in
  let Hq := fresh "Hq" in
  destruct (S.QueueSchedulingContexts _ !! _) as [qctx|] eqn:Hq; [|done];
  unfold Q.AddJobSchedulingContext;
  let Hs := fresh "Hs" in
  destruct (Q.has (Q.SuccessfulJobSchedulingContexts qctx) _) eqn:Hs; [done|];
  let Hu := fresh "Hu" in
  destruct (Q.has (Q.UnsuccessfulJobSchedulingContexts qctx) _) eqn:Hu; [done|];
  let Hok := fresh "Hok" in
  destruct (J.IsSuccessful _) eqn:Hok;
  [ let req := fresh "req" in
    let Hreq := fresh "Hreq" in
    destruct (J.PodRequirements _) as [req|] eqn:Hreq; [|done];
    let He := fresh "He" in
    destruct (Q.has (Q.EvictedJobsById qctx) _) eqn:He
  | ];
  fields; intros [= <- <-].

Ltac invert_evict_job H :=
  revert H; unfold S.EvictJob;
  let qctx := fresh "qctx" in
  let Hq := fresh "Hq" in
  destruct (S.QueueSchedulingContexts _ !! _) as [qctx|] eqn:Hq; [|done];
  unfold Q.EvictJob;
  let Hu := fresh "Hu" in
  destruct (Q.has (Q.UnsuccessfulJobSchedulingContexts qctx) _) eqn:Hu; [done|];
  let He := fresh "He" in
  destruct (Q.has (Q.EvictedJobsById qctx) _) eqn:He; [done|];
  let Hs := fresh "Hs" in
  destruct (Q.has (Q.SuccessfulJobSchedulingContexts qctx) _) eqn:Hs;
  fields; intros [= <- <-].

Section round_invariant.

Variable I : S.t → Prop.
Hypothesis I_add :
  ∀ jctx sctx b sctx', I sctx → S.AddJobSchedulingContext jctx sctx = (Ok b, sctx') → I sctx'.
Hypothesis I_evict :
  ∀ job sctx b sctx', I sctx → S.EvictJob job sctx = (Ok b, sctx') → I sctx'.
Hypothesis I_queue :
  ∀ queue weight initial limiter sctx sctx', I sctx →
    S.AddQueueSchedulingContext queue weight initial limiter sctx = (Ok tt, sctx') → I sctx'.
Hypothesis I_gangs : ∀ n sctx, I sctx → I (S.set_NumScheduledGangs n sctx).
Hypothesis I_cache : ∀ cache sctx, I sctx → I (S.set_UnfeasibleSchedulingKeys cache sctx).

Lemma holds_after_AddJobSchedulingContext jctx sctx :
  I sctx → I (S.AddJobSchedulingContext jctx sctx).2.
Proof.
  intros HI. destruct (S.AddJobSchedulingContext jctx sctx) as [[b|e] s'] eqn:Hadd.
  - by eapply I_add.
  - by rewrite (AddJobSchedulingContext_err _ _ _ _ Hadd).
Qed.

Lemma holds_after_EvictJob job sctx : I sctx → I (S.EvictJob job sctx).2.
Proof.
  intros HI. destruct (S.EvictJob job sctx) as [[b|e] s'] eqn:Hev.
  - by eapply I_evict.
  - by rewrite (EvictJob_err _ _ _ _ Hev).
Qed.

Lemma holds_after_step sctx o : I sctx → I (step sctx o).
Proof.
  intros HI.
  destruct o as [queue weight initial limiter|gctx|jctx|jobs|job|key jctx|]; cbn.
  - destruct (S.AddQueueSchedulingContext _ _ _ _ _) as [[[]|e] s'] eqn:Hq.
    + by eapply I_queue.
    + by rewrite (AddQueueSchedulingContext_err _ _ _ _ _ _ _ Hq).
  - unfold S.AddGangSchedulingContext.
    assert (Hloop : ∀ jctxs ae asucc s, I s →
              I (S.AddGangSchedulingContext_loop jctxs ae asucc s).2).
    { induction jctxs as [|j jctxs IH]; intros ae asucc s Hs; [done|].
      cbn. pose proof (holds_after_AddJobSchedulingContext j s Hs) as H1.
      destruct (S.AddJobSchedulingContext j s) as [[b|e0] s1]; [|done]. by apply IH. }
    specialize (Hloop (GangSchedulingContext.JobSchedulingContexts gctx) true true sctx HI).
    destruct (S.AddGangSchedulingContext_loop _ _ _ _) as [[[ae asucc]|e] s1]; [|done].
    cbn. destruct (asucc && negb ae); [by apply I_gangs|done].
  - by apply holds_after_AddJobSchedulingContext.
  - unfold S.EvictGang.
    assert (Hloop : ∀ js acc s, I s → I (S.EvictGang_loop js acc s).2).
    { induction js as [|j js IH]; intros acc s Hs; [done|].
      cbn. pose proof (holds_after_EvictJob j s Hs) as H1.
      destruct (S.EvictJob j s) as [[b|e0] s1]; [|done]. by apply IH. }
    specialize (Hloop jobs true sctx HI).
    destruct (S.EvictGang_loop _ _ _) as [[b|e] s1]; [|done].
    cbn. destruct b; [by apply I_gangs|done].
  - by apply holds_after_EvictJob.
  - by apply I_cache.
  - by apply I_cache.
Qed.

Lemma holds_after_run ops sctx : I sctx → I (run ops sctx).
Proof.
  revert sctx. induction ops as [|o ops IH]; intros sctx HI; [done|].
  cbn. apply IH. by apply holds_after_step.
Qed.

End round_invariant.

(** ** Sums over the queues *)

Lemma map_sum_empty {V} (g : V → Z) : map_sum g ∅ = 0.
Proof. unfold map_sum. by rewrite map_fold_empty. Qed.

Lemma map_sum_insert {V} (g : V → Z) (m : gmap string V) (k : string) (v : V) :
  map_sum g (<[k := v]> m) = map_sum g m - from_option g 0 (m !! k) + g v.
Proof.
  assert (Hcomm : ∀ (m' : gmap string V) (j1 j2 : string) (z1 z2 : V) (y : Z),
    j1 ≠ j2 → m' !! j1 = Some z1 → m' !! j2 = Some z2 →
    g z1 + (g z2 + y) = g z2 + (g z1 + y)) by (intros; lia).
  unfold map_sum.
  rewrite <- (insert_delete_eq m).
  rewrite map_fold_insert_L; [|by apply Hcomm|by rewrite lookup_delete_eq].
  destruct (m !! k) as [v0|] eqn:Hk; simpl.
  - rewrite (map_fold_delete_L _ _ k v0 m); [lia|by apply Hcomm|done].
  - rewrite delete_id by done. lia.
Qed.

Lemma map_sum_replace {V} (g : V → Z) (m : gmap string V) (k : string) (v0 v : V) :
  m !! k = Some v0 →
  map_sum g (<[k := v]> m) = map_sum g m - g v0 + g v.
Proof. intros Hk. by rewrite map_sum_insert, Hk. Qed.

Lemma wrap_incr (x : Z) : GoInt.incr (GoInt.wrap x) = GoInt.wrap (x + 1).
Proof.
  unfold GoInt.incr, GoInt.wrap. f_equal.
  replace ((x + 2 ^ 63) mod 2 ^ 64 - 2 ^ 63 + 1 + 2 ^ 63)
    with ((x + 2 ^ 63) mod 2 ^ 64 + 1) by lia.
  rewrite Zplus_mod_idemp_l. f_equal. lia.
Qed.

Lemma wrap_decr (x : Z) : GoInt.decr (GoInt.wrap x) = GoInt.wrap (x - 1).
Proof.
  unfold GoInt.decr, GoInt.wrap. f_equal.
  replace ((x + 2 ^ 63) mod 2 ^ 64 - 2 ^ 63 - 1 + 2 ^ 63)
    with ((x + 2 ^ 63) mod 2 ^ 64 + (-1)) by lia.
  rewrite Zplus_mod_idemp_l. f_equal. lia.
Qed.

(** ** The job counts of a round *)

Lemma size_insert_fresh {V} (m : gmap string V) (k : string) (v : V) :
  Q.has m k = false → Z.of_nat (size (<[k := v]> m)) = Z.of_nat (size m) + 1.
Proof. intros Hk%has_false. rewrite map_size_insert_None by done. lia. Qed.

Lemma size_delete_present {V} (m : gmap string V) (k : string) :
  Q.has m k = true → Z.of_nat (size (delete k m)) = Z.of_nat (size m) - 1.
Proof.
  intros Hk%has_true. rewrite map_size_delete_Some by done.
  assert (size m ≠ 0%nat); [|lia].
  destruct Hk as [v Hv]. intros Hsize%map_size_empty_inv.
  by rewrite Hsize, lookup_empty in Hv.
Qed.

Lemma job_counts_match_add jctx sctx b sctx' :
  job_counts_match sctx → S.AddJobSchedulingContext jctx sctx = (Ok b, sctx') →
  job_counts_match sctx'.
Proof.
  intros [H1 H2] Hadd. invert_add_job Hadd; unfold job_counts_match; fields;
    rewrite !(map_sum_replace _ _ _ _ _ Hq); fields.
  - rewrite H2, wrap_decr, size_delete_present by done.
    split; [rewrite H1|]; f_equal; lia.
  - rewrite H1, wrap_incr, size_insert_fresh by done.
    split; [|rewrite H2]; f_equal; lia.
  - split; [rewrite H1|rewrite H2]; f_equal; lia.
Qed.

Lemma job_counts_match_evict job sctx b sctx' :
  job_counts_match sctx → S.EvictJob job sctx = (Ok b, sctx') →
  job_counts_match sctx'.
Proof.
  intros [H1 H2] Hev. invert_evict_job Hev; unfold job_counts_match; fields;
    rewrite !(map_sum_replace _ _ _ _ _ Hq); fields.
  - rewrite H1, wrap_decr, size_delete_present by done.
    split; [|rewrite H2]; f_equal; lia.
  - rewrite H2, wrap_incr, size_insert_fresh by done.
    split; [rewrite H1|]; f_equal; lia.
Qed.

Lemma job_counts_match_queue queue weight initial limiter sctx sctx' :
  job_counts_match sctx →
  S.AddQueueSchedulingContext queue weight initial limiter sctx = (Ok tt, sctx') →
  job_counts_match sctx'.
Proof.
  intros [H1 H2]. unfold S.AddQueueSchedulingContext.
  destruct (Q.has (S.QueueSchedulingContexts sctx) queue) eqn:Hfresh; [done|].
  apply has_false in Hfresh.
  intros [= <-]. unfold job_counts_match. fields.
  rewrite !map_sum_insert, Hfresh. fields. cbn [from_option].
  rewrite !map_size_empty.
  split; [rewrite H1|rewrite H2]; f_equal; lia.
Qed.

Lemma job_counts_match_reachable
    executorId pool priorityClasses defaultPriorityClass limiter totalResources ops :
  job_counts_match
    (run ops (S.NewSchedulingContext executorId pool priorityClasses defaultPriorityClass
                limiter totalResources)).
Proof.
  apply (holds_after_run job_counts_match).
  - apply job_counts_match_add.
  - apply job_counts_match_evict.
  - apply job_counts_match_queue.
  - done.
  - done.
  - unfold job_counts_match. cbn. by rewrite !map_sum_empty.
Qed.

(** X8.  After any sequence of public operations on a new round,
    [NumScheduledJobs] is the number of decisions in the successful sets of
    all queues and [NumEvictedJobs] is the number of jobs in their evicted
    sets, both as Go [int]s. *)
Theorem job_counts_are_set_sizes
    executorId pool priorityClasses defaultPriorityClass limiter totalResources
    (ops : list operation) :
  let sctx := run ops (S.NewSchedulingContext executorId pool priorityClasses
                         defaultPriorityClass limiter totalResources) in
  S.NumScheduledJobs sctx
  = GoInt.wrap (map_sum (λ qctx, Z.of_nat (size (Q.SuccessfulJobSchedulingContexts qctx)))
                  (S.QueueSchedulingContexts sctx)) ∧
  S.NumEvictedJobs sctx
  = GoInt.wrap (map_sum (λ qctx, Z.of_nat (size (Q.EvictedJobsById qctx)))
                  (S.QueueSchedulingContexts sctx)).
Proof.
  intros sctx.
  destruct (job_counts_match_reachable executorId pool priorityClasses defaultPriorityClass
              limiter totalResources ops) as [Hscheduled Hevicted].
  split; [exact Hscheduled|exact Hevicted].
Qed.

(** ** The resource totals of a round *)

Lemma total_AddV1ResourceList (a : gmap string (gmap string Z)) c (other : gmap string Z) t :
  total (QBT.AddV1ResourceList a c other) t = total a t + schedulerobjects.Get other t.
Proof.
  unfold QBT.AddV1ResourceList. rewrite total_insert, Get_AddV1ResourceList. lia.
Qed.

Lemma total_SubV1ResourceList (a : gmap string (gmap string Z)) c (other : gmap string Z) t :
  total (QBT.SubV1ResourceList a c other) t = total a t - schedulerobjects.Get other t.
Proof.
  unfold QBT.SubV1ResourceList. rewrite total_insert, Get_SubV1ResourceList. lia.
Qed.

Lemma Get_at_AddV1ResourceList (a : gmap string (gmap string Z)) c c' (other : gmap string Z) t :
  schedulerobjects.Get (QBT.at_ (QBT.AddV1ResourceList a c other) c') t
  = schedulerobjects.Get (QBT.at_ a c') t
    + (if decide (c = c') then schedulerobjects.Get other t else 0).
Proof.
  rewrite at_AddV1ResourceList. case_decide; [subst|lia].
  rewrite Get_AddV1ResourceList. lia.
Qed.

Lemma Get_at_SubV1ResourceList (a : gmap string (gmap string Z)) c c' (other : gmap string Z) t :
  schedulerobjects.Get (QBT.at_ (QBT.SubV1ResourceList a c other) c') t
  = schedulerobjects.Get (QBT.at_ a c') t
    - (if decide (c = c') then schedulerobjects.Get other t else 0).
Proof.
  rewrite at_SubV1ResourceList. case_decide; [subst|lia].
  rewrite Get_SubV1ResourceList. lia.
Qed.

Ltac sums_step Hq H :=
  rewrite (map_sum_replace _ _ _ _ _ Hq); fields;
  rewrite ?Get_AddV1ResourceList, ?Get_SubV1ResourceList,
    ?total_AddV1ResourceList, ?total_SubV1ResourceList,
    ?Get_at_AddV1ResourceList, ?Get_at_SubV1ResourceList, ?H;
  repeat case_decide; lia.

Lemma round_sums_match_add jctx sctx b sctx' :
  round_sums_match sctx → S.AddJobSchedulingContext jctx sctx = (Ok b, sctx') →
  round_sums_match sctx'.
Proof.
  intros (H1 & H2 & H3 & H4) Hadd.
  invert_add_job Hadd; unfold round_sums_match; fields;
    (split; [|split; [|split]]); intros;
    first [sums_step Hq H1 | sums_step Hq H2 | sums_step Hq H3 | sums_step Hq H4].
Qed.

Lemma round_sums_match_evict job sctx b sctx' :
  round_sums_match sctx → S.EvictJob job sctx = (Ok b, sctx') →
  round_sums_match sctx'.
Proof.
  intros (H1 & H2 & H3 & H4) Hev.
  invert_evict_job Hev; unfold round_sums_match; fields;
    (split; [|split; [|split]]); intros.
  all: first [sums_step Hq H1 | sums_step Hq H2 | sums_step Hq H3 | sums_step Hq H4].
Qed.

Lemma total_empty t : total ∅ t = 0.
Proof. unfold total. by rewrite map_fold_empty. Qed.

Lemma at_empty c : QBT.at_ ∅ c = ∅.
Proof. unfold QBT.at_. by rewrite lookup_empty. Qed.

Lemma round_sums_match_queue queue weight initial limiter sctx sctx' :
  round_sums_match sctx →
  S.AddQueueSchedulingContext queue weight initial limiter sctx = (Ok tt, sctx') →
  round_sums_match sctx'.
Proof.
  intros (H1 & H2 & H3 & H4). unfold S.AddQueueSchedulingContext.
  destruct (Q.has (S.QueueSchedulingContexts sctx) queue) eqn:Hfresh; [done|].
  apply has_false in Hfresh.
  intros [= <-]. unfold round_sums_match. fields.
  (split; [|split; [|split]]); intros;
    rewrite map_sum_insert, Hfresh; fields; cbn [from_option];
    rewrite ?total_empty, ?at_empty, ?Get_empty, ?H1, ?H2, ?H3, ?H4; lia.
Qed.

Lemma round_sums_match_reachable
    executorId pool priorityClasses defaultPriorityClass limiter totalResources ops :
  round_sums_match
    (run ops (S.NewSchedulingContext executorId pool priorityClasses defaultPriorityClass
                limiter totalResources)).
Proof.
  apply (holds_after_run round_sums_match).
  - apply round_sums_match_add.
  - apply round_sums_match_evict.
  - apply round_sums_match_queue.
  - done.
  - done.
  - unfold round_sums_match. cbn.
    repeat split; intros; rewrite map_sum_empty, ?at_empty; apply Get_empty.
Qed.

(** X9.  After any sequence of public operations on a new round, the round's
    [ScheduledResources] is, resource by resource, the sum over all queues
    and priority classes of the queues' [ScheduledResourcesByPriorityClass],
    and the round's [EvictedResources] is that sum of the queues'
    [EvictedResourcesByPriorityClass]. *)
Theorem round_totals_are_queue_sums
    executorId pool priorityClasses defaultPriorityClass limiter totalResources
    (ops : list operation) (t : string) :
  let sctx := run ops (S.NewSchedulingContext executorId pool priorityClasses
                         defaultPriorityClass limiter totalResources) in
  schedulerobjects.Get (S.ScheduledResources sctx) t
  = map_sum (λ qctx, total (Q.ScheduledResourcesByPriorityClass qctx) t)
      (S.QueueSchedulingContexts sctx) ∧
  schedulerobjects.Get (S.EvictedResources sctx) t
  = map_sum (λ qctx, total (Q.EvictedResourcesByPriorityClass qctx) t)
      (S.QueueSchedulingContexts sctx).
Proof.
  intros sctx.
  destruct (round_sums_match_reachable executorId pool priorityClasses defaultPriorityClass
              limiter totalResources ops) as (Hscheduled & Hevicted & _).
  split; [apply Hscheduled|apply Hevicted].
Qed.

(** X10.  After any sequence of public operations on a new round, the entry
    of a priority class in the round's [ScheduledResourcesByPriorityClass] is,
    resource by resource, the sum over all queues of their entries for that
    class, and likewise for [EvictedResourcesByPriorityClass]. *)
Theorem round_classes_are_queue_sums
    executorId pool priorityClasses defaultPriorityClass limiter totalResources
    (ops : list operation) (c t : string) :
  let sctx := run ops (S.NewSchedulingContext executorId pool priorityClasses
                         defaultPriorityClass limiter totalResources) in
  schedulerobjects.Get (QBT.at_ (S.ScheduledResourcesByPriorityClass sctx) c) t
  = map_sum (λ qctx, schedulerobjects.Get
                       (QBT.at_ (Q.ScheduledResourcesByPriorityClass qctx) c) t)
      (S.QueueSchedulingContexts sctx) ∧
  schedulerobjects.Get (QBT.at_ (S.EvictedResourcesByPriorityClass sctx) c) t
  = map_sum (λ qctx, schedulerobjects.Get
                       (QBT.at_ (Q.EvictedResourcesByPriorityClass qctx) c) t)
      (S.QueueSchedulingContexts sctx).
Proof.
  intros sctx.
  destruct (round_sums_match_reachable executorId pool priorityClasses defaultPriorityClass
              limiter totalResources ops) as (_ & _ & Hscheduled & Hevicted).
  split; [apply Hscheduled|apply Hevicted].
Qed.

Lemma round_totals_match_reachable
    executorId pool priorityClasses defaultPriorityClass limiter totalResources ops :
  round_totals_match
    (run ops (S.NewSchedulingContext executorId pool priorityClasses defaultPriorityClass
                limiter totalResources)).
Proof.
  apply (holds_after_run round_totals_match).
  - intros jctx sctx b sctx' [H1 H2] Hadd.
    invert_add_job Hadd; unfold round_totals_match; fields; split; intros;
      rewrite ?Get_AddV1ResourceList, ?Get_SubV1ResourceList,
        ?total_AddV1ResourceList, ?total_SubV1ResourceList, ?H1, ?H2; lia.
  - intros job sctx b sctx' [H1 H2] Hev.
    invert_evict_job Hev; unfold round_totals_match; fields; split; intros;
      rewrite ?Get_AddV1ResourceList, ?Get_SubV1ResourceList,
        ?total_AddV1ResourceList, ?total_SubV1ResourceList, ?H1, ?H2; lia.
  - intros queue weight initial limiter' sctx sctx' HI.
    unfold S.AddQueueSchedulingContext. case_match; [done|]. by intros [= <-].
  - done.
  - done.
  - unfold round_totals_match. cbn. split; intros; by rewrite total_empty, Get_empty.
Qed.

(** X11.  After any sequence of public operations on a new round, the round's
    [ScheduledResources] is, resource by resource, the sum over the priority
    classes of its [ScheduledResourcesByPriorityClass], and its
    [EvictedResources] is that sum of its [EvictedResourcesByPriorityClass]. *)
Theorem round_totals_are_class_sums
    executorId pool priorityClasses defaultPriorityClass limiter totalResources
    (ops : list operation) (t : string) :
  let sctx := run ops (S.NewSchedulingContext executorId pool priorityClasses
                         defaultPriorityClass limiter totalResources) in
  schedulerobjects.Get (S.ScheduledResources sctx) t
  = total (S.ScheduledResourcesByPriorityClass sctx) t ∧
  schedulerobjects.Get (S.EvictedResources sctx) t
  = total (S.EvictedResourcesByPriorityClass sctx) t.
Proof.
  intros sctx.
  destruct (round_totals_match_reachable executorId pool priorityClasses defaultPriorityClass
              limiter totalResources ops) as [Hscheduled Hevicted].
  split; [apply Hscheduled|apply Hevicted].
Qed.

(** ** What stays of a queue context *)

Lemma same_queue_refl qctx : same_queue qctx qctx.
Proof. by repeat split. Qed.

Lemma same_queue_trans q1 q2 q3 : same_queue q1 q2 → same_queue q2 q3 → same_queue q1 q3.
Proof.
  intros (?&?&?&?&H12) (?&?&?&?&H23).
  split; [congruence|]. split; [congruence|]. split; [congruence|]. split; [congruence|].
  intros c t. by rewrite H23, H12.
Qed.

Lemma same_queue_add jctx qctx : same_queue qctx (Q.AddJobSchedulingContext jctx qctx).2.
Proof.
  unfold Q.AddJobSchedulingContext.
  repeat case_match; fields; try apply same_queue_refl;
    repeat split; intros c resource; unfold balance; fields;
    rewrite ?Get_at_AddV1ResourceList, ?Get_at_SubV1ResourceList; lia.
Qed.

Lemma same_queue_evict job qctx : same_queue qctx (Q.EvictJob job qctx).2.
Proof.
  unfold Q.EvictJob.
  repeat case_match; fields; try apply same_queue_refl;
    repeat split; intros c resource; unfold balance; fields;
    rewrite ?Get_at_AddV1ResourceList, ?Get_at_SubV1ResourceList; lia.
Qed.

(** X12.  A queue that [GetQueue] finds is found by [GetQueue] whatever
    public operations follow, under the same name, executor and limiter and
    with the weight that [GetWeight] returns; and for every priority class
    and resource, its allocation less what was scheduled in this round plus
    what was evicted in this round keeps its value. *)
Theorem queue_kept_and_balanced (ops : list operation) (sctx : S.t) (queue : string)
    (qctx : Q.t) :
  S.GetQueue sctx queue = Some qctx →
  ∃ qctx',
    S.GetQueue (run ops sctx) queue = Some qctx' ∧
    Q.Queue qctx' = Q.Queue qctx ∧
    Q.ExecutorId qctx' = Q.ExecutorId qctx ∧
    GetWeight qctx' = GetWeight qctx ∧
    Q.Limiter qctx' = Q.Limiter qctx ∧
    ∀ c t,
      schedulerobjects.Get (QBT.at_ (Q.AllocatedByPriorityClass qctx') c) t
      - schedulerobjects.Get (QBT.at_ (Q.ScheduledResourcesByPriorityClass qctx') c) t
      + schedulerobjects.Get (QBT.at_ (Q.EvictedResourcesByPriorityClass qctx') c) t
      = schedulerobjects.Get (QBT.at_ (Q.AllocatedByPriorityClass qctx) c) t
        - schedulerobjects.Get (QBT.at_ (Q.ScheduledResourcesByPriorityClass qctx) c) t
        + schedulerobjects.Get (QBT.at_ (Q.EvictedResourcesByPriorityClass qctx) c) t.
Proof.
  intros Hq.
  apply (holds_after_run
           (λ s, ∃ qctx', S.QueueSchedulingContexts s !! queue = Some qctx' ∧
                          same_queue qctx qctx')).
  - intros jctx s b s' (q1 & Hq1 & Hsame) Hadd.
    replace s' with (S.AddJobSchedulingContext jctx s).2 by by rewrite Hadd.
    destruct (S.QueueSchedulingContexts s !! Job.GetQueue (J.Job jctx)) as [q0|] eqn:Hq0.
    + rewrite (AddJobSchedulingContext_queues _ _ _ Hq0), lookup_insert.
      case_decide as Heq; [|eauto]. subst queue. simplify_eq.
      eexists. split; [done|]. eapply same_queue_trans; [exact Hsame|].
      apply same_queue_add.
    + rewrite AddJobSchedulingContext_no_queue by done. eauto.
  - intros job s b s' (q1 & Hq1 & Hsame) Hev.
    replace s' with (S.EvictJob job s).2 by by rewrite Hev.
    destruct (S.QueueSchedulingContexts s !! Job.GetQueue job) as [q0|] eqn:Hq0.
    + rewrite (EvictJob_queues _ _ _ Hq0), lookup_insert.
      case_decide as Heq; [|eauto]. subst queue. simplify_eq.
      eexists. split; [done|]. eapply same_queue_trans; [exact Hsame|].
      apply same_queue_evict.
    + rewrite EvictJob_no_queue by done. eauto.
  - intros name weight initial limiter s s' (q1 & Hq1 & Hsame).
    unfold S.AddQueueSchedulingContext.
    destruct (Q.has (S.QueueSchedulingContexts s) name) eqn:Hfresh; [done|].
    apply has_false in Hfresh. intros [= <-]. fields.
    exists q1. split; [|done]. rewrite lookup_insert_ne; [done|]. congruence.
  - intros n s (q1 & Hq1 & Hsame). eauto.
  - intros cache s (q1 & Hq1 & Hsame). eauto.
  - exists qctx. split; [done|]. apply same_queue_refl.
Qed.

Lemma queues_after_AddGangSchedulingContext_loop jctxs ae asucc sctx queue :
  queue ∉ (λ jctx, Job.GetQueue (J.Job jctx)) <$> jctxs →
  S.QueueSchedulingContexts (S.AddGangSchedulingContext_loop jctxs ae asucc sctx).2 !! queue
  = S.QueueSchedulingContexts sctx !! queue.
Proof.
  revert ae asucc sctx. induction jctxs as [|jctx jctxs IH]; intros ae asucc sctx Hq; [done|].
  rewrite fmap_cons in Hq. apply not_elem_of_cons in Hq as [Hne Hq].
  assert (H1 : S.QueueSchedulingContexts (S.AddJobSchedulingContext jctx sctx).2 !! queue
               = S.QueueSchedulingContexts sctx !! queue).
  { destruct (S.QueueSchedulingContexts sctx !! Job.GetQueue (J.Job jctx)) as [q0|] eqn:Hq0.
    - rewrite (AddJobSchedulingContext_queues _ _ _ Hq0). by rewrite lookup_insert_ne.
    - by rewrite AddJobSchedulingContext_no_queue. }
  cbn. destruct (S.AddJobSchedulingContext jctx sctx) as [[b|e0] s1]; [|done].
  rewrite IH by done. exact H1.
Qed.

Lemma queues_after_EvictGang_loop jobs acc sctx queue :
  queue ∉ Job.GetQueue <$> jobs →
  S.QueueSchedulingContexts (S.EvictGang_loop jobs acc sctx).2 !! queue
  = S.QueueSchedulingContexts sctx !! queue.
Proof.
  revert acc sctx. induction jobs as [|job jobs IH]; intros acc sctx Hq; [done|].
  rewrite fmap_cons in Hq. apply not_elem_of_cons in Hq as [Hne Hq].
  assert (H1 : S.QueueSchedulingContexts (S.EvictJob job sctx).2 !! queue
               = S.QueueSchedulingContexts sctx !! queue).
  { destruct (S.QueueSchedulingContexts sctx !! Job.GetQueue job) as [q0|] eqn:Hq0.
    - rewrite (EvictJob_queues _ _ _ Hq0). by rewrite lookup_insert_ne.
    - by rewrite EvictJob_no_queue. }
  cbn. destruct (S.EvictJob job sctx) as [[b|e0] s1]; [|done].
  rewrite IH by done. exact H1.
Qed.

(** X13.  A call writes no queue context but those of the queue it registers
    or of the queues of the jobs it is given: every other queue of the round
    is after the call what it was before, whether the call returns an error
    or not. *)
Theorem other_queues_untouched (sctx : S.t) (o : operation) (queue : string) :
  queue ∉ written_queues o →
  S.QueueSchedulingContexts (step sctx o) !! queue
  = S.QueueSchedulingContexts sctx !! queue.
Proof.
  destruct o as [name weight initial limiter|gctx|jctx|jobs|job|key jctx|]; cbn;
    intros Hq.
  - apply not_elem_of_cons in Hq as [Hne _].
    unfold S.AddQueueSchedulingContext. case_match; [done|].
    fields. by rewrite lookup_insert_ne.
  - unfold S.AddGangSchedulingContext.
    pose proof (queues_after_AddGangSchedulingContext_loop
                  (GangSchedulingContext.JobSchedulingContexts gctx) true true sctx queue Hq)
      as H1.
    destruct (S.AddGangSchedulingContext_loop _ _ _ _) as [[[ae asucc]|e] s1]; [|done].
    fields. by destruct (asucc && negb ae).
  - apply (queues_after_AddGangSchedulingContext_loop [jctx] true true sctx queue) in Hq.
    cbn in Hq. by destruct (S.AddJobSchedulingContext jctx sctx) as [[b|e0] s1].
  - unfold S.EvictGang.
    pose proof (queues_after_EvictGang_loop jobs true sctx queue Hq) as H1.
    destruct (S.EvictGang_loop _ _ _) as [[b|e] s1]; [|done].
    fields. by destruct b.
  - apply (queues_after_EvictGang_loop [job] true sctx queue) in Hq.
    cbn in Hq. by destruct (S.EvictJob job sctx) as [[b|e0] s1].
  - done.
  - done.
Qed.

(** ** Where decisions are filed *)

Lemma queue_well_filed_add queue executorId jctx qctx :
  queue_well_filed queue executorId qctx →
  queue_well_filed queue executorId (Q.AddJobSchedulingContext jctx qctx).2.
Proof.
  intros (Hname & Hexec & Hsucc & Hunsucc & Hev).
  unfold Q.AddJobSchedulingContext.
  destruct (Q.has (Q.SuccessfulJobSchedulingContexts qctx) _); [done|].
  destruct (Q.has (Q.UnsuccessfulJobSchedulingContexts qctx) _); [done|].
  destruct (J.IsSuccessful jctx) eqn:Hok.
  - destruct (J.PodRequirements jctx) as [req|] eqn:Hreq; [|done].
    destruct (Q.has (Q.EvictedJobsById qctx) _); unfold queue_well_filed; fields.
    + do 4 (split; [done|]).
      intros id v [_ Hv]%lookup_delete_Some. by eapply Hev.
    + do 2 (split; [done|]). split; [|done].
      intros id j [[<- <-]|[_ Hj]]%lookup_insert_Some; [|by apply Hsucc].
      rewrite Hreq. eauto.
  - unfold queue_well_filed; fields.
    do 3 (split; [done|]). split; [|done].
    intros id j [[<- <-]|[_ Hj]]%lookup_insert_Some; [done|by apply Hunsucc].
Qed.

Lemma queue_well_filed_evict queue executorId job qctx :
  queue_well_filed queue executorId qctx →
  queue_well_filed queue executorId (Q.EvictJob job qctx).2.
Proof.
  intros (Hname & Hexec & Hsucc & Hunsucc & Hev).
  unfold Q.EvictJob.
  destruct (Q.has (Q.UnsuccessfulJobSchedulingContexts qctx) _); [done|].
  destruct (Q.has (Q.EvictedJobsById qctx) _); [done|].
  destruct (Q.has (Q.SuccessfulJobSchedulingContexts qctx) _); unfold queue_well_filed; fields.
  - do 2 (split; [done|]). split; [|done].
    intros id j [_ Hj]%lookup_delete_Some. by apply Hsucc.
  - do 4 (split; [done|]).
    intros id v [[_ <-]|[_ Hv]]%lookup_insert_Some; [done|by eapply Hev].
Qed.

Lemma ExecutorId_after_AddJobSchedulingContext jctx sctx :
  S.ExecutorId (S.AddJobSchedulingContext jctx sctx).2 = S.ExecutorId sctx.
Proof.
  unfold S.AddJobSchedulingContext.
  destruct (S.QueueSchedulingContexts sctx !! _) as [qctx|]; [|done].
  destruct (Q.AddJobSchedulingContext jctx qctx) as [[b|e0] qctx']; [|done].
  destruct (J.IsSuccessful jctx), b; done.
Qed.

Lemma ExecutorId_after_EvictJob job sctx :
  S.ExecutorId (S.EvictJob job sctx).2 = S.ExecutorId sctx.
Proof.
  unfold S.EvictJob.
  destruct (S.QueueSchedulingContexts sctx !! _) as [qctx|]; [|done].
  destruct (Q.EvictJob job qctx) as [[b|e0] qctx']; [|done].
  by destruct b.
Qed.

Lemma well_filed_reachable
    executorId pool priorityClasses defaultPriorityClass limiter totalResources ops :
  well_filed
    (run ops (S.NewSchedulingContext executorId pool priorityClasses defaultPriorityClass
                limiter totalResources)).
Proof.
  apply (holds_after_run well_filed).
  - intros jctx s b s' HI Hadd.
    replace s' with (S.AddJobSchedulingContext jctx s).2 by by rewrite Hadd.
    intros queue q1. rewrite ExecutorId_after_AddJobSchedulingContext.
    destruct (S.QueueSchedulingContexts s !! Job.GetQueue (J.Job jctx)) as [q0|] eqn:Hq0.
    + rewrite (AddJobSchedulingContext_queues _ _ _ Hq0), lookup_insert.
      case_decide as Heq; [|by apply HI]. intros [= <-].
      apply queue_well_filed_add. subst queue. by apply HI.
    + rewrite AddJobSchedulingContext_no_queue by done. by apply HI.
  - intros job s b s' HI Hev.
    replace s' with (S.EvictJob job s).2 by by rewrite Hev.
    intros queue q1. rewrite ExecutorId_after_EvictJob.
    destruct (S.QueueSchedulingContexts s !! Job.GetQueue job) as [q0|] eqn:Hq0.
    + rewrite (EvictJob_queues _ _ _ Hq0), lookup_insert.
      case_decide as Heq; [|by apply HI]. intros [= <-].
      apply queue_well_filed_evict. subst queue. by apply HI.
    + rewrite EvictJob_no_queue by done. by apply HI.
  - intros name weight initial limiter' s s' HI.
    unfold S.AddQueueSchedulingContext. case_match; [done|]. intros [= <-].
    intros queue q1. fields. rewrite lookup_insert.
    case_decide as Heq; [|by apply HI]. intros [= <-]. subst queue.
    unfold queue_well_filed. fields. by repeat split.
  - done.
  - done.
  - intros queue q1. cbn. by rewrite lookup_empty.
Qed.

(** X14.  After any sequence of public operations on a new round, every queue
    context carries the name it is registered under and the executor id of
    the round; a decision found under a job id in the successful or the
    unsuccessful set has that job id; the decisions in the successful set are
    successful and have pod requirements, those in the unsuccessful set are
    unsuccessful; and the evicted set maps job ids to [true] only.  None of
    this reads the [Job] field of a stored decision, which [ClearJobSpecs]
    sets to nil. *)
Theorem decisions_are_well_filed
    executorId pool priorityClasses defaultPriorityClass limiter totalResources
    (ops : list operation) (queue : string) (qctx : Q.t) :
  S.QueueSchedulingContexts
    (run ops (S.NewSchedulingContext executorId pool priorityClasses defaultPriorityClass
                limiter totalResources)) !! queue = Some qctx →
  Q.Queue qctx = queue ∧
  Q.ExecutorId qctx = executorId ∧
  (∀ id jctx,
     Q.SuccessfulJobSchedulingContexts qctx !! id = Some jctx →
     J.JobId jctx = id ∧
     J.IsSuccessful jctx = true ∧ is_Some (J.PodRequirements jctx)) ∧
  (∀ id jctx,
     Q.UnsuccessfulJobSchedulingContexts qctx !! id = Some jctx →
     J.JobId jctx = id ∧
     J.IsSuccessful jctx = false) ∧
  (∀ id v, Q.EvictedJobsById qctx !! id = Some v → v = true).
Proof.
  intros Hq.
  pose proof (well_filed_reachable executorId pool priorityClasses defaultPriorityClass
                limiter totalResources ops queue qctx Hq) as Hfiled.
  assert (Hexec : S.ExecutorId
            (run ops (S.NewSchedulingContext executorId pool priorityClasses
                        defaultPriorityClass limiter totalResources)) = executorId).
  { apply (holds_after_run (λ s, S.ExecutorId s = executorId)); try done.
    - intros jctx s b s' <- Hadd.
      replace s' with (S.AddJobSchedulingContext jctx s).2 by by rewrite Hadd.
      apply ExecutorId_after_AddJobSchedulingContext.
    - intros job s b s' <- Hev.
      replace s' with (S.EvictJob job s).2 by by rewrite Hev.
      apply ExecutorId_after_EvictJob.
    - intros name weight initial limiter' s s' <-.
      unfold S.AddQueueSchedulingContext. case_match; [done|]. by intros [= <-]. }
  rewrite Hexec in Hfiled. exact Hfiled.
Qed.

(** ** Listing the successful decisions *)

Lemma append_values_spec (m : gmap string J.t) (acc : list J.t) :
  let l := map_fold (λ _ jctx jctxs, jctxs ++ [jctx]) acc m in
  (∀ jctx, jctx ∈ l ↔ jctx ∈ acc ∨ ∃ id, m !! id = Some jctx) ∧
  Z.of_nat (length l) = Z.of_nat (length acc) + Z.of_nat (size m).
Proof.
  induction m as [|id x m Hid Hfirst [IHin IHlen]] using map_first_key_ind; cbn zeta.
  - rewrite map_fold_empty, map_size_empty. split; [|lia].
    intros jctx. split; [by left|]. intros [?|[id Hid]]; [done|].
    by rewrite lookup_empty in Hid.
  - rewrite map_fold_insert_first_key by done.
    rewrite map_size_insert_None by done. split.
    + intros jctx. rewrite elem_of_app, list_elem_of_singleton, IHin. split.
      * intros [[?|[id' Hid']]| ->]; [by left| |].
        -- right. exists id'. rewrite lookup_insert_ne; [done|]. congruence.
        -- right. exists id. apply lookup_insert_eq.
      * intros [?|[id' [[_ <-]|[_ Hid']]%lookup_insert_Some]]; eauto.
    + rewrite length_app. cbn in *. lia.
Qed.

Lemma SuccessfulJobSchedulingContexts_spec (sctx : S.t) :
  (∀ jctx, jctx ∈ SuccessfulJobSchedulingContexts sctx ↔
     ∃ queue qctx id,
       S.QueueSchedulingContexts sctx !! queue = Some qctx ∧
       Q.SuccessfulJobSchedulingContexts qctx !! id = Some jctx) ∧
  Z.of_nat (length (SuccessfulJobSchedulingContexts sctx))
  = map_sum (λ qctx, Z.of_nat (size (Q.SuccessfulJobSchedulingContexts qctx)))
      (S.QueueSchedulingContexts sctx).
Proof.
  unfold SuccessfulJobSchedulingContexts.
  induction (S.QueueSchedulingContexts sctx) as [|queue qctx m Hq Hfirst [IHin IHlen]]
    using map_first_key_ind.
  - rewrite map_fold_empty, map_sum_empty. split; [|done].
    intros jctx. split; [by intros ?%elem_of_nil|].
    intros (queue & qctx & id & Hq & _). by rewrite lookup_empty in Hq.
  - rewrite map_fold_insert_first_key by done.
    destruct (append_values_spec (Q.SuccessfulJobSchedulingContexts qctx)
                (map_fold
                   (λ _ qctx jctxs,
                      map_fold (λ _ jctx jctxs, jctxs ++ [jctx]) jctxs
                        (Q.SuccessfulJobSchedulingContexts qctx)) [] m))
      as [Hin Hlen].
    cbn zeta in Hin, Hlen. split.
    + intros jctx. rewrite Hin, IHin. split.
      * intros [(queue' & qctx' & id & Hq' & Hid)|[id Hid]].
        -- exists queue', qctx', id. split; [|done].
           rewrite lookup_insert_ne; [done|]. congruence.
        -- exists queue, qctx, id. split; [apply lookup_insert_eq|done].
      * intros (queue' & qctx' & id & [[_ <-]|[_ Hq']]%lookup_insert_Some & Hid); eauto 10.
    + rewrite Hlen, IHlen, map_sum_insert, Hq. cbn [from_option]. lia.
Qed.

(** X15.  [SuccessfulJobSchedulingContexts] returns the decisions stored in
    the successful sets of the queues and nothing else, one entry for each
    stored decision: a decision is in the list exactly when some queue stores
    it, and the length of the list is the sum of the sizes of those sets. *)
Theorem successful_decisions_listed (sctx : S.t) (jctx : J.t) :
  (jctx ∈ SuccessfulJobSchedulingContexts sctx ↔
     ∃ queue qctx id,
       S.QueueSchedulingContexts sctx !! queue = Some qctx ∧
       Q.SuccessfulJobSchedulingContexts qctx !! id = Some jctx) ∧
  Z.of_nat (length (SuccessfulJobSchedulingContexts sctx))
  = map_sum (λ qctx, Z.of_nat (size (Q.SuccessfulJobSchedulingContexts qctx)))
      (S.QueueSchedulingContexts sctx).
Proof.
  destruct (SuccessfulJobSchedulingContexts_spec sctx) as [Hin Hlen].
  split; [apply Hin|exact Hlen].
Qed.

(** X16.  After any sequence of public operations on a new round,
    [NumScheduledJobs] is the number of decisions that
    [SuccessfulJobSchedulingContexts] returns, as a Go [int], and each of
    them is a successful decision with pod requirements. *)
Theorem scheduled_count_is_list_length
    executorId pool priorityClasses defaultPriorityClass limiter totalResources
    (ops : list operation) :
  let sctx := run ops (S.NewSchedulingContext executorId pool priorityClasses
                         defaultPriorityClass limiter totalResources) in
  S.NumScheduledJobs sctx
  = GoInt.wrap (Z.of_nat (length (SuccessfulJobSchedulingContexts sctx))) ∧
  ∀ jctx, jctx ∈ SuccessfulJobSchedulingContexts sctx →
          J.IsSuccessful jctx = true ∧ is_Some (J.PodRequirements jctx).
Proof.
  intros sctx.
  destruct (SuccessfulJobSchedulingContexts_spec sctx) as [Hin Hlen].
  destruct (job_counts_match_reachable executorId pool priorityClasses defaultPriorityClass
              limiter totalResources ops) as [Hscheduled _].
  split; [by rewrite Hlen|].
  intros jctx (queue & qctx & id & Hq & Hid)%Hin.
  destruct (well_filed_reachable executorId pool priorityClasses defaultPriorityClass
              limiter totalResources ops queue qctx Hq) as (_ & _ & Hsucc & _).
  by destruct (Hsucc id jctx Hid) as (_ & ? & ?).
Qed.

(** ** Building a gang *)

Section building_gangs.

Variable nodeUniformityLabelAnnotation : string.
Variable evictedAnnotation : string.
Variable getPodRequirements : gmap string PriorityClass.t → Job.t → option PodRequirements.t.

Lemma NewGangSchedulingContext_loop_None jctxs allEvicted total :
  NewGangSchedulingContext_loop evictedAnnotation jctxs allEvicted total = None ↔
  ∃ jctx, jctx ∈ jctxs ∧ J.PodRequirements jctx = None.
Proof.
  revert allEvicted total. induction jctxs as [|jctx jctxs IH]; intros allEvicted total; cbn.
  - split; [done|]. by intros (? & ?%elem_of_nil & _).
  - destruct (J.PodRequirements jctx) as [req|] eqn:Hreq.
    + rewrite IH. split.
      * intros (j & Hj & Hnone). exists j. split; [by apply list_elem_of_further|done].
      * intros (j & [->|Hj]%elem_of_cons & Hnone); [congruence|eauto].
    + split; [|done]. intros _. exists jctx. split; [apply list_elem_of_here|done].
Qed.

Lemma NewGangSchedulingContext_loop_Some jctxs allEvicted total allEvicted' total' :
  NewGangSchedulingContext_loop evictedAnnotation jctxs allEvicted total
  = Some (allEvicted', total') →
  allEvicted' = allEvicted && forallb (λ jctx, isEvictedJob evictedAnnotation (J.Job jctx)) jctxs ∧
  ∀ t, schedulerobjects.Get total' t
       = schedulerobjects.Get total t
         + foldr Z.add 0
             ((λ jctx, schedulerobjects.Get
                         (default ∅ (PodRequirements.Requests <$> J.PodRequirements jctx)) t)
                <$> jctxs).
Proof.
  revert allEvicted total. induction jctxs as [|jctx jctxs IH]; intros allEvicted total; cbn.
  - intros [= <- <-]. rewrite andb_true_r. split; [done|]. intros t. lia.
  - destruct (J.PodRequirements jctx) as [req|] eqn:Hreq; [|done].
    intros [-> Htotal]%IH. rewrite andb_assoc. split; [done|].
    intros t. rewrite Htotal, Get_AddV1ResourceList. cbn. lia.
Qed.

(** X17.  [NewGangSchedulingContext] stops at a nil dereference exactly when
    some member has no pod requirements, also when the first member, whose
    pod requirements the code does test, has them.  Otherwise the gang it
    returns holds the members as given, takes queue and priority class from
    the first member and the node-uniformity label from the first member's
    annotations (empty strings for no member or no annotation), and its
    [TotalResourceRequests] is, resource by resource, the sum of the
    members' requests and its [AllJobsEvicted] tells whether every member's
    job carries the annotation of evicted jobs with value ["true"], which
    holds for no member at all. *)
Theorem new_gang_is_sum_of_members (jctxs : list J.t) :
  (NewGangSchedulingContext nodeUniformityLabelAnnotation evictedAnnotation jctxs = None ↔
   ∃ jctx, jctx ∈ jctxs ∧ J.PodRequirements jctx = None) ∧
  ∀ gctx,
    NewGangSchedulingContext nodeUniformityLabelAnnotation evictedAnnotation jctxs
    = Some gctx →
    Gang.JobSchedulingContexts gctx = jctxs ∧
    Gang.Cardinality gctx = Z.of_nat (length jctxs) ∧
    Gang.Queue gctx = from_option (λ jctx, Job.GetQueue (J.Job jctx)) "" (head jctxs) ∧
    Gang.PriorityClassName gctx
    = from_option (λ jctx, Job.GetPriorityClassName (J.Job jctx)) "" (head jctxs) ∧
    Gang.NodeUniformityLabel gctx
    = from_option
        (λ jctx, from_option
                   (λ req, default "" (PodRequirements.Annotations req
                                         !! nodeUniformityLabelAnnotation))
                   "" (J.PodRequirements jctx))
        "" (head jctxs) ∧
    Gang.AllJobsEvicted gctx
    = forallb (λ jctx, isEvictedJob evictedAnnotation (J.Job jctx)) jctxs ∧
    ∀ t, schedulerobjects.Get (Gang.TotalResourceRequests gctx) t
         = foldr Z.add 0
             ((λ jctx, schedulerobjects.Get
                         (default ∅ (PodRequirements.Requests <$> J.PodRequirements jctx)) t)
                <$> jctxs).
Proof.
  unfold NewGangSchedulingContext. split.
  - rewrite <- (NewGangSchedulingContext_loop_None jctxs true ∅).
    destruct jctxs as [|jctx0 rest];
      destruct (NewGangSchedulingContext_loop _ _ _ _) as [[ae total']|]; done.
  - intros gctx Hnew.
    destruct (NewGangSchedulingContext_loop evictedAnnotation jctxs true ∅)
      as [[ae total']|] eqn:Hloop.
    + apply NewGangSchedulingContext_loop_Some in Hloop as [-> Htotal].
      assert (gctx = {|
        Gang.Queue := from_option (λ jctx, Job.GetQueue (J.Job jctx)) "" (head jctxs);
        Gang.PriorityClassName :=
          from_option (λ jctx, Job.GetPriorityClassName (J.Job jctx)) "" (head jctxs);
        Gang.JobSchedulingContexts := jctxs;
        Gang.TotalResourceRequests := total';
        Gang.AllJobsEvicted :=
          true && forallb (λ jctx, isEvictedJob evictedAnnotation (J.Job jctx)) jctxs;
        Gang.NodeUniformityLabel :=
          from_option
            (λ jctx, from_option
                       (λ req, default "" (PodRequirements.Annotations req
                                             !! nodeUniformityLabelAnnotation))
                       "" (J.PodRequirements jctx))
            "" (head jctxs) |}) as ->.
      { destruct jctxs as [|jctx0 rest]; [by injection Hnew as <-|].
        injection Hnew as <-. cbn. by destruct (J.PodRequirements jctx0). }
      cbn. do 6 (split; [done|]). intros t. rewrite Htotal, Get_empty. lia.
    + by destruct jctxs.
Qed.

(** X18.  The decisions that [JobSchedulingContextsFromJobs] builds, one per
    job and in the order of the jobs, carry the job and its id, count as
    successful until a reason is recorded, and are filed under the queue and
    id of their jobs; a gang built from them stops at a nil dereference
    exactly when [GetPodRequirements] returns nil for one of the jobs. *)
Theorem decisions_from_jobs (priorityClasses : gmap string PriorityClass.t)
    (jobs : list Job.t) :
  let jctxs := JobSchedulingContextsFromJobs getPodRequirements priorityClasses jobs in
  J.Job <$> jctxs = jobs ∧
  J.JobId <$> jctxs = Job.GetId <$> jobs ∧
  filed_under <$> jctxs = job_filed_under <$> jobs ∧
  Forall (λ jctx, J.IsSuccessful jctx = true) jctxs ∧
  (NewGangSchedulingContext nodeUniformityLabelAnnotation evictedAnnotation jctxs = None ↔
   ∃ job, job ∈ jobs ∧ getPodRequirements priorityClasses job = None).
Proof.
  cbn zeta. unfold JobSchedulingContextsFromJobs.
  split; [|split; [|split; [|split]]].
  - rewrite <- list_fmap_compose. by rewrite <- (list_fmap_id jobs) at 2.
  - by rewrite <- list_fmap_compose.
  - by rewrite <- list_fmap_compose.
  - apply Forall_fmap, Forall_forall. by intros job _.
  - unfold NewGangSchedulingContext.
    assert (Hnone :
      NewGangSchedulingContext_loop evictedAnnotation
        ((λ job, J.mk (Job.GetId job) job (getPodRequirements priorityClasses job) "")
           <$> jobs) true ∅ = None ↔
      ∃ job, job ∈ jobs ∧ getPodRequirements priorityClasses job = None).
    { rewrite NewGangSchedulingContext_loop_None. split.
      - intros (jctx & (job & -> & Hjob)%list_elem_of_fmap & Hnone). eauto.
      - intros (job & Hjob & Hnone). eexists. split; [by apply list_elem_of_fmap_2|done]. }
    rewrite <- Hnone.
    destruct jobs as [|job0 rest];
      destruct (NewGangSchedulingContext_loop _ _ _ _) as [[ae total']|]; done.
Qed.

End building_gangs.

(** ** Registered queues and their weights *)

Lemma dom_after_AddJobSchedulingContext jctx sctx :
  dom (S.QueueSchedulingContexts (S.AddJobSchedulingContext jctx sctx).2)
  = dom (S.QueueSchedulingContexts sctx).
Proof.
  destruct (S.QueueSchedulingContexts sctx !! Job.GetQueue (J.Job jctx)) as [q0|] eqn:Hq0.
  - rewrite (AddJobSchedulingContext_queues _ _ _ Hq0). by apply dom_insert_lookup_L.
  - by rewrite AddJobSchedulingContext_no_queue.
Qed.

Lemma dom_after_EvictJob job sctx :
  dom (S.QueueSchedulingContexts (S.EvictJob job sctx).2)
  = dom (S.QueueSchedulingContexts sctx).
Proof.
  destruct (S.QueueSchedulingContexts sctx !! Job.GetQueue job) as [q0|] eqn:Hq0.
  - rewrite (EvictJob_queues _ _ _ Hq0). by apply dom_insert_lookup_L.
  - by rewrite EvictJob_no_queue.
Qed.

Lemma dom_after_AddGangSchedulingContext_loop jctxs ae asucc sctx :
  dom (S.QueueSchedulingContexts (S.AddGangSchedulingContext_loop jctxs ae asucc sctx).2)
  = dom (S.QueueSchedulingContexts sctx).
Proof.
  revert ae asucc sctx. induction jctxs as [|jctx jctxs IH]; intros ae asucc sctx; [done|].
  cbn. pose proof (dom_after_AddJobSchedulingContext jctx sctx) as H1.
  destruct (S.AddJobSchedulingContext jctx sctx) as [[b|e0] s1]; [|done].
  by rewrite IH.
Qed.

Lemma dom_after_EvictGang_loop jobs acc sctx :
  dom (S.QueueSchedulingContexts (S.EvictGang_loop jobs acc sctx).2)
  = dom (S.QueueSchedulingContexts sctx).
Proof.
  revert acc sctx. induction jobs as [|job jobs IH]; intros acc sctx; [done|].
  cbn. pose proof (dom_after_EvictJob job sctx) as H1.
  destruct (S.EvictJob job sctx) as [[b|e0] s1]; [|done].
  by rewrite IH.
Qed.

Lemma registration_step (sctx : S.t) (o : operation) :
  match o with
  | OpAddQueueSchedulingContext queue weight _ _ =>
      dom (S.QueueSchedulingContexts (step sctx o))
      = {[queue]} ∪ dom (S.QueueSchedulingContexts sctx) ∧
      S.WeightSum (step sctx o)
      = if decide (queue ∈ dom (S.QueueSchedulingContexts sctx)) then S.WeightSum sctx
        else Float64.add (S.WeightSum sctx) weight
  | _ =>
      dom (S.QueueSchedulingContexts (step sctx o)) = dom (S.QueueSchedulingContexts sctx) ∧
      S.WeightSum (step sctx o) = S.WeightSum sctx
  end.
Proof.
  destruct o as [queue weight initial limiter|gctx|jctx|jobs|job|key jctx|]; cbn.
  - unfold S.AddQueueSchedulingContext.
    destruct (Q.has (S.QueueSchedulingContexts sctx) queue) eqn:Hhas; fields.
    + apply has_true_dom in Hhas. rewrite decide_True by done. split; [|done].
      apply set_eq. intros x. rewrite elem_of_union, elem_of_singleton.
      split; [by right|]. by intros [->|?].
    + apply has_false_dom in Hhas. rewrite decide_False by done.
      split; [apply dom_insert_L|done].
  - unfold S.AddGangSchedulingContext.
    pose proof (dom_after_AddGangSchedulingContext_loop
                  (GangSchedulingContext.JobSchedulingContexts gctx) true true sctx) as Hdom.
    pose proof (AddGangSchedulingContext_loop_frame
                  (GangSchedulingContext.JobSchedulingContexts gctx) true true sctx)
      as (_ & _ & Hw & _).
    destruct (S.AddGangSchedulingContext_loop _ _ _ _) as [[[ae asucc]|e] s1]; [|done].
    fields. by destruct (asucc && negb ae).
  - split; [apply dom_after_AddJobSchedulingContext|apply AddJobSchedulingContext_frame].
  - unfold S.EvictGang.
    pose proof (dom_after_EvictGang_loop jobs true sctx) as Hdom.
    pose proof (EvictGang_loop_frame jobs true sctx) as (_ & _ & Hw & _).
    destruct (S.EvictGang_loop _ _ _) as [[b|e] s1]; [|done].
    fields. by destruct b.
  - split; [apply dom_after_EvictJob|apply EvictJob_frame].
  - done.
  - done.
Qed.

(** X19.  After any sequence of public operations, the registered queues are
    those registered before together with every name a registration asked
    for, and [WeightSum] is what it was with the weights of the accepted
    registrations added one by one, in the order of the calls: a registration
    under a name that is taken adds nothing, and no other operation changes
    the sum. *)
Theorem registered_names_and_weights (ops : list operation) (sctx : S.t) :
  dom (S.QueueSchedulingContexts (run ops sctx))
  = dom (S.QueueSchedulingContexts sctx) ∪ requested_names ops ∧
  S.WeightSum (run ops sctx)
  = fold_left Float64.add
      (accepted_weights (dom (S.QueueSchedulingContexts sctx)) ops) (S.WeightSum sctx).
Proof.
  revert sctx. induction ops as [|o ops IH]; intros sctx.
  - cbn. split; [|done]. apply set_eq. intros x. rewrite elem_of_union.
    split; [by left|]. intros [?|?%elem_of_empty]; done.
  - change (run (o :: ops) sctx) with (run ops (step sctx o)).
    destruct (IH (step sctx o)) as [Hdom Hw]. rewrite Hdom, Hw.
    pose proof (registration_step sctx o) as Hstep.
    destruct o as [queue weight initial limiter|gctx|jctx|jobs|job|key jctx|];
      destruct Hstep as [-> ->]; cbn [requested_names accepted_weights]; try done.
    split.
    + apply set_eq. intros x. rewrite !elem_of_union. tauto.
    + case_decide as Hin; [|done].
      replace ({[queue]} ∪ dom (S.QueueSchedulingContexts sctx))
        with (dom (S.QueueSchedulingContexts sctx)); [done|].
      apply set_eq. intros x. rewrite elem_of_union, elem_of_singleton.
      split; [by right|]. by intros [->|?].
Qed.

(** ** Decisions that are not successful *)

(** X20.  An unsuccessful decision that is applied without error is stored in
    the unsuccessful set of its queue and changes nothing else: the resource
    totals and job and gang counts of the round, and the queue's allocation,
    per-class tables, successful set and evicted set are as before, so that a
    job that was in the evicted set stays there.  The call returns whether
    the job was in that evicted set. *)
Theorem unsuccessful_decision_counts_nothing (jctx : J.t) (sctx sctx' : S.t) (b : bool) :
  J.IsSuccessful jctx = false →
  S.AddJobSchedulingContext jctx sctx = (Ok b, sctx') →
  ∃ qctx,
    S.QueueSchedulingContexts sctx !! Job.GetQueue (J.Job jctx) = Some qctx ∧
    sctx' = S.set_QueueSchedulingContexts
              (<[Job.GetQueue (J.Job jctx) :=
                   Q.set_UnsuccessfulJobSchedulingContexts
                     (<[J.JobId jctx := jctx]> (Q.UnsuccessfulJobSchedulingContexts qctx))
                     qctx]> (S.QueueSchedulingContexts sctx)) sctx ∧
    Q.UnsuccessfulJobSchedulingContexts qctx !! J.JobId jctx = None ∧
    b = Q.has (Q.EvictedJobsById qctx) (J.JobId jctx).
Proof.
  intros Hok Hadd. revert Hadd. unfold S.AddJobSchedulingContext.
  destruct (S.QueueSchedulingContexts sctx !! _) as [qctx|] eqn:Hq; [|done].
  unfold Q.AddJobSchedulingContext. rewrite Hok.
  destruct (Q.has (Q.SuccessfulJobSchedulingContexts qctx) _) eqn:Hs; [done|].
  destruct (Q.has (Q.UnsuccessfulJobSchedulingContexts qctx) _) eqn:Hu; [done|].
  fields. intros [= <- <-]. exists qctx.
  split; [done|]. split; [done|]. split; [by apply has_false|done].
Qed.

(** ** When a gang is rejected *)

Lemma existsb_ext_in {A} (f g : A → bool) (l : list A) :
  (∀ x, x ∈ l → f x = g x) → existsb f l = existsb g l.
Proof.
  induction l as [|a l IH]; intros Hfg; [done|]. cbn.
  rewrite (Hfg a) by apply list_elem_of_here.
  rewrite IH; [done|]. intros x Hx. apply Hfg. by apply list_elem_of_further.
Qed.

Lemma queue_AddJobSchedulingContext_other (jctx : J.t) (qctx : Q.t) (id : string) :
  J.JobId jctx ≠ id →
  Q.SuccessfulJobSchedulingContexts (Q.AddJobSchedulingContext jctx qctx).2 !! id
  = Q.SuccessfulJobSchedulingContexts qctx !! id ∧
  Q.UnsuccessfulJobSchedulingContexts (Q.AddJobSchedulingContext jctx qctx).2 !! id
  = Q.UnsuccessfulJobSchedulingContexts qctx !! id.
Proof.
  intros Hne. unfold Q.AddJobSchedulingContext.
  repeat case_match; fields; rewrite ?lookup_insert_ne by done; done.
Qed.

Lemma queue_EvictJob_other (job : Job.t) (qctx : Q.t) (id : string) :
  Job.GetId job ≠ id →
  Q.UnsuccessfulJobSchedulingContexts (Q.EvictJob job qctx).2 !! id
  = Q.UnsuccessfulJobSchedulingContexts qctx !! id ∧
  Q.EvictedJobsById (Q.EvictJob job qctx).2 !! id = Q.EvictedJobsById qctx !! id.
Proof.
  intros Hne. unfold Q.EvictJob.
  repeat case_match; fields; rewrite ?lookup_insert_ne by done; done.
Qed.

Lemma AddJobSchedulingContext_fails (jctx : J.t) (sctx : S.t) :
  is_err (S.AddJobSchedulingContext jctx sctx).1
  = match S.QueueSchedulingContexts sctx !! Job.GetQueue (J.Job jctx) with
    | None => true
    | Some qctx => is_err (Q.AddJobSchedulingContext jctx qctx).1
    end.
Proof.
  unfold S.AddJobSchedulingContext.
  destruct (S.QueueSchedulingContexts sctx !! _) as [qctx|]; [|done].
  destruct (Q.AddJobSchedulingContext jctx qctx) as [[b|e] qctx']; [|done].
  by repeat case_match.
Qed.

Lemma EvictJob_fails (job : Job.t) (sctx : S.t) :
  is_err (S.EvictJob job sctx).1
  = match S.QueueSchedulingContexts sctx !! Job.GetQueue job with
    | None => true
    | Some qctx => is_err (Q.EvictJob job qctx).1
    end.
Proof.
  unfold S.EvictJob.
  destruct (S.QueueSchedulingContexts sctx !! _) as [qctx|]; [|done].
  destruct (Q.EvictJob job qctx) as [[b|e] qctx']; [|done].
  by repeat case_match.
Qed.

Lemma add_fails_after_other (jctx other : J.t) (sctx : S.t) :
  filed_under jctx ≠ filed_under other →
  fails (S.AddJobSchedulingContext jctx sctx).2 (OpAddJobSchedulingContext other)
  = fails sctx (OpAddJobSchedulingContext other).
Proof.
  intros Hne. cbn [fails]. rewrite !AddJobSchedulingContext_fails.
  destruct (S.QueueSchedulingContexts sctx !! Job.GetQueue (J.Job jctx)) as [q0|] eqn:Hq0.
  - rewrite (AddJobSchedulingContext_queues _ _ _ Hq0), lookup_insert.
    case_decide as Hqueue; [|done].
    rewrite <- Hqueue, Hq0.
    apply Bool.eq_iff_eq_true. rewrite !queue_AddJobSchedulingContext_fails.
    destruct (queue_AddJobSchedulingContext_other jctx q0 (J.JobId other)) as [-> ->]; [|done].
    intros Hid. apply Hne. unfold filed_under. by rewrite Hqueue, Hid.
  - by rewrite AddJobSchedulingContext_no_queue.
Qed.

Lemma evict_fails_after_other (job other : Job.t) (sctx : S.t) :
  job_filed_under job ≠ job_filed_under other →
  fails (S.EvictJob job sctx).2 (OpEvictJob other) = fails sctx (OpEvictJob other).
Proof.
  intros Hne. cbn [fails]. rewrite !EvictJob_fails.
  destruct (S.QueueSchedulingContexts sctx !! Job.GetQueue job) as [q0|] eqn:Hq0.
  - rewrite (EvictJob_queues _ _ _ Hq0), lookup_insert.
    case_decide as Hqueue; [|done].
    rewrite <- Hqueue, Hq0.
    apply Bool.eq_iff_eq_true. rewrite !queue_EvictJob_fails.
    destruct (queue_EvictJob_other job q0 (Job.GetId other)) as [-> ->]; [|done].
    intros Hid. apply Hne. unfold job_filed_under. by rewrite Hqueue, Hid.
  - by rewrite EvictJob_no_queue.
Qed.

Lemma AddGangSchedulingContext_loop_fails (jctxs : list J.t) (ae asucc : bool) (sctx : S.t) :
  NoDup (filed_under <$> jctxs) →
  is_err (S.AddGangSchedulingContext_loop jctxs ae asucc sctx).1
  = existsb (λ jctx, fails sctx (OpAddJobSchedulingContext jctx)) jctxs.
Proof.
  revert ae asucc sctx.
  induction jctxs as [|jctx jctxs IH]; intros ae asucc sctx Hnd; [done|].
  rewrite fmap_cons in Hnd. apply NoDup_cons in Hnd as [Hnotin Hnd].
  pose proof (λ other, add_fails_after_other jctx other sctx) as Hother.
  cbn [S.AddGangSchedulingContext_loop existsb fails] in *.
  destruct (S.AddJobSchedulingContext jctx sctx) as [[b|e] s1]; [|done].
  rewrite IH by done. cbn. apply existsb_ext_in. intros other Hin.
  apply Hother. intros Heq. apply Hnotin. rewrite Heq. by apply list_elem_of_fmap_2.
Qed.

Lemma EvictGang_loop_fails (jobs : list Job.t) (acc : bool) (sctx : S.t) :
  NoDup (job_filed_under <$> jobs) →
  is_err (S.EvictGang_loop jobs acc sctx).1
  = existsb (λ job, fails sctx (OpEvictJob job)) jobs.
Proof.
  revert acc sctx.
  induction jobs as [|job jobs IH]; intros acc sctx Hnd; [done|].
  rewrite fmap_cons in Hnd. apply NoDup_cons in Hnd as [Hnotin Hnd].
  pose proof (λ other, evict_fails_after_other job other sctx) as Hother.
  cbn [S.EvictGang_loop existsb fails] in *.
  destruct (S.EvictJob job sctx) as [[b|e] s1]; [|done].
  rewrite IH by done. cbn. apply existsb_ext_in. intros other Hin.
  apply Hother. intros Heq. apply Hnotin. rewrite Heq. by apply list_elem_of_fmap_2.
Qed.

(** X21.  When no queue and job id occurs twice among the members of a gang
    decision, applying the gang returns an error exactly when applying one of
    its members on its own to the round the call starts from would: the
    members that are applied before do not make a later member fail, nor
    succeed. *)
Theorem gang_rejected_when_a_member_is (gctx : GangSchedulingContext.t) (sctx : S.t) :
  NoDup (filed_under <$> GangSchedulingContext.JobSchedulingContexts gctx) →
  fails sctx (OpAddGangSchedulingContext gctx)
  = existsb (λ jctx, fails sctx (OpAddJobSchedulingContext jctx))
      (GangSchedulingContext.JobSchedulingContexts gctx).
Proof.
  intros Hnd. rewrite <- (AddGangSchedulingContext_loop_fails _ true true sctx Hnd).
  cbn [fails]. unfold S.AddGangSchedulingContext.
  by destruct (S.AddGangSchedulingContext_loop _ _ _ _) as [[[ae asucc]|e] s1].
Qed.

(** X22.  When no queue and job id occurs twice among the jobs of a gang,
    evicting the gang returns an error exactly when evicting one of the jobs
    on its own from the round the call starts from would. *)
Theorem gang_eviction_rejected_when_a_job_is (jobs : list Job.t) (sctx : S.t) :
  NoDup (job_filed_under <$> jobs) →
  fails sctx (OpEvictGang jobs) = existsb (λ job, fails sctx (OpEvictJob job)) jobs.
Proof.
  intros Hnd. rewrite <- (EvictGang_loop_fails _ true sctx Hnd).
  cbn [fails]. unfold S.EvictGang.
  by destruct (S.EvictGang_loop _ _ _) as [[b|e] s1].
Qed.

(** ** Decisions that stay stored *)

Lemma queue_add_keeps_successful (jctx : J.t) (qctx : Q.t) (id : string) :
  is_Some (Q.SuccessfulJobSchedulingContexts qctx !! id) →
  is_Some (Q.SuccessfulJobSchedulingContexts (Q.AddJobSchedulingContext jctx qctx).2 !! id).
Proof.
  intros Hin. destruct (decide (J.JobId jctx = id)) as [<-|Hne].
  - unfold Q.AddJobSchedulingContext. pose proof Hin as Hhas. apply has_true in Hhas.
    by rewrite Hhas.
  - by destruct (queue_AddJobSchedulingContext_other jctx qctx id Hne) as [-> _].
Qed.

Lemma queue_add_keeps_unsuccessful (jctx : J.t) (qctx : Q.t) (id : string) :
  is_Some (Q.UnsuccessfulJobSchedulingContexts qctx !! id) →
  Q.SuccessfulJobSchedulingContexts qctx !! id = None →
  is_Some (Q.UnsuccessfulJobSchedulingContexts (Q.AddJobSchedulingContext jctx qctx).2 !! id) ∧
  Q.SuccessfulJobSchedulingContexts (Q.AddJobSchedulingContext jctx qctx).2 !! id = None.
Proof.
  intros Hin Hout. destruct (decide (J.JobId jctx = id)) as [<-|Hne].
  - unfold Q.AddJobSchedulingContext. pose proof Hin as Hhas. apply has_true in Hhas.
    pose proof Hout as Hnot. apply has_false in Hnot. by rewrite Hnot, Hhas.
  - by destruct (queue_AddJobSchedulingContext_other jctx qctx id Hne) as [-> ->].
Qed.

Lemma queue_evict_keeps_unsuccessful (job : Job.t) (qctx : Q.t) (id : string) :
  is_Some (Q.UnsuccessfulJobSchedulingContexts qctx !! id) →
  Q.SuccessfulJobSchedulingContexts qctx !! id = None →
  is_Some (Q.UnsuccessfulJobSchedulingContexts (Q.EvictJob job qctx).2 !! id) ∧
  Q.SuccessfulJobSchedulingContexts (Q.EvictJob job qctx).2 !! id = None.
Proof.
  intros Hin Hout. destruct (decide (Job.GetId job = id)) as [<-|Hne].
  - unfold Q.EvictJob. pose proof Hin as Hhas. apply has_true in Hhas. by rewrite Hhas.
  - destruct (queue_EvictJob_other job qctx id Hne) as [-> _]. split; [done|].
    apply has_false. rewrite queue_EvictJob_successful_other by done. by apply has_false.
Qed.

Lemma stored_as_successful_add (key : string * string) (jctx : J.t) (sctx : S.t) :
  stored_as_successful key sctx →
  stored_as_successful key (S.AddJobSchedulingContext jctx sctx).2.
Proof.
  intros (qctx & Hq & Hin). unfold stored_as_successful.
  destruct (S.QueueSchedulingContexts sctx !! Job.GetQueue (J.Job jctx)) as [q0|] eqn:Hq0.
  - rewrite (AddJobSchedulingContext_queues _ _ _ Hq0), lookup_insert.
    case_decide as Heq; [|eauto]. rewrite Heq, Hq in Hq0. injection Hq0 as <-.
    eexists. split; [done|]. by apply queue_add_keeps_successful.
  - rewrite AddJobSchedulingContext_no_queue by done. eauto.
Qed.

Lemma stored_as_successful_evict (key : string * string) (job : Job.t) (sctx : S.t) :
  job_filed_under job ≠ key →
  stored_as_successful key sctx →
  stored_as_successful key (S.EvictJob job sctx).2.
Proof.
  intros Hne (qctx & Hq & Hin). unfold stored_as_successful.
  destruct (S.QueueSchedulingContexts sctx !! Job.GetQueue job) as [q0|] eqn:Hq0.
  - rewrite (EvictJob_queues _ _ _ Hq0), lookup_insert.
    case_decide as Heq; [|eauto]. rewrite Heq, Hq in Hq0. injection Hq0 as <-.
    eexists. split; [done|]. apply has_true.
    rewrite queue_EvictJob_successful_other; [by apply has_true|].
    intros Hid. apply Hne. destruct key as [queue id]. unfold job_filed_under.
    cbn in Heq, Hid. by rewrite Heq, Hid.
  - rewrite EvictJob_no_queue by done. eauto.
Qed.

Lemma stored_as_successful_step (key : string * string) (o : operation) (sctx : S.t) :
  key ∉ evicted_jobs o →
  stored_as_successful key sctx →
  stored_as_successful key (step sctx o).
Proof.
  intros Hnot HI.
  destruct o as [queue weight initial limiter|gctx|jctx|jobs|job|cachekey jctx|]; cbn.
  - unfold S.AddQueueSchedulingContext.
    destruct (Q.has (S.QueueSchedulingContexts sctx) queue) eqn:Hfresh; [done|].
    apply has_false in Hfresh. destruct HI as (qctx & Hq & Hin).
    exists qctx. split; [|done]. fields. rewrite lookup_insert_ne; [done|]. congruence.
  - unfold S.AddGangSchedulingContext.
    assert (Hloop : ∀ jctxs ae asucc s, stored_as_successful key s →
              stored_as_successful key (S.AddGangSchedulingContext_loop jctxs ae asucc s).2).
    { induction jctxs as [|j jctxs IH]; intros ae asucc s Hs; [done|].
      cbn. pose proof (stored_as_successful_add key j s Hs) as H1.
      destruct (S.AddJobSchedulingContext j s) as [[b|e0] s1]; [|done]. by apply IH. }
    specialize (Hloop (GangSchedulingContext.JobSchedulingContexts gctx) true true sctx HI).
    destruct (S.AddGangSchedulingContext_loop _ _ _ _) as [[[ae asucc]|e] s1]; [|done].
    cbn. by destruct (asucc && negb ae).
  - by apply stored_as_successful_add.
  - unfold S.EvictGang. cbn in Hnot.
    assert (Hloop : ∀ js acc s, key ∉ job_filed_under <$> js → stored_as_successful key s →
              stored_as_successful key (S.EvictGang_loop js acc s).2).
    { induction js as [|j js IH]; intros acc s Hjs Hs; [done|].
      rewrite fmap_cons in Hjs. apply not_elem_of_cons in Hjs as [Hj Hjs].
      cbn. pose proof (stored_as_successful_evict key j s (not_eq_sym Hj) Hs) as H1.
      destruct (S.EvictJob j s) as [[b|e0] s1]; [|done]. by apply IH. }
    specialize (Hloop jobs true sctx Hnot HI).
    destruct (S.EvictGang_loop _ _ _) as [[b|e] s1]; [|done].
    cbn. by destruct b.
  - cbn in Hnot. apply stored_as_successful_evict; [|done].
    intros Heq. apply Hnot. rewrite Heq. apply list_elem_of_here.
  - done.
  - done.
Qed.

Lemma stored_as_successful_run (key : string * string) (ops : list operation) (sctx : S.t) :
  Forall (λ o, key ∉ evicted_jobs o) ops →
  stored_as_successful key sctx →
  stored_as_successful key (run ops sctx).
Proof.
  revert sctx. induction ops as [|o ops IH]; intros sctx Hops HI; [done|].
  apply Forall_cons in Hops as [Ho Hops].
  cbn. apply IH; [done|]. by apply stored_as_successful_step.
Qed.

Lemma stored_as_unsuccessful_run (key : string * string) (ops : list operation) (sctx : S.t) :
  stored_as_unsuccessful key sctx → stored_as_unsuccessful key (run ops sctx).
Proof.
  apply (holds_after_run (stored_as_unsuccessful key)).
  - intros jctx s b s' (qctx & Hq & Hin & Hout) Hadd.
    replace s' with (S.AddJobSchedulingContext jctx s).2 by by rewrite Hadd.
    unfold stored_as_unsuccessful.
    destruct (S.QueueSchedulingContexts s !! Job.GetQueue (J.Job jctx)) as [q0|] eqn:Hq0.
    + rewrite (AddJobSchedulingContext_queues _ _ _ Hq0), lookup_insert.
      case_decide as Heq; [|eauto]. rewrite Heq, Hq in Hq0. injection Hq0 as <-.
      eexists. split; [done|]. by apply queue_add_keeps_unsuccessful.
    + rewrite AddJobSchedulingContext_no_queue by done. eauto.
  - intros job s b s' (qctx & Hq & Hin & Hout) Hev.
    replace s' with (S.EvictJob job s).2 by by rewrite Hev.
    unfold stored_as_unsuccessful.
    destruct (S.QueueSchedulingContexts s !! Job.GetQueue job) as [q0|] eqn:Hq0.
    + rewrite (EvictJob_queues _ _ _ Hq0), lookup_insert.
      case_decide as Heq; [|eauto]. rewrite Heq, Hq in Hq0. injection Hq0 as <-.
      eexists. split; [done|]. by apply queue_evict_keeps_unsuccessful.
    + rewrite EvictJob_no_queue by done. eauto.
  - intros name weight initial limiter s s' (qctx & Hq & Hin).
    unfold S.AddQueueSchedulingContext.
    destruct (Q.has (S.QueueSchedulingContexts s) name) eqn:Hfresh; [done|].
    apply has_false in Hfresh. intros [= <-].
    exists qctx. split; [|done]. fields. rewrite lookup_insert_ne; [done|]. congruence.
  - intros n s (qctx & Hq & Hin). by exists qctx.
  - intros cache s (qctx & Hq & Hin). by exists qctx.
Qed.

Lemma stored_after_AddJobSchedulingContext (jctx : J.t) (sctx sctx1 : S.t) (b : bool) :
  S.AddJobSchedulingContext jctx sctx = (Ok b, sctx1) →
  J.IsSuccessful jctx = false ∨ b = false →
  if J.IsSuccessful jctx then stored_as_successful (filed_under jctx) sctx1
  else stored_as_unsuccessful (filed_under jctx) sctx1.
Proof.
  intros Hadd Hkind. revert Hadd.
  unfold S.AddJobSchedulingContext, stored_as_successful, stored_as_unsuccessful, filed_under.
  destruct (S.QueueSchedulingContexts sctx !! _) as [qctx|] eqn:Hq; [|done].
  unfold Q.AddJobSchedulingContext.
  destruct (Q.has (Q.SuccessfulJobSchedulingContexts qctx) _) eqn:Hs; [done|].
  destruct (Q.has (Q.UnsuccessfulJobSchedulingContexts qctx) _) eqn:Hu; [done|].
  destruct (J.IsSuccessful jctx) eqn:Hok.
  - destruct (J.PodRequirements jctx) as [req|]; [|done].
    destruct (Q.has (Q.EvictedJobsById qctx) _) eqn:He; cbn.
    + intros [= <- _]. by destruct Hkind.
    + intros [= _ <-]. cbn. eexists. split; [apply lookup_insert_eq|].
      cbn. apply has_true. by rewrite has_insert, decide_True.
  - cbn. intros [= _ <-]. cbn. eexists. split; [apply lookup_insert_eq|].
    cbn. split; [|by apply has_false]. apply has_true. by rewrite has_insert, decide_True.
Qed.

(** X5.  A decision that has been stored as unsuccessful is final: whatever
    registrations, applications and evictions of jobs and gangs and cache
    writes follow, every further decision for the same job id in the same
    queue is rejected, with the error that names the unsuccessful set, and
    the round stays as it is.  A decision that has been stored as newly
    scheduled is final until its job is evicted: after operations that do not
    ask to evict that job of that queue, every further decision for it is
    rejected, with the error that names the successful set, and the round
    stays as it is. *)
Theorem stored_decision_is_final (jctx again : J.t) (sctx sctx1 : S.t) (b : bool)
    (ops : list operation) :
  S.AddJobSchedulingContext jctx sctx = (Ok b, sctx1) →
  J.IsSuccessful jctx = false ∨
    (b = false ∧ Forall (λ o, filed_under jctx ∉ evicted_jobs o) ops) →
  filed_under again = filed_under jctx →
  S.AddJobSchedulingContext again (run ops sctx1)
  = (Err (if J.IsSuccessful jctx then ErrAddAlreadySuccessful (J.JobId jctx)
          else ErrAddAlreadyUnsuccessful (J.JobId jctx)), run ops sctx1).
Proof.
  intros Hadd Hkind [= Hqueue Hid].
  assert (Hstored : J.IsSuccessful jctx = false ∨ b = false) by (destruct Hkind; tauto).
  apply (stored_after_AddJobSchedulingContext _ _ _ _ Hadd) in Hstored.
  unfold S.AddJobSchedulingContext. rewrite Hqueue.
  destruct (J.IsSuccessful jctx) eqn:Hok.
  - destruct Hkind as [?|[_ Hops]]; [done|].
    destruct (stored_as_successful_run _ ops _ Hops Hstored) as (qctx & Hq & Hin).
    cbn in Hq, Hin. rewrite Hq. unfold Q.AddJobSchedulingContext. rewrite Hid.
    apply has_true in Hin. rewrite Hin. cbn. f_equal.
    by apply set_QueueSchedulingContexts_id.
  - destruct (stored_as_unsuccessful_run _ ops _ Hstored) as (qctx & Hq & Hin & Hout).
    cbn in Hq, Hin, Hout. rewrite Hq. unfold Q.AddJobSchedulingContext. rewrite Hid.
    apply has_true in Hin. apply has_false in Hout. rewrite Hout, Hin. cbn. f_equal.
    by apply set_QueueSchedulingContexts_id.
Qed.

(** ** Gangs applied to one queue *)

Lemma queue_add_fails_after_other (jctx other : J.t) (qctx : Q.t) :
  J.JobId jctx ≠ J.JobId other →
  is_err (Q.AddJobSchedulingContext other (Q.AddJobSchedulingContext jctx qctx).2).1
  = is_err (Q.AddJobSchedulingContext other qctx).1.
Proof.
  intros Hne. apply Bool.eq_iff_eq_true. rewrite !queue_AddJobSchedulingContext_fails.
  by destruct (queue_AddJobSchedulingContext_other jctx qctx (J.JobId other)) as [-> ->].
Qed.

Lemma queue_AddGangSchedulingContext_loop_fails (jctxs : list J.t) (qctx : Q.t) :
  NoDup (J.JobId <$> jctxs) →
  is_err (Q.AddGangSchedulingContext_loop jctxs qctx).1
  = existsb (λ jctx, is_err (Q.AddJobSchedulingContext jctx qctx).1) jctxs.
Proof.
  revert qctx. induction jctxs as [|jctx jctxs IH]; intros qctx Hnd; [done|].
  rewrite fmap_cons in Hnd. apply NoDup_cons in Hnd as [Hnotin Hnd].
  pose proof (λ other, queue_add_fails_after_other jctx other qctx) as Hother.
  cbn [Q.AddGangSchedulingContext_loop existsb] in *.
  destruct (Q.AddJobSchedulingContext jctx qctx) as [[b|e] q1]; [|done].
  rewrite IH by done. cbn. apply existsb_ext_in. intros other Hin.
  apply Hother. intros Heq. apply Hnotin. rewrite Heq. by apply list_elem_of_fmap_2.
Qed.

(** X23.  [QueueSchedulingContext.AddGangSchedulingContext], which applies
    the members of a gang to one queue context, keeps the successful set free
    of the job ids of the unsuccessful and of the evicted set and keeps
    [Allocated] the sum of [AllocatedByPriorityClass], whether it returns an
    error or not; and when no job id occurs twice among the members, it
    returns an error exactly when applying one of the members on its own to
    the queue context the call starts from would. *)
Theorem queue_gang_keeps_queue_consistent (gctx : GangSchedulingContext.t) (qctx : Q.t) :
  (successful_set_apart qctx →
   successful_set_apart (Q.AddGangSchedulingContext gctx qctx).2) ∧
  (allocated_is_sum qctx → allocated_is_sum (Q.AddGangSchedulingContext gctx qctx).2) ∧
  (NoDup (J.JobId <$> GangSchedulingContext.JobSchedulingContexts gctx) →
   is_err (Q.AddGangSchedulingContext gctx qctx).1
   = existsb (λ jctx, is_err (Q.AddJobSchedulingContext jctx qctx).1)
       (GangSchedulingContext.JobSchedulingContexts gctx)).
Proof.
  split; [|split].
  - apply holds_after_queue_gang. intros jctx q1. apply successful_set_apart_add.
  - apply holds_after_queue_gang. intros jctx q1. apply allocated_is_sum_add.
  - apply queue_AddGangSchedulingContext_loop_fails.
Qed.

(** ** The further properties on a round with queues A and B *)

(** A gang of the jobs j1 and j3 of queue A. *)
Lemma applied_gang_is_its_members_witness :
  let sctx := run [Scenario.registerA] Scenario.round0 in
  let gctx := GangSchedulingContext.mk [Scenario.scheduled Scenario.j1;
                                        Scenario.scheduled Scenario.j3] in
  let sctx' := step sctx (OpAddGangSchedulingContext gctx) in
  S.AddGangSchedulingContext gctx sctx = (Ok false, sctx') ∧
  sctx' = S.set_NumScheduledGangs (S.NumScheduledGangs sctx')
            (run [OpAddJobSchedulingContext (Scenario.scheduled Scenario.j1);
                  OpAddJobSchedulingContext (Scenario.scheduled Scenario.j3)] sctx).
Proof.
  cbv zeta.
  set (sctx := run [Scenario.registerA] Scenario.round0).
  set (gctx := GangSchedulingContext.mk [Scenario.scheduled Scenario.j1;
                                         Scenario.scheduled Scenario.j3]).
  assert (Hadd : S.AddGangSchedulingContext gctx sctx
                 = (Ok false, step sctx (OpAddGangSchedulingContext gctx)))
    by (vm_compute; reflexivity).
  split; [exact Hadd|].
  exact (proj1 (applied_gang_is_its_members gctx sctx _ false Hadd)).
Defined.

(** The gang of j1 and j3 is applied and then evicted. *)
Lemma evicted_gang_is_its_members_witness :
  let gctx := GangSchedulingContext.mk [Scenario.scheduled Scenario.j1;
                                        Scenario.scheduled Scenario.j3] in
  let sctx := run [Scenario.registerA; OpAddGangSchedulingContext gctx] Scenario.round0 in
  let sctx' := step sctx (OpEvictGang [Scenario.j1; Scenario.j3]) in
  S.EvictGang [Scenario.j1; Scenario.j3] sctx = (Ok true, sctx') ∧
  sctx' = S.set_NumScheduledGangs (S.NumScheduledGangs sctx')
            (run [OpEvictJob Scenario.j1; OpEvictJob Scenario.j3] sctx).
Proof.
  cbv zeta.
  set (sctx := run [Scenario.registerA;
                    OpAddGangSchedulingContext
                      (GangSchedulingContext.mk [Scenario.scheduled Scenario.j1;
                                                 Scenario.scheduled Scenario.j3])]
                 Scenario.round0).
  assert (Hevict : S.EvictGang [Scenario.j1; Scenario.j3] sctx
                   = (Ok true, step sctx (OpEvictGang [Scenario.j1; Scenario.j3])))
    by (vm_compute; reflexivity).
  split; [exact Hevict|].
  exact (proj1 (evicted_gang_is_its_members [Scenario.j1; Scenario.j3] sctx _ true Hevict)).
Defined.

(** Job j1 is scheduled in queue A and then evicted. *)
Lemma schedule_then_evict_cancels_witness :
  let sctx := run [Scenario.registerA] Scenario.round0 in
  let sctx1 := step sctx (OpAddJobSchedulingContext (Scenario.scheduled Scenario.j1)) in
  S.AddJobSchedulingContext (Scenario.scheduled Scenario.j1) sctx = (Ok false, sctx1) ∧
  GoInt.in_range (S.NumScheduledJobs sctx) ∧
  ∃ sctx2, S.EvictJob Scenario.j1 sctx1 = (Ok true, sctx2) ∧
           S.NumScheduledJobs sctx2 = S.NumScheduledJobs sctx ∧
           schedulerobjects.Equal (S.ScheduledResources sctx2) (S.ScheduledResources sctx).
Proof.
  cbv zeta.
  set (sctx := run [Scenario.registerA] Scenario.round0).
  assert (Hadd : S.AddJobSchedulingContext (Scenario.scheduled Scenario.j1) sctx
                 = (Ok false,
                    step sctx (OpAddJobSchedulingContext (Scenario.scheduled Scenario.j1))))
    by (vm_compute; reflexivity).
  assert (Hrange : GoInt.in_range (S.NumScheduledJobs sctx))
    by (vm_compute; split; discriminate).
  split; [exact Hadd|]. split; [exact Hrange|].
  destruct (S.QueueSchedulingContexts sctx !! "A") as [qctx|] eqn:Hq;
    [|vm_compute in Hq; discriminate].
  pose proof (schedule_then_evict_cancels sctx _ qctx Scenario.j1
                (Scenario.scheduled Scenario.j1)
                (PodRequirements.mk (Scenario.cpu_mem 2 20) ∅)
                Hq eq_refl eq_refl eq_refl eq_refl eq_refl Hrange Hadd) as H.
  cbv zeta in H.
  destruct H as (sctx2 & qctx2 & Hevict & _ & Hres & _ & _ & _ & Hn & _).
  exists sctx2. split; [exact Hevict|]. split; [exact Hn|exact Hres].
Defined.

(** Job j1 is scheduled in queue A; after a decision for job j3 and the
    eviction of job j4, a further decision for j1 is rejected. *)
Lemma stored_decision_is_final_witness :
  let sctx := run [Scenario.registerA] Scenario.round0 in
  let jctx := Scenario.scheduled Scenario.j1 in
  let sctx1 := step sctx (OpAddJobSchedulingContext jctx) in
  let ops := [OpAddJobSchedulingContext (Scenario.unschedulable Scenario.j3 "no node fits");
              OpEvictJob Scenario.j4] in
  S.AddJobSchedulingContext jctx sctx = (Ok false, sctx1) ∧
  Forall (λ o, filed_under jctx ∉ evicted_jobs o) ops ∧
  S.AddJobSchedulingContext (Scenario.unschedulable Scenario.j1 "no node fits") (run ops sctx1)
  = (Err (ErrAddAlreadySuccessful "j1"), run ops sctx1).
Proof.
  cbv zeta.
  set (sctx := run [Scenario.registerA] Scenario.round0).
  set (jctx := Scenario.scheduled Scenario.j1).
  set (ops := [OpAddJobSchedulingContext (Scenario.unschedulable Scenario.j3 "no node fits");
               OpEvictJob Scenario.j4]).
  assert (Hadd : S.AddJobSchedulingContext jctx sctx
                 = (Ok false, step sctx (OpAddJobSchedulingContext jctx)))
    by (vm_compute; reflexivity).
  assert (Hops : Forall (λ o, filed_under jctx ∉ evicted_jobs o) ops).
  { apply Forall_cons. split; [apply not_elem_of_nil|].
    apply Forall_cons. split; [|apply Forall_nil_2].
    cbn. rewrite list_elem_of_singleton. vm_compute. discriminate. }
  split; [exact Hadd|]. split; [exact Hops|].
  exact (stored_decision_is_final jctx (Scenario.unschedulable Scenario.j1 "no node fits")
           sctx _ false ops Hadd (or_intror (conj eq_refl Hops)) eq_refl).
Defined.

(** Job j1 is scheduled in this round and then evicted twice. *)
Lemma eviction_after_eviction_or_failure_witness :
  let sctx := run [Scenario.registerA;
                   OpAddJobSchedulingContext (Scenario.scheduled Scenario.j1)]
                Scenario.round0 in
  let sctx1 := step sctx (OpEvictJob Scenario.j1) in
  S.EvictJob Scenario.j1 sctx = (Ok true, sctx1) ∧
  ∃ sctx2, S.EvictJob Scenario.j1 sctx1 = (Ok false, sctx2) ∧
           S.NumEvictedJobs sctx2 = GoInt.incr (S.NumEvictedJobs sctx1).
Proof.
  cbv zeta.
  set (sctx := run [Scenario.registerA;
                    OpAddJobSchedulingContext (Scenario.scheduled Scenario.j1)]
                 Scenario.round0).
  assert (Hevict : S.EvictJob Scenario.j1 sctx = (Ok true, step sctx (OpEvictJob Scenario.j1)))
    by (vm_compute; reflexivity).
  split; [exact Hevict|].
  destruct (proj2 (proj2 (eviction_after_eviction_or_failure Scenario.j1 sctx _)) Hevict)
    as (sctx2 & qctx2 & Hagain & _ & _ & Hn).
  exists sctx2. split; [exact Hagain|exact Hn].
Defined.

(** The gang of j1 and j3, applied in this round, is evicted. *)
Lemma evicted_gang_counted_once_witness :
  let gctx := GangSchedulingContext.mk [Scenario.scheduled Scenario.j1;
                                        Scenario.scheduled Scenario.j3] in
  let sctx := run [Scenario.registerA; OpAddGangSchedulingContext gctx] Scenario.round0 in
  let sctx' := step sctx (OpEvictGang [Scenario.j1; Scenario.j3]) in
  NoDup (job_filed_under <$> [Scenario.j1; Scenario.j3]) ∧
  S.EvictGang [Scenario.j1; Scenario.j3] sctx = (Ok true, sctx') ∧
  S.NumScheduledGangs sctx' = GoInt.decr (S.NumScheduledGangs sctx).
Proof.
  cbv zeta.
  set (sctx := run [Scenario.registerA;
                    OpAddGangSchedulingContext
                      (GangSchedulingContext.mk [Scenario.scheduled Scenario.j1;
                                                 Scenario.scheduled Scenario.j3])]
                 Scenario.round0).
  assert (Hnd : NoDup (job_filed_under <$> [Scenario.j1; Scenario.j3])).
  { cbn. apply NoDup_cons. split; [|apply NoDup_singleton].
    rewrite list_elem_of_singleton. vm_compute. discriminate. }
  assert (Hevict : S.EvictGang [Scenario.j1; Scenario.j3] sctx
                   = (Ok true, step sctx (OpEvictGang [Scenario.j1; Scenario.j3])))
    by (vm_compute; reflexivity).
  split; [exact Hnd|]. split; [exact Hevict|].
  exact (proj2 (evicted_gang_counted_once [Scenario.j1; Scenario.j3] sctx _ true Hnd Hevict)).
Defined.

(** Queue B, which starts with an allocation, after job j2 is evicted and
    scheduled again. *)
Lemma queue_kept_and_balanced_witness :
  let sctx := run [Scenario.registerB] Scenario.round0 in
  let ops := [OpEvictJob Scenario.j2;
              OpAddJobSchedulingContext (Scenario.scheduled Scenario.j2)] in
  ∃ qctx qctx',
    S.GetQueue sctx "B" = Some qctx ∧
    S.GetQueue (run ops sctx) "B" = Some qctx' ∧
    GetWeight qctx' = GetWeight qctx ∧
    Q.Limiter qctx' = Q.Limiter qctx.
Proof.
  cbv zeta.
  set (sctx := run [Scenario.registerB] Scenario.round0).
  destruct (S.GetQueue sctx "B") as [qctx|] eqn:Hq;
    [|vm_compute in Hq; discriminate].
  destruct (queue_kept_and_balanced
              [OpEvictJob Scenario.j2;
               OpAddJobSchedulingContext (Scenario.scheduled Scenario.j2)]
              sctx "B" qctx Hq) as (qctx' & Hq' & _ & _ & Hweight & Hlimiter & _).
  exists qctx, qctx'. split; [reflexivity|]. split; [exact Hq'|].
  split; [exact Hweight|exact Hlimiter].
Defined.

(** Scheduling job j1 of queue A leaves queue B as it is. *)
Lemma other_queues_untouched_witness :
  let sctx := run [Scenario.registerA; Scenario.registerB] Scenario.round0 in
  let o := OpAddJobSchedulingContext (Scenario.scheduled Scenario.j1) in
  ("B" ∉ written_queues o) ∧
  S.QueueSchedulingContexts (step sctx o) !! "B" = S.QueueSchedulingContexts sctx !! "B".
Proof.
  cbv zeta.
  assert (Hnot : "B" ∉ written_queues
                         (OpAddJobSchedulingContext (Scenario.scheduled Scenario.j1))).
  { cbn. rewrite list_elem_of_singleton. discriminate. }
  split; [exact Hnot|].
  exact (other_queues_untouched
           (run [Scenario.registerA; Scenario.registerB] Scenario.round0) _ "B" Hnot).
Defined.

(** Queue A of a new round after job j1 is scheduled. *)
Lemma decisions_are_well_filed_witness :
  let sctx := run [Scenario.registerA;
                   OpAddJobSchedulingContext (Scenario.scheduled Scenario.j1)]
                Scenario.round0 in
  ∃ qctx, S.QueueSchedulingContexts sctx !! "A" = Some qctx ∧
          Q.Queue qctx = "A" ∧ Q.ExecutorId qctx = "executor".
Proof.
  cbv zeta.
  destruct (S.QueueSchedulingContexts
              (run [Scenario.registerA;
                    OpAddJobSchedulingContext (Scenario.scheduled Scenario.j1)]
                 Scenario.round0) !! "A") as [qctx|] eqn:Hq;
    [|vm_compute in Hq; discriminate].
  destruct (decisions_are_well_filed "executor" "pool"
              (<["p1" := PriorityClass.mk 1]> ∅) "p1" None (Scenario.cpu_mem 10 100)
              [Scenario.registerA;
               OpAddJobSchedulingContext (Scenario.scheduled Scenario.j1)]
              "A" qctx Hq) as (Hqueue & Hexecutor & _).
  exists qctx. split; [reflexivity|]. split; [exact Hqueue|exact Hexecutor].
Defined.

(** Job j1 was evicted and is then found unschedulable. *)
Lemma unsuccessful_decision_counts_nothing_witness :
  let sctx := run [Scenario.registerA; OpEvictJob Scenario.j1] Scenario.round0 in
  let jctx := Scenario.unschedulable Scenario.j1 "no node fits" in
  let sctx' := step sctx (OpAddJobSchedulingContext jctx) in
  S.AddJobSchedulingContext jctx sctx = (Ok true, sctx') ∧
  ∃ qctx,
    S.QueueSchedulingContexts sctx !! "A" = Some qctx ∧
    sctx' = S.set_QueueSchedulingContexts
              (<["A" := Q.set_UnsuccessfulJobSchedulingContexts
                          (<["j1" := jctx]> (Q.UnsuccessfulJobSchedulingContexts qctx))
                          qctx]> (S.QueueSchedulingContexts sctx)) sctx ∧
    Q.has (Q.EvictedJobsById qctx) "j1" = true.
Proof.
  cbv zeta.
  set (sctx := run [Scenario.registerA; OpEvictJob Scenario.j1] Scenario.round0).
  set (jctx := Scenario.unschedulable Scenario.j1 "no node fits").
  assert (Hadd : S.AddJobSchedulingContext jctx sctx
                 = (Ok true, step sctx (OpAddJobSchedulingContext jctx)))
    by (vm_compute; reflexivity).
  split; [exact Hadd|].
  destruct (unsuccessful_decision_counts_nothing jctx sctx _ true eq_refl Hadd)
    as (qctx & Hq & Hstate & _ & Hevicted).
  exists qctx. split; [exact Hq|]. split; [exact Hstate|]. symmetry. exact Hevicted.
Defined.

(** A gang with job j5, whose queue C is not registered. *)
Lemma gang_rejected_when_a_member_is_witness :
  let sctx := run [Scenario.registerA] Scenario.round0 in
  let gctx := GangSchedulingContext.mk [Scenario.scheduled Scenario.j1;
                                        Scenario.scheduled Scenario.j5] in
  NoDup (filed_under <$> GangSchedulingContext.JobSchedulingContexts gctx) ∧
  fails sctx (OpAddJobSchedulingContext (Scenario.scheduled Scenario.j5)) = true ∧
  fails sctx (OpAddGangSchedulingContext gctx) = true.
Proof.
  cbv zeta.
  set (sctx := run [Scenario.registerA] Scenario.round0).
  assert (Hnd : NoDup (filed_under <$> [Scenario.scheduled Scenario.j1;
                                        Scenario.scheduled Scenario.j5])).
  { cbn. apply NoDup_cons. split; [|apply NoDup_singleton].
    rewrite list_elem_of_singleton. vm_compute. discriminate. }
  split; [exact Hnd|]. split; [vm_compute; reflexivity|].
  rewrite (gang_rejected_when_a_member_is
             (GangSchedulingContext.mk [Scenario.scheduled Scenario.j1;
                                        Scenario.scheduled Scenario.j5]) sctx Hnd).
  vm_compute. reflexivity.
Defined.

(** Evicting a gang with job j5, whose queue C is not registered. *)
Lemma gang_eviction_rejected_when_a_job_is_witness :
  let sctx := run [Scenario.registerA] Scenario.round0 in
  NoDup (job_filed_under <$> [Scenario.j1; Scenario.j5]) ∧
  fails sctx (OpEvictJob Scenario.j5) = true ∧
  fails sctx (OpEvictGang [Scenario.j1; Scenario.j5]) = true.
Proof.
  cbv zeta.
  set (sctx := run [Scenario.registerA] Scenario.round0).
  assert (Hnd : NoDup (job_filed_under <$> [Scenario.j1; Scenario.j5])).
  { cbn. apply NoDup_cons. split; [|apply NoDup_singleton].
    rewrite list_elem_of_singleton. vm_compute. discriminate. }
  split; [exact Hnd|]. split; [vm_compute; reflexivity|].
  rewrite (gang_eviction_rejected_when_a_job_is [Scenario.j1; Scenario.j5] sctx Hnd).
  vm_compute. reflexivity.
Defined.
